(** * lsyncd: the watch table and the event dispatcher

    A shallow embedding of [lsyncd.c] (the table of directory watches,
    [buildpath], [add_watch], [add_dirwatch], [remove_dirwatch],
    [get_dirwatch_offset], [handle_event], [master_loop], [rsync],
    [parse_exclude_file], [realdir] and [main] from its first watch on)
    and the properties proved about it.

    Conventions of the embedding.
    - C [int] values that carry the sentinel [-1] (watch descriptors, indices
      into [dir_watches], parents) are [Z]; the table never holds more than
      a few thousand entries (one kernel watch each), far from [2^31], so
      no wrap-around is written out.  [strlen] results and buffer sizes are
      [nat].
    - A [char *] that may be [NULL] is an [option string].
    - The globals [dir_watches], [dir_watch_size] and (as the length of the
      list) [dir_watch_num] form the [state], threaded through every
      function together with a clock and the trace of the calls made to the
      outside world.
    - What the outside world answers (the kernel, the file system, the
      child process, the signal handler) is read from an [environment],
      indexed by the clock, so that every theorem holds for every possible
      behaviour of the world.
    - [exit], a failed [assert], and undefined behaviour or divergence are
      distinct results of a computation (see [outcome]).  The recursive
      functions and the master loop take fuel; running out of it is
      divergence.
    - [printlogf] is recorded with its level and its format string; the
      values printed are not.
    - Allocation failure ([s_malloc] and friends exit with code 1) and a log
      file that cannot be opened ([printlogf] exits with code 2) are left
      out: memory and the log file are assumed to be available. *)

From Stdlib Require Import ZArith String Ascii.
From stdpp Require Import base tactics option list strings.

Local Open Scope string_scope.
Local Open Scope list_scope.
Local Open Scope Z_scope.

#[local] Arguments String.append !s1 s2 / : simpl nomatch.

(** ** Constants of the platform headers *)

(** [PATH_MAX] of <limits.h> on Linux. *)
Definition PATH_MAX : nat := 4096.

(** Event bits of <sys/inotify.h>. *)
Definition IN_ACCESS : Z := 0x1.
Definition IN_MODIFY : Z := 0x2.
Definition IN_ATTRIB : Z := 0x4.
Definition IN_CLOSE_WRITE : Z := 0x8.
Definition IN_CLOSE_NOWRITE : Z := 0x10.
Definition IN_OPEN : Z := 0x20.
Definition IN_MOVED_FROM : Z := 0x40.
Definition IN_MOVED_TO : Z := 0x80.
Definition IN_CREATE : Z := 0x100.
Definition IN_DELETE : Z := 0x200.
Definition IN_DELETE_SELF : Z := 0x400.
Definition IN_MOVE_SELF : Z := 0x800.
Definition IN_IGNORED : Z := 0x8000.
Definition IN_ISDIR : Z := 0x40000000.

(** [errno] value of an interrupted system call, <errno.h>. *)
Definition EINTR : Z := 4.

(** ** Constants of lsyncd.c *)

Definition LOG_DEBUG : Z := 1.
Definition LOG_NORMAL : Z := 2.
Definition LOG_ERROR : Z := 3.

(** [enum lsyncd_exit_code] *)
Definition LSYNCD_SUCCESS : Z := 0.
Definition LSYNCD_OUTOFMEMORY : Z := 1.
Definition LSYNCD_FILENOTFOUND : Z := 2.
Definition LSYNCD_EXECRSYNCFAIL : Z := 3.
Definition LSYNCD_NOTENOUGHARGUMENTS : Z := 4.
Definition LSYNCD_TOOMANYDIRECTORYEXCLUDES : Z := 5.
Definition LSYNCD_INTERNALFAIL : Z := 255.

Definition MAX_EXCLUDES : nat := 256.

(** ** Data model *)

(** [struct dir_watch].  A slot whose [wd] is negative is unused. *)
Record dir_watch : Type := mk_dir_watch {
  wd : Z;
  dirname : option string;
  destname : option string;
  parent : Z
}.

(** [struct inotify_event]: the [name] of an event about the watched
    directory itself is empty. *)
Record inotify_event : Type := mk_event {
  ev_wd : Z;
  ev_mask : Z;
  ev_name : string
}.

(** An entry returned by [readdir]: [d_name] and whether [d_type == DT_DIR]. *)
Record dirent : Type := mk_dirent {
  d_name : string;
  d_is_dir : bool
}.

(** What [waitpid] reports about the child. *)
Inductive wait_status : Type :=
| WExited (code : Z)
| WSignaled (sig : Z).

(** What [read] on the inotify descriptor returns: its return value, the
    [errno] it leaves, and the events held by the bytes read. *)
Record read_result : Type := mk_read {
  rd_len : Z;
  rd_errno : Z;
  rd_events : list inotify_event
}.

(** The options set from the command line and the exclude table, fixed once
    the daemon runs. *)
Record config : Type := mk_config {
  flag_dryrun : bool;
  flag_nodaemon : bool;
  option_target : string;
  rsync_binary : string;
  exclude_file : option string;
  exclude_dirs : list string
}.

(** The answers of the outside world, by clock tick. *)
Record environment : Type := mk_env {
  inotify_add_watch : nat -> string -> Z;
  opendir : nat -> string -> option (list dirent);
  keep_going_at : nat -> bool;
  waitpid : nat -> wait_status;
  read_inotf : nat -> read_result
}.

(** Calls that leave the process, in the order they are made, and the
    entry of [rsync], which is what the theorems count when they speak of
    the syncs issued. *)
Inductive call : Type :=
| InotifyAddWatch (pathname : string)
| InotifyRmWatch (w : Z)
| Free (s : string)
| Execv (binary : string) (argv : list (option string))
| Printlogf (level : Z) (fmt : string)
| RsyncEntered (src dest : string) (recursive : bool).

(** The globals of the watch table, the clock and the trace. *)
Record state : Type := mk_state {
  dir_watches : list dir_watch;
  dir_watch_size : Z;
  clock : nat;
  trace : list call
}.

(** [dir_watch_num]: the slots in use are the first ones. *)
Definition dir_watch_num (s : state) : nat := length (dir_watches s).

(** [dir_watches[i]] for a C index: nothing outside of the used slots. *)
Definition slot (dws : list dir_watch) (i : Z) : option dir_watch :=
  if i <? 0 then None else dws !! Z.to_nat i.

(** ** Computations *)

Inductive outcome (A : Type) : Type :=
| Ret (a : A) (s : state)
| Exit (code : Z) (s : state)
| Aborted (s : state)
| Undef.
Arguments Ret {A} a s.
Arguments Exit {A} code s.
Arguments Aborted {A} s.
Arguments Undef {A}.

Definition M (A : Type) : Type := state -> outcome A.

Definition ret {A : Type} (a : A) : M A := fun s => Ret a s.

Definition bind {A B : Type} (m : M A) (k : A -> M B) : M B :=
  fun s =>
    match m s with
    | Ret a s' => k a s'
    | Exit c s' => Exit c s'
    | Aborted s' => Aborted s'
    | Undef => Undef
    end.

Notation "'let*' x ':=' m 'in' k" := (bind m (fun x => k))
  (at level 10, x pattern, m at level 100, k at level 200).
Notation "m ';;;' k" := (bind m (fun _ => k))
  (at level 100, k at level 200, right associativity).

Definition emit (c : call) : M unit :=
  fun s => Ret tt (mk_state (dir_watches s) (dir_watch_size s) (clock s) (trace s ++ [c])).

Definition printlogf (level : Z) (fmt : string) : M unit := emit (Printlogf level fmt).

Definition exit {A : Type} (code : Z) : M A := fun s => Exit code s.

Definition undefined {A : Type} : M A := fun _ => Undef.

(** One question to the outside world: the clock advances. *)
Definition ask {A : Type} (q : nat -> A) : M A :=
  fun s => Ret (q (clock s))
               (mk_state (dir_watches s) (dir_watch_size s) (S (clock s)) (trace s)).

Definition get_watches : M (list dir_watch) := fun s => Ret (dir_watches s) s.

(** [for (...) body] over the elements of a list, in order. *)
Fixpoint for_each {A : Type} (l : list A) (body : A -> M unit) : M unit :=
  match l with
  | [] => ret tt
  | x :: r => body x ;;; for_each r body
  end.

(** ** buildpath *)

(** The destination buffer: its text and the number of bytes of it that
    have been written so far (the terminating NUL included), whatever the
    size of the buffer is. *)
Record pathbuf : Type := mk_pathbuf {
  pb_text : string;
  pb_written : nat
}.

Definition pb_empty : pathbuf := mk_pathbuf "" 1.

Definition strcat (b : pathbuf) (s : string) : pathbuf :=
  let t := pb_text b +:+ s in
  mk_pathbuf t (Nat.max (pb_written b) (S (String.length t))).

(** The loop of line 523, counting the parents of [p]; with no [-1] within
    [fuel] steps the chain has a cycle and the loop does not end. *)
Fixpoint parent_stack (fuel : nat) (dws : list dir_watch) (p : Z) : option nat :=
  match fuel with
  | O => if p =? -1 then Some O else None
  | S f =>
      if p =? -1 then Some O
      else match slot dws p with
           | None => None
           | Some n => S <$> parent_stack f dws (parent n)
           end
  end.

(** The loop of line 531: [k] steps from [p] towards the root. *)
Fixpoint go_back (dws : list dir_watch) (p : Z) (k : nat) : option Z :=
  match k with
  | O => Some p
  | S k' =>
      match slot dws p with
      | None => None
      | Some n => go_back dws (parent n) k'
      end
  end.

Inductive bp_result : Type :=
| BpUndef
| BpAssert
| BpRet (ok : bool) (buf : pathbuf).

(** The loop of lines 527-544, [j] going down to 1. *)
Fixpoint buildpath_loop (dws : list dir_watch) (pathsize : nat) (watch : Z)
    (with_prefix : bool) (j : nat) (buf : pathbuf) : bp_result :=
  match j with
  | O => BpRet true buf
  | S j' =>
      match go_back dws watch j' with
      | None => BpUndef
      | Some p =>
          match slot dws p with
          | None => BpUndef
          | Some n =>
              let tmpname :=
                match (if with_prefix then destname n else None) with
                | Some d => Some d
                | None => dirname n
                end in
              match tmpname with
              | None => BpUndef
              | Some tmp =>
                  if (pathsize <=? String.length (pb_text buf) + String.length tmp + 2)%nat
                  then BpRet false buf
                  else buildpath_loop dws pathsize watch with_prefix j'
                         (strcat (strcat buf tmp) "/")
              end
          end
      end
  end.

(** [buildpath] without its log line. *)
Definition buildpath_buf (dws : list dir_watch) (pathsize : nat) (watch : Z)
    (dname : option string) (prefix : option string) : bp_result :=
  if bool_decide (prefix = Some "%wwwuser") then BpAssert
  else
    let buf := match prefix with
               | Some pre => strcat pb_empty pre
               | None => pb_empty
               end in
    match parent_stack (length dws) dws watch with
    | None => BpUndef
    | Some ps =>
        match buildpath_loop dws pathsize watch (bool_decide (prefix <> None)) ps buf with
        | BpRet true buf' =>
            match dname with
            | Some d =>
                if (pathsize <=? String.length (pb_text buf') + String.length d + 2)%nat
                then BpRet false buf'
                else BpRet true (strcat buf' d)
            | None => BpRet true buf'
            end
        | r => r
        end
    end.

Definition buildpath (pathsize : nat) (watch : Z) (dname : option string)
    (prefix : option string) : M (bool * pathbuf) :=
  let* dws := get_watches in
  match buildpath_buf dws pathsize watch dname prefix with
  | BpUndef => undefined
  | BpAssert => fun s => Aborted s
  | BpRet true buf => ret (true, buf)
  | BpRet false buf => printlogf LOG_ERROR "path too long" ;;; ret (false, buf)
  end.

(** ** add_watch *)

(** The loop of lines 462-466: the first unused slot, or [dir_watch_num]. *)
Fixpoint find_unused (dws : list dir_watch) : nat :=
  match dws with
  | [] => O
  | n :: r => if wd n <? 0 then O else S (find_unused r)
  end.

(** The slots from [dir_watch_num] to [dir_watch_size - 1] are allocated
    and never read; the list holds the [dir_watch_num] slots in use, and
    [realloc] keeps them. *)
Definition add_watch (env : environment) (pathname dname : string)
    (destn : option string) (par : Z) : M Z :=
  let* w := ask (fun t => inotify_add_watch env t pathname) in
  emit (InotifyAddWatch pathname) ;;;
  if w =? -1 then
    printlogf LOG_ERROR "Cannot add watch %s (%d:%s)" ;;; ret (-1)
  else
    fun s =>
      let dws := dir_watches s in
      let newdw := find_unused dws in
      let node := mk_dir_watch w (Some dname) destn par in
      if (newdw =? length dws)%nat then
        let size :=
          if dir_watch_size s <=? Z.of_nat (length dws) + 1
          then dir_watch_size s * 2 else dir_watch_size s in
        Ret (Z.of_nat newdw) (mk_state (dws ++ [node]) size (clock s) (trace s))
      else
        Ret (Z.of_nat newdw)
            (mk_state (<[newdw := node]> dws) (dir_watch_size s) (clock s) (trace s)).

(** ** add_dirwatch *)

(** [while (keep_going) { de = readdir(d); if (de == NULL) break; ... }] *)
Fixpoint readdir_loop (env : environment) (entries : list dirent)
    (body : dirent -> M unit) : M unit :=
  let* kg := ask (keep_going_at env) in
  if negb kg then ret tt
  else match entries with
       | [] => ret tt
       | de :: r => body de ;;; readdir_loop env r body
       end.

(** The loops of lines 581-585 and 732-736. *)
Definition excluded (cfg : config) (name : string) : bool :=
  existsb (String.eqb name) (exclude_dirs cfg).

Fixpoint add_dirwatch (cfg : config) (env : environment) (fuel : nat)
    (dname : string) (destn : option string) (recursive : bool) (par : Z) : M bool :=
  match fuel with
  | O => undefined
  | S f =>
      printlogf LOG_DEBUG "add_dirwatch(%s, %s, %d, p->dirname:%s)" ;;;
      let* (ok, pathname) := buildpath (S PATH_MAX) par (Some dname) None in
      if negb ok then ret false
      else if excluded cfg dname then ret true
      else
        let* dw := add_watch env (pb_text pathname) dname destn par in
        if dw =? -1 then ret false
        else if (S PATH_MAX <? String.length (pb_text pathname) + String.length dname + 2)%nat
        then printlogf LOG_ERROR "pathname too long %s//%s" ;;; ret false
        else
          let* d := ask (fun t => opendir env t (pb_text pathname)) in
          match d with
          | None => printlogf LOG_ERROR "cannot open dir %s." ;;; ret false
          | Some entries =>
              readdir_loop env entries (fun de =>
                if d_is_dir de && negb (String.eqb (d_name de) "..")
                   && negb (String.eqb (d_name de) ".")
                then add_dirwatch cfg env f (d_name de) None true dw ;;; ret tt
                else ret tt) ;;;
              ret true
          end
  end.

(** ** remove_dirwatch *)

(** The test of lines 638-639 and of line 654. *)
Definition is_child_named (name : string) (par : Z) (n : dir_watch) : bool :=
  (0 <=? wd n) && (parent n =? par) && bool_decide (dirname n = Some name).

Definition is_child_of (par : Z) (n : dir_watch) : bool :=
  (0 <=? wd n) && (parent n =? par).

(** The loop of lines 637-643: the first live child of [par] called [name]. *)
Fixpoint find_child (dws : list dir_watch) (name : string) (par : Z) : option nat :=
  match dws with
  | [] => None
  | n :: r => if is_child_named name par n then Some O else S <$> find_child r name par
  end.

(** Lines 659-669: the slot gives up its watch and its strings. *)
Definition release (dw : Z) : M unit :=
  let* dws := get_watches in
  match slot dws dw with
  | None => undefined
  | Some n =>
      emit (InotifyRmWatch (wd n)) ;;;
      (match dirname n with Some d => emit (Free d) | None => ret tt end) ;;;
      (match destname n with Some d => emit (Free d) | None => ret tt end) ;;;
      fun s => Ret tt (mk_state (<[Z.to_nat dw := mk_dir_watch (-1) None None (parent n)]> (dir_watches s))
                                (dir_watch_size s) (clock s) (trace s))
  end.

Fixpoint remove_dirwatch (fuel : nat) (name : option string) (par : Z) : M bool :=
  match fuel with
  | O => undefined
  | S f =>
      let* dws0 := get_watches in
      let found :=
        match name with
        | Some nm => Z.of_nat <$> find_child dws0 nm par
        | None => Some par
        end in
      match found with
      | None =>
          match slot dws0 par with
          | None => undefined
          | Some _ => printlogf LOG_ERROR "Cannot find entry for %s:/:%s :-(" ;;; ret false
          end
      | Some dw =>
          for_each (seq 0 (length dws0)) (fun i =>
            let* dws := get_watches in
            match dws !! i with
            | Some n =>
                if is_child_of dw n
                then remove_dirwatch f None (Z.of_nat i) ;;; ret tt
                else ret tt
            | None => ret tt
            end) ;;;
          release dw ;;;
          ret true
      end
  end.

(** ** get_dirwatch_offset *)

Fixpoint first_with_wd (dws : list dir_watch) (w : Z) : option nat :=
  match dws with
  | [] => None
  | n :: r => if wd n =? w then Some O else S <$> first_with_wd r w
  end.

Definition get_dirwatch_offset (dws : list dir_watch) (w : Z) : Z :=
  match first_with_wd dws w with
  | Some i => Z.of_nat i
  | None => -1
  end.

(** ** rsync *)

(** [argv[argc++] = x] *)
Definition push_arg (argv : list (option string)) (x : option string) : list (option string) :=
  argv ++ [x].

(** The child created by [fork] calls [execv]; when that fails it exits with
    [LSYNCD_INTERNALFAIL], which the parent sees through [waitpid].  [fork]
    itself is assumed to succeed. *)
Definition rsync (cfg : config) (env : environment) (src dest : string)
    (recursive : bool) : M bool :=
  emit (RsyncEntered src dest recursive) ;;;
  let opts := if recursive then "-ltr" else "-ltd" in
  let MAX_ARGS := 100%nat in
  let argv := push_arg [] (Some (rsync_binary cfg)) in
  let argv := push_arg argv (Some "--delete") in
  let argv := push_arg argv (Some opts) in
  let argv :=
    match exclude_file cfg with
    | Some f => push_arg (push_arg argv (Some "--exclude-from")) (Some f)
    | None => argv
    end in
  let argv := push_arg argv (Some src) in
  let argv := push_arg argv (Some dest) in
  let argv := push_arg argv None in
  let argc := length argv in
  if (MAX_ARGS <? argc)%nat then
    printlogf LOG_ERROR "Internal error: too many (%i) options passed" ;;; ret false
  else
    for_each argv (fun _ => printlogf LOG_DEBUG "exec parameter %i:%s") ;;;
    if flag_dryrun cfg then ret true
    else
      emit (Execv (rsync_binary cfg) argv) ;;;
      for_each argv (fun a => match a with Some x => emit (Free x) | None => ret tt end) ;;;
      let* status := ask (waitpid env) in
      match status with
      | WSignaled _ => fun s => Aborted s
      | WExited code =>
          if code =? LSYNCD_INTERNALFAIL then
            printlogf LOG_ERROR "Fork exit code of %i, execv failure" ;;; ret false
          else if negb (code =? 0) then
            printlogf LOG_NORMAL "Forked rsync process returned non-zero return code: %i" ;;;
            ret false
          else
            printlogf LOG_DEBUG "Rsync of [%s] -> [%s] finished" ;;; ret true
      end.

(** ** handle_event *)

Definition mask_texts : list (Z * string) :=
  [ (IN_ACCESS, "ACCESS"); (IN_ATTRIB, "ATTRIB"); (IN_CLOSE_WRITE, "CLOSE_WRITE");
    (IN_CLOSE_NOWRITE, "CLOSE_NOWRITE"); (IN_CREATE, "CREATE"); (IN_DELETE, "DELETE");
    (IN_DELETE_SELF, "DELETE_SELF"); (IN_IGNORED, "IGNORED"); (IN_MODIFY, "MODIFY");
    (IN_MOVE_SELF, "MOVE_SELF"); (IN_MOVED_FROM, "MOVED_FROM"); (IN_MOVED_TO, "MOVED_TO");
    (IN_OPEN, "OPEN") ].

(** [a & b] as a C condition. *)
Definition has_bits (a b : Z) : bool := negb (Z.land a b =? 0).

(** The loop of lines 712-725; [None] is its [return false]. *)
Fixpoint build_masktext (tbl : list (Z * string)) (mask : Z) (masktext : string)
    : option string :=
  match tbl with
  | [] => Some masktext
  | (m, text) :: r =>
      if has_bits mask m then
        if (255 <=? String.length masktext + String.length text + 3)%nat then None
        else
          let masktext := if String.eqb masktext "" then masktext else masktext +:+ ", " in
          build_masktext r mask (masktext +:+ text)
      else build_masktext r mask masktext
  end.

(** Lines 744-750: the table follows a directory that appeared or went. *)
Definition handle_event_dirs (cfg : config) (env : environment) (fuel : nat)
    (event : inotify_event) (i : Z) : M unit :=
  (if has_bits (Z.lor IN_CREATE IN_MOVED_TO) (ev_mask event) && has_bits IN_ISDIR (ev_mask event)
   then add_dirwatch cfg env fuel (ev_name event) None false i ;;; ret tt
   else ret tt) ;;;
  (if has_bits (Z.lor IN_DELETE IN_MOVED_FROM) (ev_mask event) && has_bits IN_ISDIR (ev_mask event)
   then remove_dirwatch fuel (Some (ev_name event)) i ;;; ret tt
   else ret tt).

(** The bits of line 762. *)
Definition sync_mask : Z :=
  Z.lor (Z.lor (Z.lor (Z.lor IN_CREATE IN_CLOSE_WRITE) IN_DELETE) IN_MOVED_TO) IN_MOVED_FROM.

(** Lines 752-781. *)
Definition handle_event_sync (cfg : config) (env : environment)
    (event : inotify_event) (i : Z) : M bool :=
  let* (ok, pathname) := buildpath (S PATH_MAX) i None None in
  if negb ok then ret false
  else
    let* (ok, destname) := buildpath (S PATH_MAX) i None (Some (option_target cfg)) in
    if negb ok then ret false
    else if has_bits sync_mask (ev_mask event) then
      printlogf LOG_NORMAL "%s of %s in %s --> %s" ;;;
      let* synced := rsync cfg env (pb_text pathname) (pb_text destname) false in
      if synced then ret false
      else
        let* dws := get_watches in
        match slot dws i with
        | None => undefined
        | Some n =>
            if parent n =? -1 then ret false
            else
              let* (_, pathname) := buildpath (S PATH_MAX) (parent n) None None in
              let* (_, destname) :=
                buildpath (S PATH_MAX) (parent n) None (Some (option_target cfg)) in
              printlogf LOG_NORMAL "Retry Directory resync with %s to %s" ;;;
              let* synced := rsync cfg env (pb_text pathname) (pb_text destname) true in
              if synced then ret false
              else
                printlogf LOG_ERROR "Retry of rsync from %s to %s failed" ;;;
                exit LSYNCD_EXECRSYNCFAIL
        end
    else ret false.

Definition handle_event (cfg : config) (env : environment) (fuel : nat)
    (event : inotify_event) : M bool :=
  match build_masktext mask_texts (ev_mask event) "" with
  | None => printlogf LOG_ERROR "bufferoverflow in handle_event" ;;; ret false
  | Some _ =>
      printlogf LOG_DEBUG "inotfy event: %s:%s" ;;;
      if has_bits IN_IGNORED (ev_mask event) then ret true
      else if excluded cfg (ev_name event) then ret true
      else
        let* dws := get_watches in
        let i := get_dirwatch_offset dws (ev_wd event) in
        if i =? -1 then
          printlogf LOG_ERROR
            "received an inotify event that doesnt match any watched directory :-(%d,%d)" ;;;
          ret false
        else
          handle_event_dirs cfg env fuel event i ;;;
          handle_event_sync cfg env event i
  end.

(** ** master_loop *)

(** [fuel] bounds the number of batches read, [depth] the recursion of the
    table updates of one event. *)
Fixpoint master_loop (cfg : config) (env : environment) (depth : nat) (fuel : nat) : M bool :=
  match fuel with
  | O => undefined
  | S f =>
      let* kg := ask (keep_going_at env) in
      if negb kg then ret true
      else
        let* r := ask (read_inotf env) in
        if rd_len r <? 0 then
          printlogf LOG_ERROR "failed to read from inotify (%d:%s)" ;;; ret false
        else if rd_len r =? 0 then
          printlogf LOG_ERROR "eof?" ;;; ret false
        else
          for_each (rd_events r) (fun event => handle_event cfg env depth event ;;; ret tt) ;;;
          master_loop cfg env depth f
  end.

(** ** parse_exclude_file *)

Definition newline : ascii := "010"%char.
Definition slash : ascii := "/"%char.
Definition nul : ascii := "000"%char.

(** [fgets] with room for [n] more bytes: the bytes up to and including
    the first newline, at most [n] of them, and what is left of the file. *)
Fixpoint fgets_chars (n : nat) (input : string) : string * string :=
  match n with
  | O => (EmptyString, input)
  | S n' =>
      match input with
      | EmptyString => (EmptyString, EmptyString)
      | String c r =>
          if Ascii.eqb c newline then (String c EmptyString, r)
          else let (l, rest) := fgets_chars n' r in (String c l, rest)
      end
  end.

(** [fgets(line, size, ef)]: [None] at the end of the file. *)
Definition fgets (size : nat) (input : string) : option (string * string) :=
  match input with
  | EmptyString => None
  | _ => Some (fgets_chars (size - 1) input)
  end.

(** The bytes before the first NUL: the string that [strlen] and [strcpy] see. *)
Fixpoint c_string (s : string) : string :=
  match s with
  | EmptyString => EmptyString
  | String c r => if Ascii.eqb c nul then EmptyString else String c (c_string r)
  end.

(** [line[sl - 1]] and [line[sl - 1] = 0] *)
Fixpoint last_char (s : string) : option ascii :=
  match s with
  | EmptyString => None
  | String c EmptyString => Some c
  | String _ r => last_char r
  end.

Fixpoint drop_last (s : string) : string :=
  match s with
  | EmptyString => EmptyString
  | String _ EmptyString => EmptyString
  | String c r => String c (drop_last r)
  end.

Inductive parse_result : Type :=
| Parsed (dirs : list string)
| ParseExit (code : Z)
| ParseUndef.

(** The loop of lines 996-1043.  [dirs] is [exclude_dirs] up to
    [exclude_dir_n]; every turn takes at least one byte of the file. *)
Fixpoint parse_exclude_loop (fuel : nat) (input : string) (dirs : list string)
    : parse_result :=
  match fuel with
  | O => ParseUndef
  | S f =>
      match fgets (S PATH_MAX) input with
      | None => Parsed dirs
      | Some (raw, rest) =>
          let line := c_string raw in
          if (String.length line =? 0)%nat then parse_exclude_loop f rest dirs
          else
            let line := if bool_decide (last_char line = Some newline)
                        then drop_last line else line in
            if (String.length line =? 0)%nat then parse_exclude_loop f rest dirs
            else if bool_decide (last_char line = Some slash) then
              if (MAX_EXCLUDES <=? length dirs + 1)%nat
              then ParseExit LSYNCD_TOOMANYDIRECTORYEXCLUDES
              else
                let line := drop_last line in
                if (String.length line =? 0)%nat then parse_exclude_loop f rest dirs
                else parse_exclude_loop f rest (dirs ++ [line])
            else parse_exclude_loop f rest dirs
      end
  end.

(** [content] is what the exclude file holds, [None] when [fopen] fails;
    [dirs] is the table at the call (empty in [main]).  Read errors of
    [fgets] are left out. *)
Definition parse_exclude_file (content : option string) (dirs : list string)
    : parse_result :=
  match content with
  | None => ParseExit LSYNCD_FILENOTFOUND
  | Some input => parse_exclude_loop (S (String.length input)) input dirs
  end.

(** ** realdir *)

(** [realdir] (lines 331-354).  [realpath] is the answer of the C library,
    [None] when it fails; [is_directory] is what [stat] tells of a path. *)
Definition realdir (realpath : string -> option string) (is_directory : string -> bool)
    (dir : string) : option string :=
  match realpath dir with
  | None => None
  | Some cs =>
      if (PATH_MAX <=? String.length cs + 1)%nat then None
      else if negb (is_directory cs) then None
      else Some (cs +:+ "/")
  end.

(** ** main, from the first watch on (lines 1090-1105) *)

Definition initial_state : state := mk_state [] 2 0 [].

Definition lsyncd_run (cfg : config) (env : environment) (option_source : string)
    (depth fuel : nat) : M Z :=
  add_dirwatch cfg env depth option_source (Some "") true (-1) ;;;
  let* synced := rsync cfg env option_source (option_target cfg) true in
  if negb synced then
    printlogf LOG_ERROR "Initial rsync from %s to %s failed" ;;; exit LSYNCD_EXECRSYNCFAIL
  else
    printlogf LOG_NORMAL "--- Entering normal operation with [%d] monitored directories ---" ;;;
    master_loop cfg env depth fuel ;;;
    ret 0.

(** * The vocabulary of the properties

    What the statements below speak of: observations on outcomes and
    traces, the walks that the loops of the program are compared with, and
    the concrete tables, worlds and events at which the statements are
    tried. *)

(** ** Observations on outcomes and traces *)

(** What a computation returned, if it did. *)
Definition returned {A : Type} (o : outcome A) : option A :=
  match o with
  | Ret a _ => Some a
  | _ => None
  end.

(** The state in which a computation ended. *)
Definition final_state {A : Type} (o : outcome A) : option state :=
  match o with
  | Ret _ s | Exit _ s | Aborted s => Some s
  | Undef => None
  end.

(** The code given to [exit], if the computation ended there. *)
Definition exit_code {A : Type} (o : outcome A) : option Z :=
  match o with
  | Exit c _ => Some c
  | _ => None
  end.

(** The argument vectors given to [execv], oldest first. *)
Fixpoint execs (tr : list call) : list (string * list (option string)) :=
  match tr with
  | [] => []
  | Execv b argv :: r => (b, argv) :: execs r
  | _ :: r => execs r
  end.

(** The syncs asked for, oldest first. *)
Fixpoint syncs (tr : list call) : list (string * string * bool) :=
  match tr with
  | [] => []
  | RsyncEntered src dest recursive :: r => (src, dest, recursive) :: syncs r
  | _ :: r => syncs r
  end.

(** The descriptors given to [inotify_rm_watch], oldest first. *)
Fixpoint rm_watches (tr : list call) : list Z :=
  match tr with
  | [] => []
  | InotifyRmWatch w :: r => w :: rm_watches r
  | _ :: r => rm_watches r
  end.

(** The strings given to [free], oldest first. *)
Fixpoint frees (tr : list call) : list string :=
  match tr with
  | [] => []
  | Free x :: r => x :: frees r
  | _ :: r => frees r
  end.

(** The three results the specification names for a sync, by exit status. *)
Inductive sync_result : Type := sync_ok | sync_transient | sync_fatal.

(** The result the specification gives to an exit status. *)
Definition spec_sync_result (code : Z) : sync_result :=
  if code =? 0 then sync_ok
  else if code =? 255 then sync_fatal
  else sync_transient.

(** The vector [rsync] builds, without the closing [NULL]. *)
Definition rsync_args (cfg : config) (src dest : string) (recursive : bool) : list string :=
  [rsync_binary cfg; "--delete"; if recursive then "-ltr" else "-ltd"]
  ++ match exclude_file cfg with
     | Some f => ["--exclude-from"; f]
     | None => []
     end
  ++ [src; dest].

(** The calls [rsync] makes before it forks. *)
Definition rsync_prologue (cfg : config) (src dest : string) (recursive : bool) : list call :=
  RsyncEntered src dest recursive
  :: map (fun _ => Printlogf LOG_DEBUG "exec parameter %i:%s")
         (rsync_args cfg src dest recursive ++ [""]).

(** [s] after the calls [tr]. *)
Definition with_trace (s : state) (tr : list call) : state :=
  mk_state (dir_watches s) (dir_watch_size s) (clock s) (trace s ++ tr).

(** [s] after one question to the outside world. *)
Definition ticked (s : state) : state :=
  mk_state (dir_watches s) (dir_watch_size s) (S (clock s)) (trace s).

(** The calls of a real run, up to [waitpid]. *)
Definition rsync_spawn (cfg : config) (src dest : string) (recursive : bool) : list call :=
  rsync_prologue cfg src dest recursive
  ++ [Execv (rsync_binary cfg) (map Some (rsync_args cfg src dest recursive) ++ [None])]
  ++ map Free (rsync_args cfg src dest recursive).

(** What [rsync] returns and logs for an exit status. *)
Definition rsync_epilogue (code : Z) : bool * call :=
  if code =? LSYNCD_INTERNALFAIL
  then (false, Printlogf LOG_ERROR "Fork exit code of %i, execv failure")
  else if negb (code =? 0)
  then (false, Printlogf LOG_NORMAL "Forked rsync process returned non-zero return code: %i")
  else (true, Printlogf LOG_DEBUG "Rsync of [%s] -> [%s] finished").

(** The level of the line that [rsync] logs last, by exit status. *)
Definition severity (code : Z) : Z :=
  if code =? 255 then LOG_ERROR else if code =? 0 then LOG_DEBUG else LOG_NORMAL.

(** [c] is a log line of the level [level]. *)
Definition is_log (level : Z) (c : option call) : Prop :=
  match c with
  | Some (Printlogf l _) => l = level
  | _ => False
  end.

(** A world in which every child exits with [code]. *)
Definition env_exit (code : Z) : environment :=
  mk_env (fun _ _ => -1) (fun _ _ => None) (fun _ => true)
         (fun _ => WExited code) (fun _ => mk_read 0 0 []).

(** No dry run, no daemon, no exclude file. *)
Definition cfg_plain : config :=
  mk_config false true "host::module/" "/usr/bin/rsync" None [].

(** A world whose [read] is interrupted by a signal: it returns -1 and
    leaves [EINTR]. *)
Definition env_interrupted : environment :=
  mk_env (fun _ _ => -1) (fun _ _ => None) (fun _ => true)
         (fun _ => WExited 0) (fun _ => mk_read (-1) EINTR []).

(** A table with the root and one child, [a]. *)
Definition two_watches : list dir_watch :=
  [ mk_dir_watch 1 (Some "/tmp/src/") (Some "") (-1);
    mk_dir_watch 2 (Some "a") None 0 ].

(** A world whose kernel answers every [inotify_add_watch] with 2. *)
Definition env_same_wd : environment :=
  mk_env (fun _ _ => 2) (fun _ _ => None) (fun _ => true)
         (fun _ => WExited 0) (fun _ => mk_read 0 0 []).

(** [s] holds the byte [c]. *)
Fixpoint has_char (c : ascii) (s : string) : bool :=
  match s with
  | EmptyString => false
  | String x r => Ascii.eqb x c || has_char c r
  end.

(** A directory name as a line of the exclude file can carry it. *)
Definition plain_name (l : string) : bool :=
  negb (String.eqb l "") && negb (has_char newline l) && negb (has_char nul l)
  && (String.length l + 2 <=? PATH_MAX)%nat.

(** The exclude file that names the directories [lines], one a line. *)
Fixpoint exclude_file_of (lines : list string) : string :=
  match lines with
  | [] => ""
  | l :: r => l +:+ String slash (String newline (exclude_file_of r))
  end.

(** The name a node contributes: its [destname] on the destination side
    when it has one, its [dirname] otherwise. *)
Definition segment (with_prefix : bool) (n : dir_watch) : option string :=
  match (if with_prefix then destname n else None) with
  | Some d => Some d
  | None => dirname n
  end.

(** One turn of the loop of lines 527-544, for the node [n]. *)
Definition append_segment (pathsize : nat) (with_prefix : bool) (n : dir_watch)
    (buf : pathbuf) : bp_result :=
  match segment with_prefix n with
  | None => BpUndef
  | Some tmp =>
      if (pathsize <=? String.length (pb_text buf) + String.length tmp + 2)%nat
      then BpRet false buf
      else BpRet true (strcat (strcat buf tmp) "/")
  end.

(** The names from the root down to [p], each followed by a slash. *)
Fixpoint joined (dws : list dir_watch) (fuel : nat) (with_prefix : bool) (p : Z)
    : option string :=
  match fuel with
  | O => if p =? -1 then Some "" else None
  | S f =>
      if p =? -1 then Some ""
      else match slot dws p with
           | None => None
           | Some n =>
               match joined dws f with_prefix (parent n), segment with_prefix n with
               | Some up, Some name => Some (up +:+ name +:+ "/")
               | _, _ => None
               end
           end
  end.

(** The string of [n] bytes [c]. *)
Fixpoint replicate_char (n : nat) (c : ascii) : string :=
  match n with
  | O => EmptyString
  | S n' => String c (replicate_char n' c)
  end.

(** The sum of the lengths of the texts of a table, separators included. *)
Fixpoint texts_length (tbl : list (Z * string)) : nat :=
  match tbl with
  | [] => O
  | (_, text) :: r => (String.length text + 2 + texts_length r)%nat
  end.

(** The log lines of [handle_event] and [add_dirwatch]. *)
Definition log_event : call := Printlogf LOG_DEBUG "inotfy event: %s:%s".

Definition log_sync : call := Printlogf LOG_NORMAL "%s of %s in %s --> %s".

Definition log_retry : call := Printlogf LOG_NORMAL "Retry Directory resync with %s to %s".

Definition log_retry_failed : call := Printlogf LOG_ERROR "Retry of rsync from %s to %s failed".

(** The computation [m] asks for no sync, however it ends. *)
Definition quiet {A : Type} (m : M A) : Prop :=
  forall s s', final_state (m s) = Some s' -> syncs (trace s') = syncs (trace s).

(** A call other than the entry of [rsync]. *)
Definition no_sync (c : call) : Prop :=
  match c with
  | RsyncEntered _ _ _ => False
  | _ => True
  end.

(** A file of the directory [a] was written. *)
Definition event_write_in_a : inotify_event := mk_event 2 IN_CLOSE_WRITE "hello".

(** [two_watches] in a table of four slots, nothing done yet. *)
Definition state_two_watches : state := mk_state two_watches 4 0 [].

(** The state in which the first sync of the event above returns, in a
    world where every child exits with the status 1. *)
Definition state_after_failed_sync : state :=
  Eval vm_compute in
    match rsync cfg_plain (env_exit 1) "/tmp/src//a/" "host::module//a/" false
            (with_trace (with_trace state_two_watches [log_event]) [log_sync]) with
    | Ret _ s' => s'
    | _ => initial_state
    end.

(** The slot [i] is in use and names [dw] as its parent (line 654). *)
Definition is_child_at (dws : list dir_watch) (dw i : nat) : bool :=
  match dws !! i with
  | Some n => is_child_of (Z.of_nat dw) n
  | None => false
  end.

(** The live children of [dw], by index. *)
Definition children (dws : list dir_watch) (dw : nat) : list nat :=
  filter (fun i => is_child_at dws dw i = true) (seq 0 (length dws)).

(** The nodes below [dw] and [dw] itself, every child's subtree before its
    parent: the order of a post-order walk of the table as it is before the
    removal. *)
Fixpoint postorder (fuel : nat) (dws : list dir_watch) (dw : nat) : list nat :=
  match fuel with
  | O => []
  | S f => (children dws dw ≫= postorder f dws) ++ [dw]
  end.

(** [dw] and what hangs below it through live children. *)
Inductive in_subtree (dws : list dir_watch) (dw : nat) : nat -> Prop :=
| in_subtree_root : in_subtree dws dw dw
| in_subtree_child (p i : nat) :
    in_subtree dws dw p -> is_child_at dws p i = true -> in_subtree dws dw i.

(** An unused slot, as lines 661-669 leave it. *)
Definition tombstone (n : dir_watch) : dir_watch := mk_dir_watch (-1) None None (parent n).

(** The table with the slots of [order] given up. *)
Definition kill (order : list nat) (dws : list dir_watch) : list dir_watch :=
  imap (fun i n => if bool_decide (i ∈ order) then tombstone n else n) dws.

(** The calls of lines 659-669 for a node. *)
Definition release_calls (n : dir_watch) : list call :=
  [InotifyRmWatch (wd n)]
  ++ match dirname n with Some d => [Free d] | None => [] end
  ++ match destname n with Some d => [Free d] | None => [] end.

(** The calls for the nodes of [order], in that order. *)
Definition removal_calls (dws : list dir_watch) (order : list nat) : list call :=
  order ≫= (fun i => match dws !! i with Some n => release_calls n | None => [] end).

(** From every slot in use the walk of line 523 reaches the root. *)
Definition rooted (dws : list dir_watch) : Prop :=
  forall i n, dws !! i = Some n -> 0 <= wd n ->
              is_Some (parent_stack (length dws) dws (Z.of_nat i)).

(** [c] comes before [p] in [order]. *)
Definition before (order : list nat) (c p : nat) : Prop :=
  exists l1 l2 l3, order = l1 ++ c :: l2 ++ p :: l3.

(** The body of the loop of lines 653-657. *)
Definition remove_children_body (f : nat) (dw : Z) (i : nat) : M unit :=
  let* dws := get_watches in
  match dws !! i with
  | Some n =>
      if is_child_of dw n
      then remove_dirwatch f None (Z.of_nat i) ;;; ret tt
      else ret tt
  | None => ret tt
  end.

(** A rank for the tables whose walks to the root end: the distance to the
    root, counted down from the size of the table. *)
Definition height (dws : list dir_watch) (x : nat) : nat :=
  S (length dws) - default O (parent_stack (length dws) dws (Z.of_nat x)).

(** [rooted], as a test. *)
Definition rooted_b (dws : list dir_watch) : bool :=
  forallb (fun i =>
             match dws !! i with
             | Some n =>
                 if 0 <=? wd n
                 then bool_decide (is_Some (parent_stack (length dws) dws (Z.of_nat i)))
                 else true
             | None => true
             end)
          (seq 0 (length dws)).

(** The table of the source [/tmp/src/] with [a/], [a/b/] and [c/], the
    slot of [a/b] being below the slot of [a]. *)
Definition four_watches : list dir_watch :=
  [ mk_dir_watch 1 (Some "/tmp/src/") (Some "") (-1);
    mk_dir_watch 3 (Some "b") None 2;
    mk_dir_watch 2 (Some "a") None 0;
    mk_dir_watch 4 (Some "c") None 0 ].

(** A world where [/tmp/src//d] holds [e/] and a file, and [e/] holds [f/];
    the kernel numbers its watches from 10 on. *)
Definition fs_moved_in (p : string) : option (list dirent) :=
  if String.eqb p "/tmp/src//d"
  then Some [mk_dirent "." true; mk_dirent ".." true;
             mk_dirent "e" true; mk_dirent "notes" false]
  else if String.eqb p "/tmp/src//d/e" then Some [mk_dirent "f" true]
  else Some [].

(** The world of [fs_moved_in]. *)
Definition env_moved_in : environment :=
  mk_env (fun t _ => 10 + Z.of_nat t) (fun _ p => fs_moved_in p)
         (fun _ => true) (fun _ => WExited 0) (fun _ => mk_read 0 0 []).

(** The directory [d] was moved into the root. *)
Definition event_moved_in : inotify_event :=
  mk_event 1 (Z.lor IN_MOVED_TO IN_ISDIR) "d".

(** The loop of lines 527-544 told from the leaf: the ancestors first,
    then the node itself. *)
Fixpoint walk_up (fuel : nat) (dws : list dir_watch) (pathsize : nat) (wp : bool)
    (p : Z) (buf : pathbuf) : bp_result :=
  match fuel with
  | O => if p =? -1 then BpRet true buf else BpUndef
  | S f =>
      if p =? -1 then BpRet true buf
      else match slot dws p with
           | None => BpUndef
           | Some n =>
               match walk_up f dws pathsize wp (parent n) buf with
               | BpRet true b => append_segment pathsize wp n b
               | r => r
               end
           end
  end.

(** The slots in use from [p] up to the root. *)
Inductive live_chain (dws : list dir_watch) : Z -> Prop :=
| live_chain_root : live_chain dws (-1)
| live_chain_node (p : Z) (n : dir_watch) :
    slot dws p = Some n -> 0 <= wd n -> live_chain dws (parent n) -> live_chain dws p.

(** The slots in use keep their index and their content. *)
Definition grows (dws dws' : list dir_watch) : Prop :=
  (length dws <= length dws')%nat /\
  forall i n, dws !! i = Some n -> 0 <= wd n -> dws' !! i = Some n.

Definition log_add_dirwatch : call :=
  Printlogf LOG_DEBUG "add_dirwatch(%s, %s, %d, p->dirname:%s)".

(** The body of the loop of lines 605-616. *)
Definition install_body (cfg : config) (env : environment) (f : nat) (dw : Z)
    (de : dirent) : M unit :=
  if d_is_dir de && negb (String.eqb (d_name de) "..") && negb (String.eqb (d_name de) ".")
  then add_dirwatch cfg env f (d_name de) None true dw ;;; ret tt
  else ret tt.

(** A watch can be put on the directory [nm] of path [p]: the path leaves
    room in the buffer and the name is not excluded. *)
Definition watchable (cfg : config) (p nm : string) : Prop :=
  (String.length p + 2 < S PATH_MAX)%nat /\ excluded cfg nm = false.


(** The test of line 612. *)
Definition is_subdir (de : dirent) : bool :=
  d_is_dir de && negb (String.eqb (d_name de) "..") && negb (String.eqb (d_name de) ".").



(** The directory [nm] of path [p] is watched: [inotify_add_watch] was
    called on [p], and a slot in use carries the name [nm], has only slots
    in use above it, and gets the path [p] with a closing slash from
    [buildpath]. *)
Definition watched_in (dws : list dir_watch) (tr : list call) (p nm : string) : Prop :=
  InotifyAddWatch p ∈ tr /\
  exists (i : nat) (n : dir_watch) (buf : pathbuf),
    dws !! i = Some n /\ 0 <= wd n /\ dirname n = Some nm /\
    live_chain dws (Z.of_nat i) /\
    buildpath_buf dws (S PATH_MAX) (Z.of_nat i) None None = BpRet true buf /\
    pb_text buf = p +:+ "/".


(** ** What the functions keep *)

(** The same table in the same allocation: what the log, the clock and
    the calls to the outside world leave alone. *)
Definition same_table (s s' : state) : Prop :=
  dir_watches s' = dir_watches s /\ dir_watch_size s' = dir_watch_size s.

(** However [m] ends, [R] holds between the state it started in and the
    state it ended in. *)
Definition relates {A : Type} (R : state -> state -> Prop) (m : M A) : Prop :=
  forall s s', final_state (m s) = Some s' -> R s s'.

(** The slots in use lie within the allocated ones, with one to spare:
    [dir_watch_num < dir_watch_size]. *)
Definition allocated (s : state) : Prop :=
  0 < dir_watch_size s /\ Z.of_nat (dir_watch_num s) < dir_watch_size s.

(** No slot in use carries a name of the exclude table. *)
Definition honours_excludes (cfg : config) (dws : list dir_watch) : Prop :=
  forall i n nm, dws !! i = Some n -> 0 <= wd n -> dirname n = Some nm ->
                 excluded cfg nm = false.

(** Every slot in use has a name, and only slots in use from its parent
    up to the root. *)
Definition sound_table (dws : list dir_watch) : Prop :=
  forall i n, dws !! i = Some n -> 0 <= wd n ->
              is_Some (dirname n) /\ live_chain dws (parent n).

(** A kernel that answers [inotify_add_watch] with a descriptor or -1. *)
Definition kernel_sane (env : environment) : Prop :=
  forall t p, -1 <= inotify_add_watch env t p.

(** [m] calls [exit] only with a code of [E] and fails an [assert] only
    if [Q] holds. *)
Definition stops {A : Type} (E : Z -> Prop) (Q : Prop) (m : M A) : Prop :=
  forall s, match m s with
            | Exit c _ => E c
            | Aborted _ => Q
            | _ => True
            end.

(** The slots of [K] have their children in use among them. *)
Definition closed_under_children (dws : list dir_watch) (K : list nat) : Prop :=
  forall p i, p ∈ K -> is_child_at dws p i = true -> i ∈ K.

(** A session: the kernel numbers its watches from 10 on, the file system
    is the one of [fs_moved_in], every child exits with 0, and the first
    [read] brings the news that the directory [d] was moved into the root;
    the second one reports the end of the file. *)
Definition env_session : environment :=
  mk_env (fun t _ => 10 + Z.of_nat t) (fun _ p => fs_moved_in p)
         (fun _ => true) (fun _ => WExited 0)
         (fun t => if (t <=? 6)%nat
                   then mk_read 32 0 [mk_event 10 (Z.lor IN_MOVED_TO IN_ISDIR) "d"]
                   else mk_read 0 0 []).

(** The events that carry the descriptor of a watch: the kernel gives -1
    to the event that reports an overflow of its queue. *)
Definition from_a_watch (event : inotify_event) : Prop := 0 <= ev_wd event.

(** [four_watches] in a table of eight slots, nothing done yet. *)
Definition state_four_watches : state := mk_state four_watches 8 0 [].

(** The event by which the kernel reports an overflow of its queue:
    [IN_Q_OVERFLOW] of <sys/inotify.h>, with the descriptor -1 and no name. *)
Definition IN_Q_OVERFLOW : Z := 0x4000.

Definition event_overflow : inotify_event := mk_event (-1) IN_Q_OVERFLOW "".

(** [four_watches] after the directory [c] went. *)
Definition state_c_removed : state :=
  mk_state [ mk_dir_watch 1 (Some "/tmp/src/") (Some "") (-1);
             mk_dir_watch 3 (Some "b") None 2;
             mk_dir_watch 2 (Some "a") None 0;
             mk_dir_watch (-1) None None 0 ] 8 0 [].

Definition log_unknown_descriptor : call :=
  Printlogf LOG_ERROR
    "received an inotify event that doesnt match any watched directory :-(%d,%d)".

(** A line of the log. *)
Definition log_line (c : call) : Prop :=
  match c with
  | Printlogf _ _ => True
  | _ => False
  end.


(** ** Lines of an exclude file *)

(** A line of the exclude file: a directory pattern, which ends in a
    slash, a pattern for files, or nothing. *)
Inductive exclude_line : Type :=
| DirPattern (name : string)
| FilePattern (name : string)
| EmptyLine.

(** The bytes of a line, the newline left out. *)
Definition line_text (l : exclude_line) : string :=
  match l with
  | DirPattern name => name +:+ "/"
  | FilePattern name => name
  | EmptyLine => ""
  end.

(** The file that holds the lines [lines]. *)
Fixpoint exclude_text (lines : list exclude_line) : string :=
  match lines with
  | [] => ""
  | l :: r => line_text l +:+ String newline (exclude_text r)
  end.

(** A line that fits the buffer of [fgets] with its newline and holds
    neither a newline nor a NUL; a pattern for files is not empty and does
    not end in a slash. *)
Definition line_ok (l : exclude_line) : Prop :=
  has_char newline (line_text l) = false /\
  has_char nul (line_text l) = false /\
  (String.length (line_text l) + 1 <= PATH_MAX)%nat /\
  match l with
  | FilePattern name => name <> "" /\ last_char name <> Some slash
  | _ => True
  end.

(** The names of the directory patterns, in the order of the file; a
    line that holds only a slash names nothing. *)
Fixpoint directories (lines : list exclude_line) : list string :=
  match lines with
  | [] => []
  | DirPattern name :: r =>
      if String.eqb name "" then directories r else name :: directories r
  | _ :: r => directories r
  end.


(** ** A deep tree *)

(** [k] copies of [x], one after the other. *)
Fixpoint repeat_string (k : nat) (x : string) : string :=
  match k with
  | O => ""
  | S k' => x +:+ repeat_string k' x
  end.

(** A name of [NAME_MAX] bytes. *)
Definition deep_name : string := replicate_char 255 "a".

(** The table of the source [/tmp/src/] and of 14 directories, one inside
    the other, each with the name [deep_name]: the slot [i + 1] is the child
    of the slot [i]. *)
Definition deep_watches : list dir_watch :=
  mk_dir_watch 1 (Some "/tmp/src/") (Some "") (-1)
  :: map (fun i => mk_dir_watch (Z.of_nat i + 2) (Some deep_name) None (Z.of_nat i)) (seq 0 14).

(** A source directory of eight levels of such names: its path has 2049
    bytes. *)
Definition long_source : string := "/" +:+ repeat_string 8 (deep_name +:+ "/").

(** That table in an allocation of 16 slots, nothing done yet. *)
Definition state_deep : state := mk_state deep_watches 16 0 [].

(** The name of a directory that is moved into the innermost one, and its
    path, which has 3849 bytes. *)
Definition moved_in_name : string := replicate_char 255 "d".

Definition deep_path : string :=
  "/tmp/src//" +:+ repeat_string 14 (deep_name +:+ "/") +:+ moved_in_name.

(** A world where the directory that is moved in holds a directory [e];
    the file system holds still, [keep_going] stays set and the kernel
    grants every watch, numbering them from 100 on. *)
Definition fs_deep (p : string) : option (list dirent) :=
  if String.eqb p deep_path
  then Some [mk_dirent "." true; mk_dirent ".." true; mk_dirent "e" true]
  else Some [].

Definition env_deep : environment :=
  mk_env (fun t _ => 100 + Z.of_nat t) (fun _ p => fs_deep p)
         (fun _ => true) (fun _ => WExited 0) (fun _ => mk_read 0 0 []).

(** * Properties *)

Lemma execs_app (a b : list call) : execs (a ++ b) = execs a ++ execs b.
Proof.
  induction a as [|c a IH]; [reflexivity|].
  destruct c; simpl; rewrite IH; reflexivity.
Qed.

Lemma syncs_app (a b : list call) : syncs (a ++ b) = syncs a ++ syncs b.
Proof.
  induction a as [|c a IH]; [reflexivity|].
  destruct c; simpl; rewrite IH; reflexivity.
Qed.

Lemma rm_watches_app (a b : list call) : rm_watches (a ++ b) = rm_watches a ++ rm_watches b.
Proof.
  induction a as [|c a IH]; [reflexivity|].
  destruct c; simpl; rewrite IH; reflexivity.
Qed.

Lemma frees_app (a b : list call) : frees (a ++ b) = frees a ++ frees b.
Proof.
  induction a as [|c a IH]; [reflexivity|].
  destruct c; simpl; rewrite IH; reflexivity.
Qed.

(** ** The sync invoker *)

Lemma rsync_dryrun (cfg : config) (env : environment) (src dest : string)
    (recursive : bool) (s : state) :
  flag_dryrun cfg = true ->
  rsync cfg env src dest recursive s =
    Ret true (with_trace s (rsync_prologue cfg src dest recursive)).
Proof.
  intros Hdry. unfold rsync, rsync_prologue, rsync_args, with_trace.
  destruct s as [dws size clk tr].
  destruct (exclude_file cfg) as [f|]; rewrite ?Hdry;
    cbn; rewrite ?Hdry; cbn; rewrite <- ?app_assoc; reflexivity.
Qed.

Lemma rsync_spawned (cfg : config) (env : environment) (src dest : string)
    (recursive : bool) (s : state) :
  flag_dryrun cfg = false ->
  rsync cfg env src dest recursive s =
    match waitpid env (clock s) with
    | WExited code =>
        Ret (fst (rsync_epilogue code))
            (with_trace (ticked s)
               (rsync_spawn cfg src dest recursive ++ [snd (rsync_epilogue code)]))
    | WSignaled _ => Aborted (with_trace (ticked s) (rsync_spawn cfg src dest recursive))
    end.
Proof.
  intros Hdry. unfold rsync, rsync_spawn, rsync_prologue, rsync_args, with_trace, ticked,
    rsync_epilogue.
  destruct s as [dws size clk tr].
  destruct (exclude_file cfg) as [f|]; rewrite ?Hdry;
    cbn; rewrite ?Hdry; cbn;
    (destruct (waitpid env clk) as [code|sig]; cbn;
     [destruct (code =? LSYNCD_INTERNALFAIL); [|destruct (code =? 0)]|]; cbn;
     rewrite <- ?app_assoc; reflexivity).
Qed.

Lemma execs_map_log (A : Type) (l : list A) (c : Z) (m : string) :
  execs (map (fun _ => Printlogf c m) l) = [].
Proof. induction l; simpl; auto. Qed.

Lemma execs_map_free (l : list string) : execs (map Free l) = [].
Proof. induction l; simpl; auto. Qed.

Lemma execs_rsync_prologue cfg src dest recursive :
  execs (rsync_prologue cfg src dest recursive) = [].
Proof. unfold rsync_prologue. simpl. apply execs_map_log. Qed.

Lemma execs_rsync_spawn cfg src dest recursive :
  execs (rsync_spawn cfg src dest recursive) =
    [(rsync_binary cfg, map Some (rsync_args cfg src dest recursive) ++ [None])].
Proof.
  unfold rsync_spawn. rewrite !execs_app, execs_rsync_prologue, execs_map_free.
  reflexivity.
Qed.

Lemma execs_rsync_epilogue code : execs [snd (rsync_epilogue code)] = [].
Proof.
  unfold rsync_epilogue.
  destruct (code =? LSYNCD_INTERNALFAIL); [|destruct (code =? 0)]; reflexivity.
Qed.

(** C6.  Whatever the options, the sources and the world are, [rsync] ends,
    and the vectors it has given to [execv] grow by none in a dry run and
    otherwise by exactly one: the binary, [--delete], [-ltr] for a recursive
    call and [-ltd] for any other, the pair [--exclude-from <file>] when
    and only when an exclude file is configured, the source, the
    destination, and the closing [NULL]. *)
Theorem rsync_argument_vector (cfg : config) (env : environment)
    (src dest : string) (recursive : bool) (s : state) :
  exists s',
    final_state (rsync cfg env src dest recursive s) = Some s' /\
    execs (trace s') =
      execs (trace s) ++
      (if flag_dryrun cfg then []
       else [(rsync_binary cfg,
              [Some (rsync_binary cfg); Some "--delete";
               Some (if recursive then "-ltr" else "-ltd")]
              ++ match exclude_file cfg with
                 | Some f => [Some "--exclude-from"; Some f]
                 | None => []
                 end
              ++ [Some src; Some dest; None])]).
Proof.
  destruct (flag_dryrun cfg) eqn:Hdry.
  - rewrite rsync_dryrun by assumption. eexists; split; [reflexivity|].
    simpl. rewrite execs_app, execs_rsync_prologue. reflexivity.
  - rewrite rsync_spawned by assumption.
    assert (Hargs : map Some (rsync_args cfg src dest recursive) ++ [None] =
                    [Some (rsync_binary cfg); Some "--delete";
                     Some (if recursive then "-ltr" else "-ltd")]
                    ++ match exclude_file cfg with
                       | Some f => [Some "--exclude-from"; Some f]
                       | None => []
                       end
                    ++ [Some src; Some dest; None]).
    { unfold rsync_args. destruct (exclude_file cfg); reflexivity. }
    destruct (waitpid env (clock s)) as [code|sig]; eexists; (split; [reflexivity|]);
      cbn [trace with_trace ticked];
      rewrite !execs_app, ?execs_rsync_spawn, ?execs_rsync_epilogue, ?app_nil_r;
      rewrite Hargs; reflexivity.
Qed.

(** C2, as the code has it.  [rsync] answers with a [bool]: in a dry run
    [true], with no [execv] and no [waitpid]; otherwise [true] for the exit
    status zero and [false] for every other one, 255 included.  The status
    255 differs from the other failures in the level of the line logged
    last (error instead of normal), not in the value returned.  A child
    ended by a signal fails the [assert]. *)
Theorem rsync_exit_status (cfg : config) (env : environment)
    (src dest : string) (recursive : bool) (s : state) :
  exists s',
    if flag_dryrun cfg then
      rsync cfg env src dest recursive s = Ret true s' /\
      execs (trace s') = execs (trace s) /\ clock s' = clock s
    else
      match waitpid env (clock s) with
      | WExited code =>
          rsync cfg env src dest recursive s = Ret (code =? 0) s' /\
          is_log (severity code) (last (trace s'))
      | WSignaled _ => rsync cfg env src dest recursive s = Aborted s'
      end.
Proof.
  destruct (flag_dryrun cfg) eqn:Hdry.
  - rewrite rsync_dryrun by assumption. eexists; split; [reflexivity|].
    simpl. rewrite execs_app, execs_rsync_prologue, app_nil_r. auto.
  - rewrite rsync_spawned by assumption.
    destruct (waitpid env (clock s)) as [code|sig]; [|eexists; reflexivity].
    assert (Hret : fst (rsync_epilogue code) = (code =? 0)).
    { unfold rsync_epilogue, LSYNCD_INTERNALFAIL.
      destruct (code =? 255) eqn:E255; simpl.
      - apply Z.eqb_eq in E255. subst code. reflexivity.
      - destruct (code =? 0); reflexivity. }
    rewrite Hret. eexists; split; [reflexivity|].
    cbn [trace with_trace ticked]. rewrite app_assoc, last_snoc.
    unfold rsync_epilogue, severity, LSYNCD_INTERNALFAIL.
    destruct (code =? 255); [|destruct (code =? 0)]; reflexivity.
Qed.

(** C2 as stated asks for three results, the one of status 255 distinct
    from the one of the other failures; the two runs return the same value. *)
Lemma rsync_fatal_is_not_distinct :
  returned (rsync cfg_plain (env_exit 255) "/tmp/src/" "host::module/" false initial_state)
  = returned (rsync cfg_plain (env_exit 1) "/tmp/src/" "host::module/" false initial_state)
  /\ spec_sync_result 255 <> spec_sync_result 1.
Proof. split; [reflexivity|discriminate]. Qed.

(** ** The master loop *)

(** C8, as the code has it.  While [keep_going] is set, a [read] that
    returns zero ends the loop with [false], and so does every negative
    result, whatever [errno] is: [master_loop] never looks at [errno], so an
    interrupted [read] ends the loop in the same way.  The table is left as
    it was. *)
Theorem master_loop_read_failure (cfg : config) (env : environment)
    (depth fuel : nat) (s : state) :
  keep_going_at env (clock s) = true ->
  rd_len (read_inotf env (S (clock s))) <= 0 ->
  exists s',
    master_loop cfg env depth (S fuel) s = Ret false s' /\
    dir_watches s' = dir_watches s.
Proof.
  intros Hkg Hlen. destruct s as [dws size clk tr]. simpl in *.
  unfold bind, ask. simpl. rewrite Hkg. simpl.
  destruct (rd_len (read_inotf env (S clk)) <? 0) eqn:Hneg.
  - eexists. split; reflexivity.
  - assert (Hz : (rd_len (read_inotf env (S clk)) =? 0) = true) by lia.
    rewrite Hz. eexists. split; reflexivity.
Qed.

Lemma master_loop_read_failure_witness :
  exists s',
    master_loop cfg_plain env_interrupted 1 (S 0) initial_state = Ret false s' /\
    dir_watches s' = dir_watches initial_state.
Proof.
  apply (master_loop_read_failure cfg_plain env_interrupted 1 0 initial_state).
  - reflexivity.
  - vm_compute. discriminate.
Defined.

(** C8 as stated lets an interrupted [read] pass; the loop ends with [false]. *)
Lemma master_loop_interrupted_read_fails :
  rd_errno (read_inotf env_interrupted 1) = EINTR /\
  returned (master_loop cfg_plain env_interrupted 1 3 initial_state) = Some false.
Proof. split; reflexivity. Qed.

(** ** Removal of a child that is not there *)

Lemma find_child_none (dws : list dir_watch) (name : string) (par : Z) :
  (forall i n, dws !! i = Some n -> 0 <= wd n -> parent n = par -> dirname n <> Some name) ->
  find_child dws name par = None.
Proof.
  induction dws as [|n r IH]; intros H; [reflexivity|].
  simpl. destruct (is_child_named name par n) eqn:E.
  - unfold is_child_named in E.
    apply andb_prop in E as [E Hname]. apply andb_prop in E as [Hwd Hpar].
    apply bool_decide_eq_true in Hname.
    exfalso. apply (H O n); [reflexivity|lia|lia|assumption].
  - rewrite IH; [reflexivity|].
    intros i m Hm. apply (H (S i) m). exact Hm.
Qed.

(** C10.  When no live slot whose parent is [par] carries the name,
    [remove_dirwatch] returns [false]; the table and its size are as before,
    and neither [inotify_rm_watch] nor [free] has been called. *)
Theorem remove_dirwatch_unknown_child (fuel : nat) (name : string) (par : Z) (s : state) :
  is_Some (slot (dir_watches s) par) ->
  (forall i n, dir_watches s !! i = Some n ->
               0 <= wd n -> parent n = par -> dirname n <> Some name) ->
  exists s',
    remove_dirwatch (S fuel) (Some name) par s = Ret false s' /\
    dir_watches s' = dir_watches s /\
    dir_watch_size s' = dir_watch_size s /\
    rm_watches (trace s') = rm_watches (trace s) /\
    frees (trace s') = frees (trace s).
Proof.
  intros [n Hn] Hnone. simpl. unfold bind, get_watches.
  rewrite (find_child_none _ _ _ Hnone). simpl. rewrite Hn.
  eexists. split; [reflexivity|]. simpl.
  rewrite rm_watches_app, frees_app. simpl. rewrite !app_nil_r. auto.
Qed.

Lemma remove_dirwatch_unknown_child_witness :
  exists s',
    remove_dirwatch (S 0) (Some "b") 0 (mk_state two_watches 4 0 []) = Ret false s' /\
    dir_watches s' = two_watches /\
    dir_watch_size s' = 4 /\
    rm_watches (trace s') = [] /\
    frees (trace s') = [].
Proof.
  apply (remove_dirwatch_unknown_child 0 "b" 0 (mk_state two_watches 4 0 [])).
  - eexists. reflexivity.
  - intros i n Hi _ _. simpl in Hi.
    destruct i as [|[|i]]; simpl in Hi; [| |discriminate];
      injection Hi as <-; simpl; discriminate.
Defined.

(** ** Insertion into the table *)

Lemma find_unused_le (dws : list dir_watch) : (find_unused dws <= length dws)%nat.
Proof.
  induction dws as [|n r IH]; simpl; [lia|].
  destruct (wd n <? 0); lia.
Qed.

Lemma find_unused_below (dws : list dir_watch) (i : nat) (n : dir_watch) :
  dws !! i = Some n -> (i < find_unused dws)%nat -> 0 <= wd n.
Proof.
  revert i. induction dws as [|m r IH]; intros i Hi Hlt; [discriminate|].
  simpl in Hlt. destruct (wd m <? 0) eqn:E; [lia|].
  destruct i as [|i]; simpl in Hi.
  - injection Hi as <-. lia.
  - apply (IH i); [assumption|lia].
Qed.

Lemma find_unused_found (dws : list dir_watch) (n : dir_watch) :
  dws !! find_unused dws = Some n -> wd n < 0.
Proof.
  induction dws as [|m r IH]; simpl; [discriminate|].
  destruct (wd m <? 0) eqn:E; simpl.
  - intros [= <-]. lia.
  - exact IH.
Qed.

(** C3, as the code has it.  When the kernel hands out a descriptor,
    [add_watch] stores the node and returns its index [newdw]: every slot
    below [newdw] is in use; [newdw] is an unused slot, which is
    overwritten while the size stays, or, when no slot is unused, the end of
    the table, which grows by one slot, the allocated size doubling when
    [dir_watch_num + 1 >= dir_watch_size]; every other slot keeps its index
    and its content.  The descriptors already in the table are not looked
    at: a descriptor that a live node holds is stored a second time. *)
Theorem add_watch_insertion (env : environment) (pathname dname : string)
    (destn : option string) (par : Z) (s : state) :
  inotify_add_watch env (clock s) pathname <> -1 ->
  let dws := dir_watches s in
  let node := mk_dir_watch (inotify_add_watch env (clock s) pathname) (Some dname) destn par in
  exists (newdw : nat) (s' : state),
    add_watch env pathname dname destn par s = Ret (Z.of_nat newdw) s' /\
    (forall i n, dws !! i = Some n -> (i < newdw)%nat -> 0 <= wd n) /\
    match dws !! newdw with
    | Some n =>
        wd n < 0 /\
        dir_watches s' = <[newdw := node]> dws /\
        dir_watch_size s' = dir_watch_size s
    | None =>
        newdw = length dws /\
        dir_watches s' = dws ++ [node] /\
        dir_watch_size s' =
          if dir_watch_size s <=? Z.of_nat (length dws) + 1
          then dir_watch_size s * 2 else dir_watch_size s
    end /\
    dir_watches s' !! newdw = Some node /\
    (forall i, i <> newdw -> (i < length dws)%nat -> dir_watches s' !! i = dws !! i).
Proof.
  intros Hwd dws node. exists (find_unused dws).
  unfold add_watch, bind, ask, emit. simpl.
  apply Z.eqb_neq in Hwd. rewrite Hwd. simpl. fold dws. fold node.
  pose proof (find_unused_le dws) as Hle.
  destruct (Nat.eqb_spec (find_unused dws) (length dws)) as [Heq|Hne].
  - eexists. split; [reflexivity|]. simpl.
    split; [intros i n; apply find_unused_below|].
    rewrite Heq, (lookup_ge_None_2 dws (length dws)) by lia.
    split; [auto|]. split.
    + rewrite lookup_app_r by lia. rewrite Nat.sub_diag. reflexivity.
    + intros i _ Hi. apply lookup_app_l. exact Hi.
  - eexists. split; [reflexivity|]. simpl.
    split; [intros i n; apply find_unused_below|].
    destruct (lookup_lt_is_Some_2 dws (find_unused dws)) as [n Hn]; [lia|].
    rewrite Hn. split; [split; [exact (find_unused_found _ _ Hn)|auto]|].
    split.
    + apply list_lookup_insert_eq. lia.
    + intros i Hi _. apply list_lookup_insert_ne. congruence.
Qed.

Lemma add_watch_insertion_witness :
  let s := mk_state two_watches 4 0 [] in
  let node := mk_dir_watch 2 (Some "b") None 0 in
  exists (newdw : nat) (s' : state),
    add_watch env_same_wd "/tmp/src//b" "b" None 0 s = Ret (Z.of_nat newdw) s' /\
    (forall i n, two_watches !! i = Some n -> (i < newdw)%nat -> 0 <= wd n) /\
    match two_watches !! newdw with
    | Some n =>
        wd n < 0 /\
        dir_watches s' = <[newdw := node]> two_watches /\
        dir_watch_size s' = 4
    | None =>
        newdw = length two_watches /\
        dir_watches s' = two_watches ++ [node] /\
        dir_watch_size s' = if 4 <=? Z.of_nat (length two_watches) + 1 then 4 * 2 else 4
    end /\
    dir_watches s' !! newdw = Some node /\
    (forall i, i <> newdw -> (i < length two_watches)%nat ->
               dir_watches s' !! i = two_watches !! i).
Proof.
  apply (add_watch_insertion env_same_wd "/tmp/src//b" "b" None 0
           (mk_state two_watches 4 0 [])).
  simpl. discriminate.
Defined.

(** C3 as stated makes the insertion fail when a live node holds the
    descriptor; slot 1 holds the descriptor 2, the kernel hands out 2 again,
    and the insertion succeeds with a second live node for it. *)
Lemma add_watch_accepts_duplicate :
  exists s',
    add_watch env_same_wd "/tmp/src//b" "b" None 0 (mk_state two_watches 4 0 []) = Ret 2 s' /\
    wd <$> dir_watches s' !! 1%nat = Some 2 /\
    wd <$> dir_watches s' !! 2%nat = Some 2.
Proof. eexists. split; [reflexivity|]. split; reflexivity. Qed.

(** ** Strings *)

Lemma length_append (a b : string) :
  String.length (a +:+ b) = (String.length a + String.length b)%nat.
Proof. induction a as [|c a IH]; simpl; [reflexivity|]. rewrite IH. reflexivity. Qed.

Lemma append_assoc (a b c : string) : (a +:+ b) +:+ c = a +:+ (b +:+ c).
Proof. induction a as [|x a IH]; simpl; [reflexivity|]. rewrite IH. reflexivity. Qed.

Lemma append_empty_r (a : string) : a +:+ "" = a.
Proof. induction a as [|x a IH]; simpl; [reflexivity|]. rewrite IH. reflexivity. Qed.

Lemma last_char_snoc (a : string) (c : ascii) :
  last_char (a +:+ String c EmptyString) = Some c.
Proof.
  induction a as [|x a IH]; simpl; [reflexivity|].
  destruct (a +:+ String c EmptyString) eqn:E; [destruct a; discriminate|exact IH].
Qed.

Lemma drop_last_snoc (a : string) (c : ascii) :
  drop_last (a +:+ String c EmptyString) = a.
Proof.
  induction a as [|x a IH]; simpl; [reflexivity|].
  destruct (a +:+ String c EmptyString) eqn:E; [destruct a; discriminate|].
  rewrite IH. reflexivity.
Qed.

(** ** The exclude file *)

Lemma fgets_chars_line (n : nat) (l rest : string) :
  has_char newline l = false ->
  (String.length l + 2 <= n)%nat ->
  fgets_chars n (l +:+ String slash (String newline rest))
  = (l +:+ String slash (String newline EmptyString), rest).
Proof.
  revert n. induction l as [|c l IH]; intros n Hnl Hlen; simpl in *.
  - destruct n as [|[|n]]; [lia|lia|]. reflexivity.
  - apply orb_false_elim in Hnl as [Hc Hl].
    destruct n as [|n]; [lia|]. simpl. rewrite Hc.
    rewrite IH by (assumption || lia). reflexivity.
Qed.

Lemma c_string_plain (l tail : string) :
  has_char nul l = false -> c_string (l +:+ tail) = l +:+ c_string tail.
Proof.
  induction l as [|c l IH]; simpl; [reflexivity|].
  intros H. apply orb_false_elim in H as [Hc Hl].
  rewrite Hc, IH by assumption. reflexivity.
Qed.

Lemma parse_exclude_loop_lines (lines : list string) :
  forall (fuel : nat) (dirs : list string),
    Forall (fun l => plain_name l = true) lines ->
    (length lines < fuel)%nat ->
    (length dirs < MAX_EXCLUDES)%nat ->
    parse_exclude_loop fuel (exclude_file_of lines) dirs =
      if (length dirs + length lines <? MAX_EXCLUDES)%nat
      then Parsed (dirs ++ lines)
      else ParseExit LSYNCD_TOOMANYDIRECTORYEXCLUDES.
Proof.
  induction lines as [|l r IH]; intros fuel dirs Hgood Hfuel Hdirs.
  - destruct fuel; [simpl in Hfuel; lia|]. simpl.
    rewrite Nat.add_0_r, app_nil_r.
    apply Nat.ltb_lt in Hdirs. unfold MAX_EXCLUDES in *. rewrite Hdirs. reflexivity.
  - destruct fuel as [|fuel]; [simpl in Hfuel; lia|].
    apply Forall_cons in Hgood as [Hl Hr].
    unfold plain_name in Hl.
    apply andb_prop in Hl as [Hl Hlen]. apply andb_prop in Hl as [Hl Hnul].
    apply andb_prop in Hl as [Hne Hnl].
    apply negb_true_iff in Hne, Hnl, Hnul. apply Nat.leb_le in Hlen.
    apply String.eqb_neq in Hne.
    cbn [parse_exclude_loop exclude_file_of].
    unfold fgets.
    destruct (l +:+ String slash (String newline (exclude_file_of r))) eqn:Hin;
      [destruct l; discriminate|]. rewrite <- Hin. clear Hin.
    rewrite fgets_chars_line by (assumption || (unfold PATH_MAX in *; simpl; lia)).
    rewrite c_string_plain by assumption. cbn [c_string Ascii.eqb].
    change (if Ascii.eqb slash nul then EmptyString
            else String slash (if Ascii.eqb newline nul then EmptyString
                               else String newline EmptyString))
      with (String slash (String newline EmptyString)).
    assert (Hsnoc : l +:+ String slash (String newline EmptyString)
                    = (l +:+ String slash EmptyString) +:+ String newline EmptyString)
      by (rewrite append_assoc; reflexivity).
    rewrite Hsnoc.
    assert (Hlen1 : (String.length ((l +:+ String slash EmptyString)
                                     +:+ String newline EmptyString) =? 0)%nat = false).
    { apply Nat.eqb_neq. rewrite !length_append. simpl. lia. }
    rewrite Hlen1, last_char_snoc, bool_decide_eq_true_2 by reflexivity.
    rewrite drop_last_snoc.
    assert (Hlen2 : (String.length (l +:+ String slash EmptyString) =? 0)%nat = false).
    { apply Nat.eqb_neq. rewrite length_append. simpl. lia. }
    rewrite Hlen2, last_char_snoc, bool_decide_eq_true_2 by reflexivity.
    rewrite drop_last_snoc.
    destruct (MAX_EXCLUDES <=? length dirs + 1)%nat eqn:Hfull.
    + apply Nat.leb_le in Hfull.
      assert (Hno : (length dirs + length (l :: r) <? MAX_EXCLUDES)%nat = false)
        by (apply Nat.ltb_ge; simpl; lia).
      rewrite Hno. reflexivity.
    + apply Nat.leb_gt in Hfull.
      assert (Hlen3 : (String.length l =? 0)%nat = false).
      { apply Nat.eqb_neq. destruct l; [congruence|simpl; lia]. }
      rewrite Hlen3, IH; [|assumption|simpl in Hfuel; lia|rewrite length_app; simpl; lia].
      rewrite length_app. simpl.
      replace (length dirs + 1 + length r)%nat with (length dirs + S (length r))%nat by lia.
      rewrite <- app_assoc. reflexivity.
Qed.

Lemma exclude_file_of_length (lines : list string) :
  (length lines <= String.length (exclude_file_of lines))%nat.
Proof.
  induction lines as [|l r IH]; simpl; [lia|].
  rewrite length_append. simpl. lia.
Qed.

(** The cap of the exclude table, as the code has it: a file of plain
    directory lines is taken while it has at most 255 of them; the 256th
    directory line ends the process with the exit code 5. *)
Theorem parse_exclude_file_cap (lines : list string) :
  Forall (fun l => plain_name l = true) lines ->
  parse_exclude_file (Some (exclude_file_of lines)) [] =
    if (length lines <? 256)%nat then Parsed lines else ParseExit 5.
Proof.
  intros Hgood. unfold parse_exclude_file.
  rewrite parse_exclude_loop_lines; [reflexivity|assumption| |unfold MAX_EXCLUDES; simpl; lia].
  pose proof (exclude_file_of_length lines). lia.
Qed.

Lemma parse_exclude_file_cap_witness :
  parse_exclude_file (Some (exclude_file_of ["Data"; "tmp"])) [] =
    if (length ["Data"; "tmp"] <? 256)%nat then Parsed ["Data"; "tmp"] else ParseExit 5.
Proof.
  apply (parse_exclude_file_cap ["Data"; "tmp"]).
  repeat constructor.
Defined.

(** C7 at the failing input: the file of 256 lines [a/].  The table
    [exclude_dirs] has room for 256 names and the message of the error
    promises as many, yet the 256th line is refused; 255 lines pass. *)
Theorem parse_exclude_file_256th_pattern :
  parse_exclude_file (Some (exclude_file_of (repeat "a" 255))) [] = Parsed (repeat "a" 255) /\
  parse_exclude_file (Some (exclude_file_of (repeat "a" 256))) [] =
    ParseExit LSYNCD_TOOMANYDIRECTORYEXCLUDES.
Proof. split; vm_compute; reflexivity. Qed.

(** ** The path builder *)

Section Buildpath.
Variables (dws : list dir_watch) (pathsize : nat).

Lemma parent_stack_mono (fuel : nat) (p : Z) (k : nat) :
  parent_stack fuel dws p = Some k -> parent_stack (S fuel) dws p = Some k.
Proof.
  revert p k. induction fuel as [|f IH]; intros p k H.
  - simpl in *. destruct (p =? -1); [assumption|discriminate].
  - cbn [parent_stack] in H. change (parent_stack (S (S f)) dws p) with
      (if p =? -1 then Some O
       else match slot dws p with
            | None => None
            | Some n => S <$> parent_stack (S f) dws (parent n)
            end).
    destruct (p =? -1); [assumption|].
    destruct (slot dws p) as [n|]; [|discriminate].
    destruct (parent_stack f dws (parent n)) as [k'|] eqn:E; [|discriminate].
    rewrite (IH _ _ E). exact H.
Qed.

Lemma buildpath_loop_parent (wp : bool) (i : Z) (n : dir_watch) :
  slot dws i = Some n ->
  forall (j : nat) (buf : pathbuf),
    buildpath_loop dws pathsize i wp (S j) buf =
      match buildpath_loop dws pathsize (parent n) wp j buf with
      | BpRet true b => append_segment pathsize wp n b
      | r => r
      end.
Proof.
  intros Hi. induction j as [|j IH]; intros buf.
  - cbn [buildpath_loop go_back]. rewrite Hi. unfold append_segment, segment.
    destruct (if wp then destname n else None); [|destruct (dirname n)];
      try reflexivity;
      match goal with |- context [(?a <=? ?b)%nat] => destruct (a <=? b)%nat end;
      reflexivity.
  - change (buildpath_loop dws pathsize i wp (S (S j)) buf) with
      (match go_back dws i (S j) with
       | None => BpUndef
       | Some p =>
           match slot dws p with
           | None => BpUndef
           | Some m =>
               match segment wp m with
               | None => BpUndef
               | Some tmp =>
                   if (pathsize <=? String.length (pb_text buf) + String.length tmp + 2)%nat
                   then BpRet false buf
                   else buildpath_loop dws pathsize i wp (S j) (strcat (strcat buf tmp) "/")
               end
           end
       end).
    change (buildpath_loop dws pathsize (parent n) wp (S j) buf) with
      (match go_back dws (parent n) j with
       | None => BpUndef
       | Some p =>
           match slot dws p with
           | None => BpUndef
           | Some m =>
               match segment wp m with
               | None => BpUndef
               | Some tmp =>
                   if (pathsize <=? String.length (pb_text buf) + String.length tmp + 2)%nat
                   then BpRet false buf
                   else buildpath_loop dws pathsize (parent n) wp j
                          (strcat (strcat buf tmp) "/")
               end
           end
       end).
    cbn [go_back]. rewrite Hi.
    destruct (go_back dws (parent n) j) as [p|]; [|reflexivity].
    destruct (slot dws p) as [m|]; [|reflexivity].
    destruct (segment wp m) as [tmp|]; [|reflexivity].
    destruct (pathsize <=? String.length (pb_text buf) + String.length tmp + 2)%nat;
      [reflexivity|].
    apply IH.
Qed.

Lemma strcat_text (buf : pathbuf) (x : string) : pb_text (strcat buf x) = pb_text buf +:+ x.
Proof. reflexivity. Qed.

Lemma append_segment_ok (wp : bool) (n : dir_watch) (b buf : pathbuf) :
  append_segment pathsize wp n b = BpRet true buf ->
  exists name,
    segment wp n = Some name /\
    pb_text buf = pb_text b +:+ name +:+ "/" /\
    (String.length (pb_text buf) + 2 <= pathsize)%nat /\
    pb_written buf = Nat.max (pb_written b) (S (String.length (pb_text buf))).
Proof.
  unfold append_segment. destruct (segment wp n) as [name|]; [|discriminate].
  destruct (pathsize <=? _)%nat eqn:E; [discriminate|].
  intros [= <-]. apply Nat.leb_gt in E. exists name.
  split; [reflexivity|]. rewrite !strcat_text, append_assoc.
  split; [reflexivity|]. rewrite !length_append in *. simpl.
  split; [lia|]. unfold strcat. simpl. rewrite !length_append. simpl. lia.
Qed.

(** What a successful run of the loop leaves in the buffer. *)
Lemma buildpath_loop_ok (wp : bool) (fuel : nat) :
  forall (p : Z) (ps : nat) (buf buf' : pathbuf),
    parent_stack fuel dws p = Some ps ->
    buildpath_loop dws pathsize p wp ps buf = BpRet true buf' ->
    exists names,
      joined dws fuel wp p = Some names /\
      pb_text buf' = pb_text buf +:+ names /\
      (ps <> O -> String.length (pb_text buf') + 2 <= pathsize)%nat /\
      (pb_written buf' <= Nat.max (pb_written buf) (pathsize - 1))%nat.
Proof.
  induction fuel as [|f IH]; intros p ps buf buf' Hps Hloop.
  - simpl in *. destruct (p =? -1); [|discriminate].
    injection Hps as <-. simpl in Hloop. injection Hloop as <-.
    exists "". rewrite append_empty_r. repeat split; [congruence|lia].
  - cbn [parent_stack joined] in *. destruct (p =? -1).
    + injection Hps as <-. simpl in Hloop. injection Hloop as <-.
      exists "". rewrite append_empty_r. repeat split; [congruence|lia].
    + destruct (slot dws p) as [n|] eqn:Hn; [|discriminate].
      destruct (parent_stack f dws (parent n)) as [ps'|] eqn:Hps'; [|discriminate].
      injection Hps as <-.
      rewrite (buildpath_loop_parent wp p n Hn) in Hloop.
      destruct (buildpath_loop dws pathsize (parent n) wp ps' buf) as [| |[|] b] eqn:Hup;
        try discriminate.
      destruct (IH _ _ _ _ Hps' Hup) as (up & Hjoin & Htext & _ & Hwr).
      destruct (append_segment_ok _ _ _ _ Hloop) as (name & Hseg & Htext' & Hlen & Hwr').
      rewrite Hjoin, Hseg. eexists. split; [reflexivity|].
      split; [rewrite Htext', Htext, !append_assoc; reflexivity|].
      split; [intros _; exact Hlen|]. lia.
Qed.

(** When the path of a node can be built, so can the path of its parent. *)
Lemma buildpath_loop_up (wp : bool) (i : Z) (n : dir_watch) (j : nat) (buf buf' : pathbuf) :
  slot dws i = Some n ->
  buildpath_loop dws pathsize i wp (S j) buf = BpRet true buf' ->
  exists b, buildpath_loop dws pathsize (parent n) wp j buf = BpRet true b.
Proof.
  intros Hi H. rewrite (buildpath_loop_parent wp i n Hi) in H.
  destruct (buildpath_loop dws pathsize (parent n) wp j buf) as [| |[|] b];
    try discriminate.
  exists b. reflexivity.
Qed.

Lemma buildpath_buf_up (i : Z) (n : dir_watch) (prefix : option string) (buf : pathbuf) :
  slot dws i = Some n ->
  buildpath_buf dws pathsize i None prefix = BpRet true buf ->
  exists b, buildpath_buf dws pathsize (parent n) None prefix = BpRet true b.
Proof.
  intros Hi. unfold buildpath_buf.
  destruct (bool_decide (prefix = Some "%wwwuser")); [discriminate|].
  destruct (parent_stack (length dws) dws i) as [ps|] eqn:Hps; [|discriminate].
  assert (Hup : exists ps', ps = S ps' /\
                  parent_stack (length dws) dws (parent n) = Some ps').
  { destruct (length dws) as [|f] eqn:Hlen.
    - unfold slot in Hi. destruct (i <? 0); [discriminate|].
      destruct dws; [discriminate|discriminate].
    - cbn [parent_stack] in Hps.
      destruct (i =? -1) eqn:Ei.
      + apply Z.eqb_eq in Ei. subst i. discriminate.
      + rewrite Hi in Hps.
        destruct (parent_stack f dws (parent n)) as [ps'|] eqn:E; [|discriminate].
        injection Hps as <-. exists ps'. split; [reflexivity|].
        apply parent_stack_mono. exact E. }
  destruct Hup as (ps' & -> & Hps'). rewrite Hps'.
  destruct (buildpath_loop dws pathsize i _ (S ps') _) as [| |[|] b'] eqn:Hloop;
    try discriminate.
  intros _.
  destruct (buildpath_loop_up _ _ _ _ _ _ Hi Hloop) as [b Hb].
  rewrite Hb. exists b. reflexivity.
Qed.
End Buildpath.

Section BuildpathBounds.
Variables (dws : list dir_watch) (pathsize : nat).

(** The loop writes no further than [pathsize - 1] bytes, and never takes
    back what was written. *)
Lemma buildpath_loop_written (watch : Z) (wp : bool) (j : nat) :
  forall (buf buf' : pathbuf) (ok : bool),
    buildpath_loop dws pathsize watch wp j buf = BpRet ok buf' ->
    (pb_written buf <= pb_written buf' <= Nat.max (pb_written buf) (pathsize - 1))%nat.
Proof.
  induction j as [|j IH]; intros buf buf' ok H.
  - simpl in H. injection H as _ <-. lia.
  - cbn [buildpath_loop] in H.
    destruct (go_back dws watch j) as [p|]; [|discriminate].
    destruct (slot dws p) as [n|]; [|discriminate].
    fold (segment wp n) in H.
    destruct (segment wp n) as [tmp|]; [|discriminate].
    destruct (pathsize <=? _)%nat eqn:E.
    + injection H as _ <-. lia.
    + apply Nat.leb_gt in E. apply IH in H.
      unfold strcat in H. simpl in H. rewrite !length_append in H. simpl in H. lia.
Qed.

Lemma buildpath_buf_written (watch : Z) (dname prefix : option string)
    (ok : bool) (buf : pathbuf) :
  buildpath_buf dws pathsize watch dname prefix = BpRet ok buf ->
  let start := S (String.length (default "" prefix)) in
  (start <= pb_written buf <= Nat.max start (pathsize - 1))%nat.
Proof.
  unfold buildpath_buf.
  destruct (bool_decide (prefix = Some "%wwwuser")); [discriminate|].
  destruct (parent_stack (length dws) dws watch) as [ps|]; [|discriminate].
  set (buf0 := match prefix with Some pre => strcat pb_empty pre | None => pb_empty end).
  assert (H0 : pb_written buf0 = S (String.length (default "" prefix))).
  { destruct prefix as [pre|]; [|reflexivity]. unfold buf0, strcat. simpl. lia. }
  destruct (buildpath_loop dws pathsize watch _ ps buf0) as [| |ok' b] eqn:Hloop;
    try discriminate.
  apply buildpath_loop_written in Hloop. rewrite H0 in Hloop.
  destruct ok'; [|intros [= _ <-]; simpl; lia].
  destruct dname as [d|]; [|intros [= _ <-]; simpl; lia].
  destruct (pathsize <=? _)%nat eqn:E; intros [= _ <-]; simpl; [lia|].
  apply Nat.leb_gt in E. rewrite length_append. lia.
Qed.
End BuildpathBounds.

(** The prefix of a destination path fits the buffer: nothing is written
    past the end of it. *)
Lemma buildpath_buf_in_bounds (dws : list dir_watch) (pathsize : nat) (watch : Z)
    (dname prefix : option string) (ok : bool) (buf : pathbuf) :
  (String.length (default "" prefix) < pathsize)%nat ->
  buildpath_buf dws pathsize watch dname prefix = BpRet ok buf ->
  (pb_written buf <= pathsize)%nat.
Proof.
  intros Hfit H. apply buildpath_buf_written in H. simpl in H. lia.
Qed.

(** What [buildpath] leaves in the buffer when it returns [true]: the
    prefix, the names of the nodes from the root down to [watch], each
    followed by a slash, taking [destname] where a prefix is given and the
    node has one, and the last name if one is given.  The whole then fits
    in [pathsize - 2] bytes when [watch] is a node. *)
Lemma buildpath_buf_text (dws : list dir_watch) (pathsize : nat) (watch : Z)
    (dname prefix : option string) (buf : pathbuf) :
  buildpath_buf dws pathsize watch dname prefix = BpRet true buf ->
  exists names,
    joined dws (length dws) (bool_decide (prefix <> None)) watch = Some names /\
    pb_text buf = default "" prefix +:+ names +:+ default "" dname /\
    (watch <> -1 -> (String.length (pb_text buf) + 2 <= pathsize)%nat).
Proof.
  unfold buildpath_buf.
  destruct (bool_decide (prefix = Some "%wwwuser")); [discriminate|].
  destruct (parent_stack (length dws) dws watch) as [ps|] eqn:Hps; [|discriminate].
  set (buf0 := match prefix with Some pre => strcat pb_empty pre | None => pb_empty end).
  assert (H0 : pb_text buf0 = default "" prefix) by (destruct prefix; reflexivity).
  destruct (buildpath_loop dws pathsize watch _ ps buf0) as [| |[|] b] eqn:Hloop;
    try discriminate.
  intros H.
  destruct (buildpath_loop_ok _ _ _ _ _ _ _ _ Hps Hloop) as (names & Hj & Htext & Hlen & _).
  assert (Hps0 : watch <> -1 -> ps <> O).
  { intros Hw Hz. subst ps. clear Hloop. destruct (length dws); simpl in Hps;
      (destruct (Z.eqb_spec watch (-1)); [contradiction|]); [discriminate|].
    destruct (slot dws watch); [|discriminate].
    destruct (parent_stack _ _ _); discriminate. }
  exists names. split; [exact Hj|]. rewrite H0 in Htext.
  destruct dname as [d|].
  - destruct (pathsize <=? _)%nat eqn:E; [discriminate|].
    injection H as <-. apply Nat.leb_gt in E.
    rewrite strcat_text, Htext, append_assoc. split; [reflexivity|].
    intros _. rewrite <- append_assoc, <- Htext, length_append. lia.
  - injection H as <-. simpl. rewrite append_empty_r.
    split; [exact Htext|]. intros Hw. apply Hlen. auto.
Qed.

(** C5 where the code fails it.  [buildpath] copies the prefix into the
    buffer before any length is looked at: with a prefix of [pathsize]
    bytes or more, whatever the node is, the bytes written reach beyond the
    [pathsize] bytes of the buffer, whether [buildpath] then returns [false]
    or not. *)
Theorem buildpath_prefix_overflow (dws : list dir_watch) (pathsize : nat) (watch : Z)
    (dname : option string) (prefix : string) (ok : bool) (buf : pathbuf) :
  (pathsize <= String.length prefix)%nat ->
  buildpath_buf dws pathsize watch dname (Some prefix) = BpRet ok buf ->
  (pathsize < pb_written buf)%nat.
Proof.
  intros Hlong H. apply buildpath_buf_written in H. simpl in H. lia.
Qed.

(** The failing input: the node [a] of [two_watches], the buffer of
    [handle_event], and a target of 4097 bytes. *)
Lemma buildpath_prefix_overflow_witness :
  exists buf,
    buildpath_buf two_watches (S PATH_MAX) 1 None (Some (replicate_char 4097 "a"))
    = BpRet false buf /\
    (S PATH_MAX < pb_written buf)%nat.
Proof.
  eexists. split.
  - vm_compute. reflexivity.
  - apply (buildpath_prefix_overflow two_watches (S PATH_MAX) 1 None
             (replicate_char 4097 "a") false).
    + vm_compute. lia.
    + vm_compute. reflexivity.
Defined.

(** ** The dispatcher *)

Lemma syncs_map_log (A : Type) (l : list A) (c : Z) (m : string) :
  syncs (map (fun _ => Printlogf c m) l) = [].
Proof. induction l; simpl; auto. Qed.

Lemma syncs_map_free (l : list string) : syncs (map Free l) = [].
Proof. induction l; simpl; auto. Qed.

Lemma syncs_rsync_spawn cfg src dest recursive :
  syncs (rsync_spawn cfg src dest recursive) = [(src, dest, recursive)].
Proof.
  unfold rsync_spawn. rewrite !syncs_app, syncs_map_free.
  unfold rsync_prologue. cbn [syncs]. rewrite syncs_map_log. reflexivity.
Qed.

Lemma syncs_rsync_epilogue code : syncs [snd (rsync_epilogue code)] = [].
Proof.
  unfold rsync_epilogue.
  destruct (code =? LSYNCD_INTERNALFAIL); [|destruct (code =? 0)]; reflexivity.
Qed.

(** [rsync] returns or fails its [assert]; it leaves the table alone and
    adds one sync to the trace. *)
Lemma rsync_effect (cfg : config) (env : environment) (src dest : string)
    (recursive : bool) (s : state) :
  exists (s' : state),
    ((exists b, rsync cfg env src dest recursive s = Ret b s') \/
     rsync cfg env src dest recursive s = Aborted s') /\
    dir_watches s' = dir_watches s /\
    dir_watch_size s' = dir_watch_size s /\
    syncs (trace s') = syncs (trace s) ++ [(src, dest, recursive)].
Proof.
  destruct (flag_dryrun cfg) eqn:Hdry.
  - rewrite rsync_dryrun by assumption. eexists. split; [left; eexists; reflexivity|].
    cbn [dir_watches dir_watch_size trace with_trace].
    rewrite syncs_app. unfold rsync_prologue. simpl. rewrite syncs_map_log. auto.
  - rewrite rsync_spawned by assumption.
    destruct (waitpid env (clock s)) as [code|sig]; eexists;
      (split; [first [left; eexists; reflexivity | right; reflexivity]|]);
      cbn [dir_watches dir_watch_size trace with_trace ticked];
      rewrite !syncs_app, ?syncs_rsync_spawn, ?syncs_rsync_epilogue, ?app_nil_r; auto.
Qed.

Lemma buildpath_run (pathsize : nat) (watch : Z) (dname prefix : option string) (s : state) :
  buildpath pathsize watch dname prefix s =
    match buildpath_buf (dir_watches s) pathsize watch dname prefix with
    | BpUndef => Undef
    | BpAssert => Aborted s
    | BpRet true buf => Ret (true, buf) s
    | BpRet false buf => Ret (false, buf) (with_trace s [Printlogf LOG_ERROR "path too long"])
    end.
Proof.
  unfold buildpath, bind, get_watches.
  destruct (buildpath_buf (dir_watches s) pathsize watch dname prefix) as [| |[|] buf];
    reflexivity.
Qed.

Lemma build_masktext_fits (tbl : list (Z * string)) (mask : Z) :
  forall masktext,
    (String.length masktext + texts_length tbl + 1 < 255)%nat ->
    exists t, build_masktext tbl mask masktext = Some t.
Proof.
  induction tbl as [|[m text] r IH]; intros masktext Hlen;
    cbn [build_masktext texts_length] in *.
  - eexists; reflexivity.
  - destruct (has_bits mask m); [|apply IH; lia].
    destruct (Nat.leb_spec 255 (String.length masktext + String.length text + 3)) as [E|E];
      [lia|].
    apply IH. destruct (String.eqb masktext ""); rewrite !length_append; simpl; lia.
Qed.

(** The guard of line 714 never fires: the thirteen names and their
    separators take 129 bytes. *)
Lemma build_masktext_total (mask : Z) : exists t, build_masktext mask_texts mask "" = Some t.
Proof. apply build_masktext_fits. vm_compute. lia. Qed.

(** The part of [handle_event] that syncs, for a node whose two paths can
    be built. *)
Lemma handle_event_sync_escalation (cfg : config) (env : environment)
    (event : inotify_event) (i : Z) (s1 : state) (n : dir_watch) (pathname destname : pathbuf) :
  has_bits sync_mask (ev_mask event) = true ->
  slot (dir_watches s1) i = Some n ->
  buildpath_buf (dir_watches s1) (S PATH_MAX) i None None = BpRet true pathname ->
  buildpath_buf (dir_watches s1) (S PATH_MAX) i None (Some (option_target cfg))
    = BpRet true destname ->
  forall (synced : bool) (s2 : state),
    rsync cfg env (pb_text pathname) (pb_text destname) false (with_trace s1 [log_sync])
      = Ret synced s2 ->
    syncs (trace s2) = syncs (trace s1) ++ [(pb_text pathname, pb_text destname, false)] /\
    if synced || (parent n =? -1) then
      handle_event_sync cfg env event i s1 = Ret false s2
    else
      exists ppath pdest s3,
        buildpath_buf (dir_watches s1) (S PATH_MAX) (parent n) None None = BpRet true ppath /\
        buildpath_buf (dir_watches s1) (S PATH_MAX) (parent n) None (Some (option_target cfg))
          = BpRet true pdest /\
        final_state (rsync cfg env (pb_text ppath) (pb_text pdest) true
                       (with_trace s2 [log_retry])) = Some s3 /\
        syncs (trace s3) =
          syncs (trace s1) ++ [(pb_text pathname, pb_text destname, false);
                               (pb_text ppath, pb_text pdest, true)] /\
        handle_event_sync cfg env event i s1 =
          match rsync cfg env (pb_text ppath) (pb_text pdest) true (with_trace s2 [log_retry]) with
          | Ret true _ => Ret false s3
          | Ret false _ => Exit LSYNCD_EXECRSYNCFAIL (with_trace s3 [log_retry_failed])
          | _ => Aborted s3
          end.
Proof.
  intros Hmask Hn Hpath Hdest synced s2 Hfirst.
  destruct (rsync_effect cfg env (pb_text pathname) (pb_text destname) false
              (with_trace s1 [log_sync])) as (s2' & Hres & Hdws & _ & Hsyncs).
  assert (s2' = s2) as ->.
  { destruct Hres as [[b Hb]|Hb]; rewrite Hb in Hfirst; congruence. }
  clear Hres. cbn [dir_watches trace with_trace] in Hdws, Hsyncs.
  rewrite syncs_app in Hsyncs. simpl in Hsyncs. rewrite app_nil_r in Hsyncs.
  split; [exact Hsyncs|].
  assert (Hrun :
    handle_event_sync cfg env event i s1 =
      if synced then Ret false s2
      else if parent n =? -1 then Ret false s2
      else
        match buildpath (S PATH_MAX) (parent n) None None s2 with
        | Ret (_, pathname') sa =>
            match buildpath (S PATH_MAX) (parent n) None (Some (option_target cfg)) sa with
            | Ret (_, destname') sb =>
                match rsync cfg env (pb_text pathname') (pb_text destname') true
                        (with_trace sb [log_retry]) with
                | Ret true sc => Ret false sc
                | Ret false sc => Exit LSYNCD_EXECRSYNCFAIL (with_trace sc [log_retry_failed])
                | Exit c sc => Exit c sc
                | Aborted sc => Aborted sc
                | Undef => Undef
                end
            | Exit c sb => Exit c sb
            | Aborted sb => Aborted sb
            | Undef => Undef
            end
        | Exit c sa => Exit c sa
        | Aborted sa => Aborted sa
        | Undef => Undef
        end).
  { unfold handle_event_sync. unfold bind at 1. rewrite buildpath_run, Hpath.
    cbn [negb]. unfold bind at 1. rewrite buildpath_run, Hdest. cbn [negb].
    rewrite Hmask. unfold bind at 1. unfold printlogf at 1, emit at 1.
    unfold bind at 1. fold log_sync.
    change (mk_state (dir_watches s1) (dir_watch_size s1) (clock s1) (trace s1 ++ [log_sync]))
      with (with_trace s1 [log_sync]).
    rewrite Hfirst. destruct synced; [reflexivity|].
    unfold bind at 1, get_watches at 1. rewrite Hdws, Hn.
    destruct (parent n =? -1); [reflexivity|].
    unfold bind at 1.
    destruct (buildpath (S PATH_MAX) (parent n) None None s2) as [[ok1 p1] sa| | |];
      try reflexivity.
    unfold bind at 1.
    destruct (buildpath (S PATH_MAX) (parent n) None (Some (option_target cfg)) sa)
      as [[ok2 p2] sb| | |]; try reflexivity.
    unfold bind at 1, printlogf at 1, emit at 1. unfold bind at 1. fold log_retry.
    change (mk_state (dir_watches sb) (dir_watch_size sb) (clock sb) (trace sb ++ [log_retry]))
      with (with_trace sb [log_retry]).
    destruct (rsync cfg env (pb_text p1) (pb_text p2) true (with_trace sb [log_retry]))
      as [[|] sc| | |]; reflexivity. }
  rewrite Hrun. clear Hrun.
  destruct synced; [reflexivity|]. cbn [orb].
  destruct (parent n =? -1) eqn:Hpar; [reflexivity|].
  destruct (buildpath_buf_up _ _ _ _ _ _ Hn Hpath) as [ppath Hpp].
  destruct (buildpath_buf_up _ _ _ _ _ _ Hn Hdest) as [pdest Hpd].
  rewrite buildpath_run, Hdws, Hpp, buildpath_run, Hdws, Hpd.
  destruct (rsync_effect cfg env (pb_text ppath) (pb_text pdest) true
              (with_trace s2 [log_retry])) as (s3 & Hres & _ & _ & Hsyncs3).
  exists ppath, pdest, s3. split; [reflexivity|]. split; [reflexivity|].
  cbn [trace with_trace] in Hsyncs3. rewrite syncs_app in Hsyncs3. simpl in Hsyncs3.
  rewrite app_nil_r, Hsyncs, <- app_assoc in Hsyncs3. simpl in Hsyncs3.
  destruct Hres as [[b Hb]|Hb]; rewrite Hb; cbn [final_state];
    (split; [reflexivity|]); (split; [exact Hsyncs3|]); [destruct b|]; reflexivity.
Qed.

(** Only [rsync] asks for a sync: the functions that keep the table do not. *)
Lemma quiet_ret {A : Type} (a : A) : quiet (ret a).
Proof. intros s s' [= <-]. reflexivity. Qed.

Lemma quiet_bind {A B : Type} (m : M A) (k : A -> M B) :
  quiet m -> (forall a, quiet (k a)) -> quiet (bind m k).
Proof.
  intros Hm Hk s s' H. unfold bind in H.
  destruct (m s) as [a s1|c s1|s1|] eqn:E.
  - rewrite (Hk a s1 s' H). apply Hm. rewrite E. reflexivity.
  - apply Hm. rewrite E. exact H.
  - apply Hm. rewrite E. exact H.
  - discriminate.
Qed.

Lemma quiet_emit (c : call) : no_sync c -> quiet (emit c).
Proof.
  intros Hc s s' [= <-]. cbn [trace]. rewrite syncs_app.
  destruct c; try contradiction; simpl; apply app_nil_r.
Qed.

Lemma quiet_printlogf (level : Z) (fmt : string) : quiet (printlogf level fmt).
Proof. apply quiet_emit. exact I. Qed.

Lemma quiet_ask {A : Type} (q : nat -> A) : quiet (ask q).
Proof. intros s s' [= <-]. reflexivity. Qed.

Lemma quiet_get_watches : quiet get_watches.
Proof. intros s s' [= <-]. reflexivity. Qed.

Lemma quiet_undefined {A : Type} : quiet (@undefined A).
Proof. intros s s' H. discriminate. Qed.

Lemma quiet_for_each {A : Type} (l : list A) (body : A -> M unit) :
  (forall x, quiet (body x)) -> quiet (for_each l body).
Proof.
  intros Hb. induction l as [|x l IH]; cbn [for_each]; [apply quiet_ret|].
  apply quiet_bind; [apply Hb|intros _; exact IH].
Qed.

Lemma quiet_readdir_loop (env : environment) (entries : list dirent) (body : dirent -> M unit) :
  (forall de, quiet (body de)) -> quiet (readdir_loop env entries body).
Proof.
  intros Hb. induction entries as [|de entries IH]; cbn [readdir_loop];
    (apply quiet_bind; [apply quiet_ask|]); intros kg;
    (destruct (negb kg); [apply quiet_ret|]); [apply quiet_ret|].
  apply quiet_bind; [apply Hb|intros _; exact IH].
Qed.

Lemma quiet_buildpath (pathsize : nat) (watch : Z) (dname prefix : option string) :
  quiet (buildpath pathsize watch dname prefix).
Proof.
  unfold buildpath. apply quiet_bind; [apply quiet_get_watches|]. intros dws.
  destruct (buildpath_buf dws pathsize watch dname prefix) as [| |[|] buf].
  - apply quiet_undefined.
  - intros s s' [= <-]. reflexivity.
  - apply quiet_ret.
  - apply quiet_bind; [apply quiet_printlogf|intros _; apply quiet_ret].
Qed.

Lemma quiet_add_watch (env : environment) (pathname dname : string) (destn : option string)
    (par : Z) : quiet (add_watch env pathname dname destn par).
Proof.
  unfold add_watch. apply quiet_bind; [apply quiet_ask|]. intros w.
  apply quiet_bind; [apply quiet_emit; exact I|]. intros _.
  destruct (w =? -1).
  - apply quiet_bind; [apply quiet_printlogf|intros _; apply quiet_ret].
  - intros s s'. destruct (find_unused (dir_watches s) =? length (dir_watches s))%nat;
      intros [= <-]; reflexivity.
Qed.

Lemma quiet_add_dirwatch (cfg : config) (env : environment) (fuel : nat) :
  forall dname destn recursive par, quiet (add_dirwatch cfg env fuel dname destn recursive par).
Proof.
  induction fuel as [|f IH]; intros dname destn recursive par; cbn [add_dirwatch];
    [apply quiet_undefined|].
  apply quiet_bind; [apply quiet_printlogf|]. intros _.
  apply quiet_bind; [apply quiet_buildpath|]. intros [ok pathname].
  destruct (negb ok); [apply quiet_ret|].
  destruct (excluded cfg dname); [apply quiet_ret|].
  apply quiet_bind; [apply quiet_add_watch|]. intros dw.
  destruct (dw =? -1); [apply quiet_ret|].
  destruct (S PATH_MAX <? _)%nat;
    [apply quiet_bind; [apply quiet_printlogf|intros _; apply quiet_ret]|].
  apply quiet_bind; [apply quiet_ask|]. intros [entries|];
    [|apply quiet_bind; [apply quiet_printlogf|intros _; apply quiet_ret]].
  apply quiet_bind; [|intros _; apply quiet_ret].
  apply quiet_readdir_loop. intros de.
  destruct (d_is_dir de && _ && _); [|apply quiet_ret].
  apply quiet_bind; [apply IH|intros _; apply quiet_ret].
Qed.

Lemma quiet_release (dw : Z) : quiet (release dw).
Proof.
  unfold release. apply quiet_bind; [apply quiet_get_watches|]. intros dws.
  destruct (slot dws dw) as [n|]; [|apply quiet_undefined].
  apply quiet_bind; [apply quiet_emit; exact I|]. intros _.
  apply quiet_bind;
    [destruct (dirname n); [apply quiet_emit; exact I|apply quiet_ret]|]. intros _.
  apply quiet_bind;
    [destruct (destname n); [apply quiet_emit; exact I|apply quiet_ret]|]. intros _.
  intros s s' [= <-]. reflexivity.
Qed.

Lemma quiet_remove_dirwatch (fuel : nat) :
  forall name par, quiet (remove_dirwatch fuel name par).
Proof.
  induction fuel as [|f IH]; intros name par; cbn [remove_dirwatch];
    [apply quiet_undefined|].
  apply quiet_bind; [apply quiet_get_watches|]. intros dws0.
  destruct (match name with
            | Some nm => Z.of_nat <$> find_child dws0 nm par
            | None => Some par
            end) as [dw|].
  - apply quiet_bind.
    + apply quiet_for_each. intros i.
      apply quiet_bind; [apply quiet_get_watches|]. intros dws.
      destruct (dws !! i) as [n|]; [|apply quiet_ret].
      destruct (is_child_of dw n); [|apply quiet_ret].
      apply quiet_bind; [apply IH|intros _; apply quiet_ret].
    + intros _. apply quiet_bind; [apply quiet_release|intros _; apply quiet_ret].
  - destruct (slot dws0 par); [|apply quiet_undefined].
    apply quiet_bind; [apply quiet_printlogf|intros _; apply quiet_ret].
Qed.

Lemma quiet_handle_event_dirs (cfg : config) (env : environment) (fuel : nat)
    (event : inotify_event) (i : Z) : quiet (handle_event_dirs cfg env fuel event i).
Proof.
  unfold handle_event_dirs. apply quiet_bind.
  - destruct (_ && _); [|apply quiet_ret].
    apply quiet_bind; [apply quiet_add_dirwatch|intros _; apply quiet_ret].
  - intros _. destruct (_ && _); [|apply quiet_ret].
    apply quiet_bind; [apply quiet_remove_dirwatch|intros _; apply quiet_ret].
Qed.

(** An event that is neither ignored nor excluded and whose descriptor is
    in the table goes through the update of the table and then to the
    sync. *)
Lemma handle_event_dispatch (cfg : config) (env : environment) (fuel : nat)
    (event : inotify_event) (s s1 : state) :
  has_bits IN_IGNORED (ev_mask event) = false ->
  excluded cfg (ev_name event) = false ->
  get_dirwatch_offset (dir_watches s) (ev_wd event) <> -1 ->
  handle_event_dirs cfg env fuel event (get_dirwatch_offset (dir_watches s) (ev_wd event))
    (with_trace s [log_event]) = Ret tt s1 ->
  handle_event cfg env fuel event s =
    handle_event_sync cfg env event (get_dirwatch_offset (dir_watches s) (ev_wd event)) s1.
Proof.
  intros Hign Hexc Hi Hdirs. unfold handle_event.
  destruct (build_masktext_total (ev_mask event)) as [t ->].
  unfold bind at 1, printlogf at 1, emit at 1. rewrite Hign, Hexc.
  unfold bind at 1, get_watches at 1. cbn [dir_watches].
  apply Z.eqb_neq in Hi. rewrite Hi.
  unfold bind at 1. fold log_event.
  change (mk_state (dir_watches s) (dir_watch_size s) (clock s) (trace s ++ [log_event]))
    with (with_trace s [log_event]).
  rewrite Hdirs. reflexivity.
Qed.

(** C1.  Take an event that is neither ignored nor excluded, whose
    descriptor resolves to the node [n] at index [i], whose mask meets
    CREATE, CLOSE_WRITE, DELETE, MOVED_TO or MOVED_FROM, and for which both
    paths of [n] can be built once the table has followed the event (state
    [s1]).  [handle_event] then asks for the non-recursive sync of that
    pair of paths, its first sync, and when this sync returns ([synced],
    state [s2]):
    - if it succeeded or [n] has no parent, [handle_event] returns and that
      sync is the only one issued;
    - otherwise both paths of the parent are built by [buildpath] (which
      succeeds), exactly one more sync is issued, recursive and on that
      pair, and [handle_event] returns if it succeeds and exits with code 3
      if it returns [false]. *)
Theorem handle_event_escalation (cfg : config) (env : environment) (fuel : nat)
    (event : inotify_event) (s s1 : state) (n : dir_watch) (pathname destname : pathbuf)
    (synced : bool) (s2 : state) :
  let i := get_dirwatch_offset (dir_watches s) (ev_wd event) in
  has_bits IN_IGNORED (ev_mask event) = false ->
  excluded cfg (ev_name event) = false ->
  i <> -1 ->
  handle_event_dirs cfg env fuel event i (with_trace s [log_event]) = Ret tt s1 ->
  has_bits sync_mask (ev_mask event) = true ->
  slot (dir_watches s1) i = Some n ->
  buildpath_buf (dir_watches s1) (S PATH_MAX) i None None = BpRet true pathname ->
  buildpath_buf (dir_watches s1) (S PATH_MAX) i None (Some (option_target cfg))
    = BpRet true destname ->
  rsync cfg env (pb_text pathname) (pb_text destname) false (with_trace s1 [log_sync])
    = Ret synced s2 ->
  syncs (trace s2) = syncs (trace s) ++ [(pb_text pathname, pb_text destname, false)] /\
  if synced || (parent n =? -1) then
    handle_event cfg env fuel event s = Ret false s2
  else
    exists ppath pdest s3,
      buildpath_buf (dir_watches s1) (S PATH_MAX) (parent n) None None = BpRet true ppath /\
      buildpath_buf (dir_watches s1) (S PATH_MAX) (parent n) None (Some (option_target cfg))
        = BpRet true pdest /\
      final_state (rsync cfg env (pb_text ppath) (pb_text pdest) true
                     (with_trace s2 [log_retry])) = Some s3 /\
      syncs (trace s3) =
        syncs (trace s) ++ [(pb_text pathname, pb_text destname, false);
                            (pb_text ppath, pb_text pdest, true)] /\
      handle_event cfg env fuel event s =
        match rsync cfg env (pb_text ppath) (pb_text pdest) true (with_trace s2 [log_retry]) with
        | Ret true _ => Ret false s3
        | Ret false _ => Exit LSYNCD_EXECRSYNCFAIL (with_trace s3 [log_retry_failed])
        | _ => Aborted s3
        end.
Proof.
  intros i Hign Hexc Hi Hdirs Hmask Hn Hpath Hdest Hfirst.
  rewrite (handle_event_dispatch cfg env fuel event s s1 Hign Hexc Hi Hdirs).
  fold i.
  assert (Hquiet : syncs (trace s1) = syncs (trace s)).
  { rewrite (quiet_handle_event_dirs cfg env fuel event i (with_trace s [log_event]) s1)
      by (rewrite Hdirs; reflexivity).
    cbn [trace with_trace]. rewrite syncs_app. apply app_nil_r. }
  rewrite <- Hquiet.
  exact (handle_event_sync_escalation cfg env event i s1 n pathname destname
           Hmask Hn Hpath Hdest synced s2 Hfirst).
Qed.

Lemma handle_event_escalation_witness :
  exit_code (handle_event cfg_plain (env_exit 1) 1 event_write_in_a state_two_watches)
    = Some LSYNCD_EXECRSYNCFAIL /\
  (syncs <$> (trace <$> final_state
     (handle_event cfg_plain (env_exit 1) 1 event_write_in_a state_two_watches)))
    = Some [("/tmp/src//a/", "host::module//a/", false);
            ("/tmp/src//", "host::module//", true)].
Proof.
  destruct (handle_event_escalation cfg_plain (env_exit 1) 1 event_write_in_a
              state_two_watches (with_trace state_two_watches [log_event])
              (mk_dir_watch 2 (Some "a") None 0)
              (mk_pathbuf "/tmp/src//a/" 13) (mk_pathbuf "host::module//a/" 17)
              false state_after_failed_sync)
    as [_ (ppath & pdest & s3 & Hpp & Hpd & Hfin & Hsyncs & Hrun)];
    try (vm_compute; reflexivity).
  - vm_compute. discriminate.
  - rewrite Hrun. vm_compute in Hpp, Hpd. injection Hpp as <-. injection Hpd as <-.
    vm_compute in Hfin. injection Hfin as <-. vm_compute. split; reflexivity.
Defined.

(** ** Removal of a subtree *)

Lemma is_child_at_lt (dws : list dir_watch) (dw i : nat) :
  is_child_at dws dw i = true -> (i < length dws)%nat.
Proof.
  unfold is_child_at. destruct (dws !! i) eqn:E; [|discriminate].
  intros _. apply lookup_lt_Some in E. exact E.
Qed.

Lemma is_child_at_parent (dws : list dir_watch) (p p' i : nat) :
  is_child_at dws p i = true -> is_child_at dws p' i = true -> p = p'.
Proof.
  unfold is_child_at, is_child_of. destruct (dws !! i); [|discriminate].
  intros H1 H2. apply andb_prop in H1 as [_ H1]. apply andb_prop in H2 as [_ H2]. lia.
Qed.

Lemma elem_of_children (dws : list dir_watch) (dw i : nat) :
  i ∈ children dws dw <-> is_child_at dws dw i = true.
Proof.
  unfold children. rewrite list_elem_of_filter, elem_of_seq. split.
  - intros [H _]. exact H.
  - intros H. split; [exact H|]. apply is_child_at_lt in H. lia.
Qed.

Lemma NoDup_children (dws : list dir_watch) (dw : nat) : NoDup (children dws dw).
Proof. apply NoDup_filter, NoDup_seq. Qed.

Section Subtree.
Variable dws : list dir_watch.
Variable ht : nat -> nat.
Hypothesis ranked : forall p i, is_child_at dws p i = true -> (ht i < ht p)%nat.

Lemma in_subtree_ht (dw i : nat) : in_subtree dws dw i -> (ht i <= ht dw)%nat.
Proof.
  induction 1 as [|p i _ IH Hc]; [lia|]. apply ranked in Hc. lia.
Qed.

Lemma in_subtree_trans (a b i : nat) :
  in_subtree dws a b -> in_subtree dws b i -> in_subtree dws a i.
Proof.
  intros Hab. induction 1 as [|p i _ IH Hc]; [exact Hab|].
  exact (in_subtree_child dws a p i IH Hc).
Qed.

(** Two subtrees that share a node lie one inside the other. *)
Lemma in_subtree_chain (a b i : nat) :
  in_subtree dws a i -> in_subtree dws b i -> in_subtree dws a b \/ in_subtree dws b a.
Proof.
  induction 1 as [|p i Hap IH Hc]; intros Hb.
  - right. exact Hb.
  - inversion Hb as [|p' i' Hbp Hc']; subst.
    + left. exact (in_subtree_child dws a p i Hap Hc).
    + rewrite <- (is_child_at_parent dws p p' i Hc Hc') in Hbp. exact (IH Hbp).
Qed.

Lemma child_not_above (dw c : nat) :
  is_child_at dws dw c = true -> ~ in_subtree dws c dw.
Proof.
  intros Hc Hin. apply in_subtree_ht in Hin. apply ranked in Hc. lia.
Qed.

Lemma siblings_disjoint (dw c1 c2 x : nat) :
  is_child_at dws dw c1 = true -> is_child_at dws dw c2 = true ->
  in_subtree dws c1 x -> in_subtree dws c2 x -> c1 = c2.
Proof.
  intros H1 H2 Hx1 Hx2.
  assert (Hside : forall a b, is_child_at dws dw a = true -> is_child_at dws dw b = true ->
                              in_subtree dws a b -> a = b).
  { intros a b Ha Hb Hab. inversion Hab as [|p i Hap Hc]; subst; [reflexivity|].
    rewrite <- (is_child_at_parent dws dw p b Hb Hc) in Hap.
    exfalso. exact (child_not_above dw a Ha Hap). }
  destruct (in_subtree_chain c1 c2 x Hx1 Hx2) as [H|H].
  - exact (Hside c1 c2 H1 H2 H).
  - symmetry. exact (Hside c2 c1 H2 H1 H).
Qed.

Lemma postorder_sound (fuel : nat) :
  forall dw i, i ∈ postorder fuel dws dw -> in_subtree dws dw i.
Proof.
  induction fuel as [|f IH]; intros dw i Hi; simpl in Hi.
  - apply elem_of_nil in Hi. contradiction.
  - apply elem_of_app in Hi as [Hi|Hi].
    + apply list_elem_of_bind in Hi as (c & Hic & Hc).
      apply elem_of_children in Hc.
      apply in_subtree_trans with c; [|exact (IH c i Hic)].
      exact (in_subtree_child dws dw dw c (in_subtree_root dws dw) Hc).
    + apply list_elem_of_singleton in Hi. subst i. constructor.
Qed.

Lemma postorder_self (fuel : nat) (dw : nat) :
  (ht dw < fuel)%nat -> dw ∈ postorder fuel dws dw.
Proof.
  destruct fuel as [|f]; [lia|]. intros _. simpl.
  apply elem_of_app. right. apply list_elem_of_singleton. reflexivity.
Qed.

Lemma postorder_step (fuel : nat) :
  forall dw p i,
    (ht dw < fuel)%nat -> p ∈ postorder fuel dws dw -> is_child_at dws p i = true ->
    i ∈ postorder fuel dws dw.
Proof.
  induction fuel as [|f IH]; intros dw p i Hf Hp Hc; [lia|].
  simpl in *. apply elem_of_app. left. apply list_elem_of_bind.
  apply elem_of_app in Hp as [Hp|Hp].
  - apply list_elem_of_bind in Hp as (c & Hpc & Hcc).
    exists c. split; [|exact Hcc].
    apply (IH c p i); [|exact Hpc|exact Hc].
    apply elem_of_children, ranked in Hcc. lia.
  - apply list_elem_of_singleton in Hp. subst p.
    exists i. split; [|apply elem_of_children; exact Hc].
    apply postorder_self. apply ranked in Hc. lia.
Qed.

Lemma postorder_complete (fuel : nat) (dw i : nat) :
  (ht dw < fuel)%nat -> in_subtree dws dw i -> i ∈ postorder fuel dws dw.
Proof.
  intros Hf. induction 1 as [|p i _ IH Hc].
  - apply postorder_self. exact Hf.
  - exact (postorder_step fuel dw p i Hf IH Hc).
Qed.

Lemma NoDup_postorder (fuel : nat) : forall dw, NoDup (postorder fuel dws dw).
Proof.
  induction fuel as [|f IH]; intros dw; simpl; [constructor|].
  apply NoDup_app. split; [|split].
  - apply NoDup_bind; [|intros; apply IH|apply NoDup_children].
    intros c1 c2 x Hc1 Hc2 Hx1 Hx2.
    apply elem_of_children in Hc1, Hc2.
    apply postorder_sound in Hx1, Hx2.
    exact (siblings_disjoint dw c1 c2 x Hc1 Hc2 Hx1 Hx2).
  - intros x Hx Hdw. apply list_elem_of_singleton in Hdw. subst x.
    apply list_elem_of_bind in Hx as (c & Hx & Hc).
    apply elem_of_children in Hc. apply postorder_sound in Hx.
    exact (child_not_above dw c Hc Hx).
  - apply NoDup_singleton.
Qed.

(** In the walk a child comes before its parent. *)
Lemma postorder_bottom_up (fuel : nat) :
  forall dw c p,
    (ht dw < fuel)%nat -> p ∈ postorder fuel dws dw -> is_child_at dws p c = true ->
    before (postorder fuel dws dw) c p.
Proof.
  induction fuel as [|f IH]; intros dw c p Hf Hp Hc; [lia|].
  simpl in *. apply elem_of_app in Hp as [Hp|Hp].
  - apply list_elem_of_bind in Hp as (x & Hpx & Hx).
    assert (Hfx : (ht x < f)%nat) by (apply elem_of_children, ranked in Hx; lia).
    destruct (IH x c p Hfx Hpx Hc) as (l1 & l2 & l3 & Hord).
    apply list_elem_of_split in Hx as (k1 & k2 & Hk).
    rewrite Hk, bind_app, bind_cons, Hord.
    exists ((k1 ≫= postorder f dws) ++ l1), l2, (l3 ++ (k2 ≫= postorder f dws) ++ [dw]).
    rewrite <- !app_assoc. simpl. rewrite <- !app_assoc. reflexivity.
  - apply list_elem_of_singleton in Hp. subst p.
    assert (Hin : c ∈ children dws dw ≫= postorder f dws).
    { apply list_elem_of_bind. exists c. split; [|apply elem_of_children; exact Hc].
      apply postorder_self. apply ranked in Hc. lia. }
    apply list_elem_of_split in Hin as (l1 & l2 & ->).
    exists l1, l2, []. rewrite <- app_assoc. reflexivity.
Qed.
End Subtree.

Lemma length_kill (order : list nat) (dws : list dir_watch) :
  length (kill order dws) = length dws.
Proof. unfold kill. apply length_imap. Qed.

Lemma kill_lookup (order : list nat) (dws : list dir_watch) (i : nat) :
  kill order dws !! i =
    (fun n => if bool_decide (i ∈ order) then tombstone n else n) <$> dws !! i.
Proof. unfold kill. apply list_lookup_imap. Qed.

Lemma kill_lookup_in (order : list nat) (dws : list dir_watch) (i : nat) :
  i ∈ order -> kill order dws !! i = tombstone <$> dws !! i.
Proof. intros Hi. rewrite kill_lookup, bool_decide_eq_true_2 by exact Hi. reflexivity. Qed.

Lemma kill_lookup_out (order : list nat) (dws : list dir_watch) (i : nat) :
  i ∉ order -> kill order dws !! i = dws !! i.
Proof.
  intros Hi. rewrite kill_lookup, bool_decide_eq_false_2 by exact Hi.
  destruct (dws !! i); reflexivity.
Qed.

Lemma kill_nil (dws : list dir_watch) : kill [] dws = dws.
Proof.
  apply list_eq. intros i. apply kill_lookup_out. apply not_elem_of_nil.
Qed.

Lemma is_child_of_tombstone (dw : Z) (n : dir_watch) : is_child_of dw (tombstone n) = false.
Proof. reflexivity. Qed.

(** Giving up one more slot of a table that has given up [order]. *)
Lemma kill_snoc (order : list nat) (dws : list dir_watch) (dw : nat) (n : dir_watch) :
  kill order dws !! dw = Some n ->
  <[dw := tombstone n]> (kill order dws) = kill (order ++ [dw]) dws.
Proof.
  intros Hn. apply list_eq. intros i.
  destruct (decide (i = dw)) as [->|Hne].
  - rewrite list_lookup_insert_eq by (apply lookup_lt_Some in Hn; exact Hn).
    rewrite kill_lookup_in by (apply elem_of_app; right; apply list_elem_of_singleton; reflexivity).
    rewrite kill_lookup in Hn. destruct (dws !! dw) as [m|]; [|discriminate].
    simpl in *. injection Hn as <-. destruct (bool_decide (dw ∈ order)); reflexivity.
  - rewrite list_lookup_insert_ne by congruence.
    rewrite !kill_lookup. destruct (dws !! i) as [m|]; [|reflexivity]. simpl.
    destruct (decide (i ∈ order)) as [Hin|Hout].
    + rewrite !bool_decide_eq_true_2; [reflexivity| |exact Hin].
      apply elem_of_app. left. exact Hin.
    + rewrite !bool_decide_eq_false_2; [reflexivity| |exact Hout].
      intros H. apply elem_of_app in H as [H|H]; [contradiction|].
      apply list_elem_of_singleton in H. contradiction.
Qed.

Lemma removal_calls_app (dws : list dir_watch) (a b : list nat) :
  removal_calls dws (a ++ b) = removal_calls dws a ++ removal_calls dws b.
Proof. unfold removal_calls. apply bind_app. Qed.

Lemma removal_calls_one (dws : list dir_watch) (dw : nat) (n : dir_watch) :
  dws !! dw = Some n -> removal_calls dws [dw] = release_calls n.
Proof. intros H. unfold removal_calls. rewrite bind_singleton, H. reflexivity. Qed.

Lemma remove_dirwatch_unfold (f : nat) (dw : Z) (s : state) :
  remove_dirwatch (S f) None dw s =
    match for_each (seq 0 (length (dir_watches s))) (remove_children_body f dw) s with
    | Ret _ s1 =>
        match release dw s1 with
        | Ret _ s2 => Ret true s2
        | Exit c s2 => Exit c s2
        | Aborted s2 => Aborted s2
        | Undef => Undef
        end
    | Exit c s1 => Exit c s1
    | Aborted s1 => Aborted s1
    | Undef => Undef
    end.
Proof. reflexivity. Qed.

Lemma release_run (dw : nat) (n : dir_watch) (s : state) :
  dir_watches s !! dw = Some n ->
  release (Z.of_nat dw) s =
    Ret tt (mk_state (<[dw := tombstone n]> (dir_watches s)) (dir_watch_size s) (clock s)
                     (trace s ++ release_calls n)).
Proof.
  intros Hn. unfold release, bind, get_watches, slot.
  assert (Hneg : (Z.of_nat dw <? 0) = false) by (apply Z.ltb_ge; lia).
  rewrite Hneg, Nat2Z.id, Hn. unfold release_calls, emit, ret, tombstone.
  destruct (dirname n), (destname n); simpl; rewrite <- ?app_assoc; reflexivity.
Qed.

Section RemoveLoop.
Variable reg0 : list dir_watch.
Variable ht : nat -> nat.
Hypothesis ranked : forall p i, is_child_at reg0 p i = true -> (ht i < ht p)%nat.
Variable f : nat.
Variable dw : nat.

(** What the calls one level down do, for the children of [dw]. *)
Hypothesis below :
  forall (c : nat) (done : list nat) (s : state),
    is_child_at reg0 dw c = true ->
    dir_watches s = kill done reg0 ->
    (forall x, x ∈ done -> ~ in_subtree reg0 c x) ->
    remove_dirwatch f None (Z.of_nat c) s =
      Ret true (mk_state (kill (done ++ postorder f reg0 c) reg0) (dir_watch_size s) (clock s)
                         (trace s ++ removal_calls reg0 (postorder f reg0 c))).

Lemma remove_children_loop (l : list nat) :
  forall (done : list nat) (s : state),
    NoDup l ->
    dir_watches s = kill done reg0 ->
    (forall x c, x ∈ done -> c ∈ l -> is_child_at reg0 dw c = true -> ~ in_subtree reg0 c x) ->
    let removed := filter (fun i => is_child_at reg0 dw i = true) l ≫= postorder f reg0 in
    for_each l (remove_children_body f (Z.of_nat dw)) s =
      Ret tt (mk_state (kill (done ++ removed) reg0) (dir_watch_size s) (clock s)
                       (trace s ++ removal_calls reg0 removed)).
Proof.
  induction l as [|c l IH]; intros done s Hnd Hs Hdone; cbn zeta.
  - simpl. unfold ret. rewrite !app_nil_r, <- Hs. destruct s; reflexivity.
  - apply NoDup_cons in Hnd as [Hcl Hnd].
    cbn [for_each]. unfold bind at 1.
    assert (Hskip : is_child_at reg0 dw c = false ->
                    remove_children_body f (Z.of_nat dw) c s = Ret tt s).
    { intros Hno. unfold remove_children_body, bind, get_watches. rewrite Hs, kill_lookup.
      unfold is_child_at in Hno. destruct (reg0 !! c) as [n|]; [|reflexivity]. simpl.
      destruct (bool_decide (c ∈ done)); [rewrite is_child_of_tombstone|rewrite Hno];
        reflexivity. }
    destruct (is_child_at reg0 dw c) eqn:Hc.
    + assert (Hout : c ∉ done).
      { intros Hin. apply (Hdone c c Hin); [left|exact Hc|constructor]. }
      assert (Hbody : remove_children_body f (Z.of_nat dw) c s =
                match remove_dirwatch f None (Z.of_nat c) s with
                | Ret _ s1 => Ret tt s1
                | Exit e s1 => Exit e s1
                | Aborted s1 => Aborted s1
                | Undef => Undef
                end).
      { unfold remove_children_body, bind at 1, get_watches. rewrite Hs, kill_lookup_out by exact Hout.
        unfold is_child_at in Hc. destruct (reg0 !! c) as [n|]; [|discriminate].
        rewrite Hc. reflexivity. }
      rewrite Hbody, (below c done s Hc Hs).
      2:{ intros x Hx. apply (Hdone x c Hx); [left|exact Hc]. }
      rewrite (IH (done ++ postorder f reg0 c)); [|exact Hnd|reflexivity|].
      * rewrite filter_cons_True by exact Hc. rewrite bind_cons.
        cbn [dir_watch_size clock trace].
        rewrite removal_calls_app, <- !app_assoc. reflexivity.
      * intros x c' Hx Hc' Hch Hin.
        apply elem_of_app in Hx as [Hx|Hx].
        -- apply (Hdone x c' Hx); [right; exact Hc'|exact Hch|exact Hin].
        -- apply (postorder_sound reg0) in Hx.
           assert (c = c') by exact (siblings_disjoint reg0 ht ranked dw c c' x Hc Hch Hx Hin).
           subst c'. contradiction.
    + rewrite (Hskip eq_refl). rewrite (IH done); [|exact Hnd|exact Hs|].
      * rewrite filter_cons_False by (rewrite Hc; discriminate). reflexivity.
      * intros x c' Hx Hc'. apply (Hdone x c' Hx). right. exact Hc'.
Qed.
End RemoveLoop.

Section RemoveSubtree.
Variable reg0 : list dir_watch.
Variable ht : nat -> nat.
Hypothesis ranked : forall p i, is_child_at reg0 p i = true -> (ht i < ht p)%nat.

(** With enough fuel, [remove_dirwatch (NULL, dw)], whose loops read the
    table while it changes, gives up the slots of the post-order walk of
    the table as it was, in that order. *)
Lemma remove_dirwatch_postorder (fuel : nat) :
  forall (dw : nat) (done : list nat) (s : state),
    (dw < length reg0)%nat ->
    (ht dw < fuel)%nat ->
    dir_watches s = kill done reg0 ->
    (forall x, x ∈ done -> ~ in_subtree reg0 dw x) ->
    remove_dirwatch fuel None (Z.of_nat dw) s =
      Ret true (mk_state (kill (done ++ postorder fuel reg0 dw) reg0) (dir_watch_size s) (clock s)
                         (trace s ++ removal_calls reg0 (postorder fuel reg0 dw))).
Proof.
  induction fuel as [|f IH]; intros dw done s Hdw Hf Hs Hdone; [lia|].
  rewrite remove_dirwatch_unfold, Hs, length_kill.
  rewrite (remove_children_loop reg0 ht ranked f dw) with (done := done).
  - cbn zeta. fold (children reg0 dw).
    set (B := children reg0 dw ≫= postorder f reg0).
    destruct (lookup_lt_is_Some_2 reg0 dw Hdw) as [n Hn].
    assert (Hout : dw ∉ done ++ B).
    { intros Hin. apply elem_of_app in Hin as [Hin|Hin].
      - apply (Hdone dw Hin). constructor.
      - apply list_elem_of_bind in Hin as (c & Hin & Hc).
        apply elem_of_children in Hc. apply postorder_sound in Hin.
        exact (child_not_above reg0 ht ranked dw c Hc Hin). }
    assert (Hcur : kill (done ++ B) reg0 !! dw = Some n)
      by (rewrite kill_lookup_out by exact Hout; exact Hn).
    rewrite (release_run dw n) by exact Hcur.
    cbn [dir_watches dir_watch_size clock trace postorder]. fold B.
    rewrite (kill_snoc _ _ _ _ Hcur), removal_calls_app, (removal_calls_one _ _ _ Hn).
    rewrite <- !app_assoc. reflexivity.
  - intros c done' s' Hc Hs' Hdone'.
    apply IH; [exact (is_child_at_lt _ _ _ Hc)| |exact Hs'|exact Hdone'].
    apply ranked in Hc. lia.
  - apply NoDup_seq.
  - exact Hs.
  - intros x c Hx _ Hc Hin. apply (Hdone x Hx).
    apply in_subtree_trans with c; [|exact Hin].
    exact (in_subtree_child reg0 dw dw c (in_subtree_root reg0 dw) Hc).
Qed.
End RemoveSubtree.

Lemma parent_stack_le (dws : list dir_watch) (fuel : nat) :
  forall p k, parent_stack fuel dws p = Some k -> (k <= fuel)%nat.
Proof.
  induction fuel as [|f IH]; intros p k H; simpl in H.
  - destruct (p =? -1); [|discriminate]. injection H as <-. lia.
  - destruct (p =? -1); [injection H as <-; lia|].
    destruct (slot dws p) as [n|]; [|discriminate].
    destruct (parent_stack f dws (parent n)) as [k'|] eqn:E; [|discriminate].
    injection H as <-. apply IH in E. lia.
Qed.

Lemma rooted_ranked (dws : list dir_watch) :
  rooted dws ->
  forall p i, is_child_at dws p i = true -> (height dws i < height dws p)%nat.
Proof.
  intros Hroot p i Hc. pose proof (is_child_at_lt _ _ _ Hc) as Hlt.
  unfold is_child_at in Hc. destruct (dws !! i) as [n|] eqn:Hn; [|discriminate].
  unfold is_child_of in Hc. apply andb_prop in Hc as [Hlive Hpar].
  apply Z.leb_le in Hlive. apply Z.eqb_eq in Hpar.
  destruct (Hroot i n Hn Hlive) as [d Hd].
  unfold height. rewrite Hd.
  destruct (length dws) as [|f] eqn:Hlen; [lia|].
  cbn [parent_stack] in Hd.
  assert (Hi : (Z.of_nat i =? -1) = false) by (apply Z.eqb_neq; lia).
  assert (Hslot : slot dws (Z.of_nat i) = Some n).
  { unfold slot. assert (Hneg : (Z.of_nat i <? 0) = false) by (apply Z.ltb_ge; lia).
    rewrite Hneg, Nat2Z.id. exact Hn. }
  rewrite Hi, Hslot, Hpar in Hd.
  destruct (parent_stack f dws (Z.of_nat p)) as [k|] eqn:Hk; [|discriminate].
  injection Hd as <-.
  rewrite (parent_stack_mono dws f _ _ Hk). pose proof (parent_stack_le dws f _ _ Hk).
  simpl. lia.
Qed.

Lemma height_le (dws : list dir_watch) (x : nat) : (height dws x <= S (length dws))%nat.
Proof. unfold height. lia. Qed.

(** Removing the child called [name] is removing the slot that the loop of
    lines 637-643 finds. *)
Lemma remove_dirwatch_by_name (fuel : nat) (name : string) (par : Z) (dw : nat) (s : state) :
  find_child (dir_watches s) name par = Some dw ->
  remove_dirwatch fuel (Some name) par s = remove_dirwatch fuel None (Z.of_nat dw) s.
Proof.
  intros Hfind. destruct fuel as [|f]; [reflexivity|].
  cbn [remove_dirwatch]. unfold bind at 1 3, get_watches at 1 3. rewrite Hfind. reflexivity.
Qed.

(** A slot that is given up and has no live child: [remove_dirwatch] asks
    the kernel to remove the descriptor [-1] and leaves the table as it is. *)
Lemma remove_dirwatch_tombstoned (fuel : nat) (dw : nat) (n : dir_watch) (s : state) :
  dir_watches s !! dw = Some (tombstone n) ->
  (forall i, is_child_at (dir_watches s) dw i = false) ->
  remove_dirwatch (S fuel) None (Z.of_nat dw) s = Ret true (with_trace s [InotifyRmWatch (-1)]).
Proof.
  intros Hn Hnone. rewrite remove_dirwatch_unfold.
  assert (Hloop : forall l, for_each l (remove_children_body fuel (Z.of_nat dw)) s = Ret tt s).
  { induction l as [|i l IH]; [reflexivity|].
    cbn [for_each]. unfold bind at 1.
    assert (Hbody : remove_children_body fuel (Z.of_nat dw) i s = Ret tt s).
    { unfold remove_children_body, bind, get_watches.
      specialize (Hnone i). unfold is_child_at in Hnone.
      destruct (dir_watches s !! i); [rewrite Hnone|]; reflexivity. }
    rewrite Hbody. exact IH. }
  rewrite Hloop, (release_run dw (tombstone n) s Hn).
  unfold with_trace. rewrite list_insert_id by exact Hn. reflexivity.
Qed.

Lemma removal_calls_nodes (dws : list dir_watch) (order : list nat) :
  (forall i, i ∈ order -> is_Some (dws !! i)) ->
  exists nodes,
    Forall2 (fun i n => dws !! i = Some n) order nodes /\
    removal_calls dws order = nodes ≫= release_calls.
Proof.
  induction order as [|i order IH]; intros Hall.
  - exists []. split; [constructor|reflexivity].
  - destruct (Hall i) as [n Hn]; [left|].
    destruct IH as (nodes & Hnodes & Hcalls); [intros j Hj; apply Hall; right; exact Hj|].
    exists (n :: nodes). split; [constructor; assumption|].
    unfold removal_calls in *. rewrite !bind_cons, Hn, Hcalls. reflexivity.
Qed.

Lemma rm_watches_release (nodes : list dir_watch) :
  rm_watches (nodes ≫= release_calls) = wd <$> nodes.
Proof.
  induction nodes as [|n nodes IH]; [reflexivity|].
  rewrite bind_cons, rm_watches_app, IH. unfold release_calls.
  destruct (dirname n), (destname n); reflexivity.
Qed.

Lemma frees_release (nodes : list dir_watch) :
  frees (nodes ≫= release_calls) =
    nodes ≫= (fun n => option_list (dirname n) ++ option_list (destname n)).
Proof.
  induction nodes as [|n nodes IH]; [reflexivity|].
  rewrite !bind_cons, frees_app, IH. unfold release_calls.
  destruct (dirname n), (destname n); reflexivity.
Qed.

Lemma rooted_b_sound (dws : list dir_watch) : rooted_b dws = true -> rooted dws.
Proof.
  unfold rooted_b, rooted. rewrite forallb_forall. intros H i n Hn Hlive.
  specialize (H i). rewrite Hn in H.
  assert (Hl : (0 <=? wd n) = true) by (apply Z.leb_le; exact Hlive).
  rewrite Hl in H. apply bool_decide_eq_true in H; [exact H|].
  apply in_seq. apply lookup_lt_Some in Hn. lia.
Qed.

Lemma in_subtree_lookup (dws : list dir_watch) (dw i : nat) :
  is_Some (dws !! dw) -> in_subtree dws dw i -> is_Some (dws !! i).
Proof.
  intros Hdw. induction 1 as [|p i _ _ Hc]; [exact Hdw|].
  apply lookup_lt_is_Some_2. exact (is_child_at_lt _ _ _ Hc).
Qed.

(** C4.  In a table whose walks to the root end, [remove_dirwatch (NULL,
    dw)] on a slot [dw] of the table returns [true], given fuel beyond the
    size of the table.  The slots it gives up, in the order [order] in
    which it does:
    - are [dw] and the nodes below it through live children, each once;
    - come bottom-up: a child before its parent, [dw] last;
    - each get exactly the calls of one node ([nodes] are the nodes of
      [order] as they were): one [inotify_rm_watch] on its descriptor, then
      [free] of its name and of its destination name when it has one, and
      nothing else is called;
    - are left unused ([wd = -1], no name, no destination name), every
      other slot and the size of the table being as before.
    Called once more on [dw], it returns [true] again, leaves the table as
    it is and frees nothing; the one call it makes is [inotify_rm_watch] on
    the descriptor [-1], which names no watch. *)
Theorem remove_dirwatch_subtree (fuel : nat) (dw : nat) (n : dir_watch) (s : state) :
  let dws := dir_watches s in
  rooted dws ->
  dws !! dw = Some n ->
  (S (length dws) < fuel)%nat ->
  exists (order : list nat) (nodes : list dir_watch) (s' : state),
    remove_dirwatch fuel None (Z.of_nat dw) s = Ret true s' /\
    NoDup order /\
    (forall i, i ∈ order <-> in_subtree dws dw i) /\
    (forall c p, p ∈ order -> is_child_at dws p c = true -> before order c p) /\
    last order = Some dw /\
    Forall2 (fun i m => dws !! i = Some m) order nodes /\
    trace s' = trace s ++ (nodes ≫= release_calls) /\
    rm_watches (trace s') = rm_watches (trace s) ++ (wd <$> nodes) /\
    frees (trace s') =
      frees (trace s) ++
      (nodes ≫= (fun m => option_list (dirname m) ++ option_list (destname m))) /\
    (forall i, i ∈ order -> dir_watches s' !! i = tombstone <$> dws !! i) /\
    (forall i, i ∉ order -> dir_watches s' !! i = dws !! i) /\
    dir_watch_size s' = dir_watch_size s /\
    exists s'',
      remove_dirwatch fuel None (Z.of_nat dw) s' = Ret true s'' /\
      dir_watches s'' = dir_watches s' /\
      dir_watch_size s'' = dir_watch_size s' /\
      frees (trace s'') = frees (trace s') /\
      rm_watches (trace s'') = rm_watches (trace s') ++ [-1].
Proof.
  intros dws Hroot Hn Hfuel.
  pose proof (rooted_ranked dws Hroot) as Hrank.
  assert (Hht : (height dws dw < fuel)%nat) by (pose proof (height_le dws dw); lia).
  assert (Hin : forall i, i ∈ postorder fuel dws dw <-> in_subtree dws dw i).
  { intros i. split; [apply postorder_sound|].
    apply (postorder_complete dws (height dws) Hrank); exact Hht. }
  destruct (removal_calls_nodes dws (postorder fuel dws dw)) as (nodes & Hnodes & Hcalls).
  { intros i Hi. apply Hin in Hi. apply (in_subtree_lookup dws dw i); [eexists; exact Hn|exact Hi]. }
  pose proof (remove_dirwatch_postorder dws (height dws) Hrank fuel dw [] s) as Hrun.
  rewrite kill_nil in Hrun. simpl in Hrun.
  specialize (Hrun (lookup_lt_Some _ _ _ Hn) Hht eq_refl).
  rewrite Hrun by (intros x Hx; apply elem_of_nil in Hx; contradiction).
  exists (postorder fuel dws dw), nodes. eexists. split; [reflexivity|].
  cbn [dir_watches dir_watch_size trace].
  split; [exact (NoDup_postorder dws (height dws) Hrank fuel dw)|].
  split; [exact Hin|].
  split; [intros c p Hp Hc;
          exact (postorder_bottom_up dws (height dws) Hrank fuel dw c p Hht Hp Hc)|].
  split; [destruct fuel; [lia|]; simpl; apply last_snoc|].
  split; [exact Hnodes|].
  split; [rewrite Hcalls; reflexivity|].
  split; [rewrite rm_watches_app, Hcalls, rm_watches_release; reflexivity|].
  split; [rewrite frees_app, Hcalls, frees_release; reflexivity|].
  split; [intros i Hi; apply kill_lookup_in; exact Hi|].
  split; [intros i Hi; apply kill_lookup_out; exact Hi|].
  split; [reflexivity|].
  destruct fuel as [|fuel']; [lia|].
  eexists. split.
  - apply (remove_dirwatch_tombstoned fuel' dw n).
    + cbn [dir_watches]. rewrite kill_lookup_in, Hn; [reflexivity|].
      apply Hin. constructor.
    + intros i. cbn [dir_watches]. unfold is_child_at. rewrite kill_lookup.
      destruct (dws !! i) as [m|] eqn:Hm; [|reflexivity]. simpl.
      destruct (decide (i ∈ postorder (S fuel') dws dw)) as [Hi|Hi].
      * rewrite bool_decide_eq_true_2 by exact Hi. reflexivity.
      * rewrite bool_decide_eq_false_2 by exact Hi.
        destruct (is_child_of (Z.of_nat dw) m) eqn:Hc; [|reflexivity].
        exfalso. apply Hi, Hin.
        apply (in_subtree_child dws dw dw i); [constructor|].
        unfold is_child_at. rewrite Hm. exact Hc.
  - split; [reflexivity|]. split; [reflexivity|].
    cbn [trace with_trace]. rewrite frees_app, rm_watches_app. simpl.
    rewrite app_nil_r. split; reflexivity.
Qed.

Lemma remove_dirwatch_subtree_witness :
  exists s',
    remove_dirwatch 6 None 2 (mk_state four_watches 8 0 []) = Ret true s' /\
    trace s' = [InotifyRmWatch 3; Free "b"; InotifyRmWatch 2; Free "a"] /\
    wd <$> dir_watches s' = [1; -1; -1; 4].
Proof.
  destruct (remove_dirwatch_subtree 6 2 (mk_dir_watch 2 (Some "a") None 0)
              (mk_state four_watches 8 0 []))
    as (order & nodes & s' & Hrun & _).
  - apply rooted_b_sound. vm_compute. reflexivity.
  - reflexivity.
  - vm_compute. lia.
  - exists s'. split; [exact Hrun|].
    vm_compute in Hrun. injection Hrun as <-. split; reflexivity.
Defined.

(** ** Installing a subtree *)


(** The whole subtree of a directory that is moved in gets its watches,
    through the call with [recursive = false] of [handle_event]. *)
Example moved_in_subtree_is_watched :
  exists s',
    handle_event cfg_plain env_moved_in 5 event_moved_in state_two_watches = Ret false s' /\
    ((fun n => (dirname n, parent n)) <$> dir_watches s') =
      [(Some "/tmp/src/", -1); (Some "a", 0); (Some "d", 0); (Some "e", 2); (Some "f", 3)] /\
    syncs (trace s') = [("/tmp/src//", "host::module//", false)].
Proof. eexists. split; [vm_compute; reflexivity|]. split; reflexivity. Qed.

(** *** Paths in a table that grows *)

Lemma walk_up_loop (dws : list dir_watch) (pathsize : nat) (wp : bool) (fuel : nat) :
  forall p ps buf,
    parent_stack fuel dws p = Some ps ->
    buildpath_loop dws pathsize p wp ps buf = walk_up fuel dws pathsize wp p buf.
Proof.
  induction fuel as [|f IH]; intros p ps buf Hps; cbn [parent_stack walk_up] in *.
  - destruct (p =? -1); [|discriminate]. injection Hps as <-. reflexivity.
  - destruct (p =? -1); [injection Hps as <-; reflexivity|].
    destruct (slot dws p) as [n|] eqn:Hn; [|discriminate].
    destruct (parent_stack f dws (parent n)) as [ps'|] eqn:Hps'; [|discriminate].
    injection Hps as <-.
    rewrite (buildpath_loop_parent dws pathsize wp p n Hn), (IH _ _ _ Hps'). reflexivity.
Qed.

Lemma walk_up_undef (dws : list dir_watch) (pathsize : nat) (wp : bool) (fuel : nat) :
  forall p buf,
    parent_stack fuel dws p = None -> walk_up fuel dws pathsize wp p buf = BpUndef.
Proof.
  induction fuel as [|f IH]; intros p buf Hps; cbn [parent_stack walk_up] in *.
  - destruct (p =? -1); [discriminate|reflexivity].
  - destruct (p =? -1); [discriminate|].
    destruct (slot dws p) as [n|]; [|reflexivity].
    destruct (parent_stack f dws (parent n)) eqn:E; [discriminate|].
    rewrite (IH _ _ E). reflexivity.
Qed.

(** [buildpath] without a prefix, through [walk_up]. *)
Lemma buildpath_buf_walk (dws : list dir_watch) (pathsize : nat) (watch : Z)
    (dname : option string) :
  buildpath_buf dws pathsize watch dname None =
    match walk_up (length dws) dws pathsize false watch pb_empty with
    | BpRet true b =>
        match dname with
        | Some d =>
            if (pathsize <=? String.length (pb_text b) + String.length d + 2)%nat
            then BpRet false b
            else BpRet true (strcat b d)
        | None => BpRet true b
        end
    | r => r
    end.
Proof.
  unfold buildpath_buf. cbn [bool_decide decide_rel].
  rewrite bool_decide_eq_false_2 by discriminate.
  rewrite (bool_decide_eq_false_2 (None <> None)) by (intros H; apply H; reflexivity).
  destruct (parent_stack (length dws) dws watch) as [ps|] eqn:Hps.
  - rewrite (walk_up_loop _ _ _ _ _ _ _ Hps). reflexivity.
  - rewrite (walk_up_undef _ _ _ _ _ _ Hps). reflexivity.
Qed.

Lemma parent_stack_mono_le (dws : list dir_watch) (f f' : nat) (p : Z) (k : nat) :
  (f <= f')%nat -> parent_stack f dws p = Some k -> parent_stack f' dws p = Some k.
Proof.
  induction 1 as [|f' _ IH]; [auto|]. intros H. apply parent_stack_mono. auto.
Qed.

Lemma parent_stack_least (dws : list dir_watch) (fuel : nat) :
  forall p k, parent_stack fuel dws p = Some k -> parent_stack k dws p = Some k.
Proof.
  induction fuel as [|f IH]; intros p k H; cbn [parent_stack] in H.
  - destruct (p =? -1) eqn:E; [|discriminate]. injection H as <-. simpl. rewrite E. reflexivity.
  - destruct (p =? -1) eqn:E; [injection H as <-; simpl; rewrite E; reflexivity|].
    destruct (slot dws p) as [n|] eqn:Hn; [|discriminate].
    destruct (parent_stack f dws (parent n)) as [k'|] eqn:Hk; [|discriminate].
    injection H as <-. cbn [parent_stack]. rewrite E, Hn, (IH _ _ Hk). reflexivity.
Qed.

Lemma walk_up_least (dws : list dir_watch) (pathsize : nat) (wp : bool) (fuel : nat) :
  forall p k buf,
    parent_stack fuel dws p = Some k ->
    walk_up fuel dws pathsize wp p buf = walk_up k dws pathsize wp p buf.
Proof.
  induction fuel as [|f IH]; intros p k buf H; cbn [parent_stack] in H.
  - destruct (p =? -1) eqn:E; [|discriminate]. injection H as <-. reflexivity.
  - destruct (p =? -1) eqn:E.
    + injection H as <-. simpl. rewrite E. reflexivity.
    + destruct (slot dws p) as [n|] eqn:Hn; [|discriminate].
      destruct (parent_stack f dws (parent n)) as [k'|] eqn:Hk; [|discriminate].
      injection H as <-. cbn [walk_up]. rewrite E, Hn, (IH _ _ _ Hk). reflexivity.
Qed.

(** A walk that ends gives the same path with any fuel that lets it end. *)
Lemma walk_up_fuel (dws : list dir_watch) (pathsize : nat) (wp : bool) (f f' : nat)
    (p : Z) (k : nat) (buf : pathbuf) :
  parent_stack f dws p = Some k ->
  (k <= f')%nat ->
  walk_up f' dws pathsize wp p buf = walk_up f dws pathsize wp p buf.
Proof.
  intros Hf Hk.
  pose proof (parent_stack_least dws f p k Hf) as Hleast.
  pose proof (parent_stack_mono_le dws k f' p k Hk Hleast) as Hf'.
  rewrite (walk_up_least dws pathsize wp f p k buf Hf).
  rewrite (walk_up_least dws pathsize wp f' p k buf Hf'). reflexivity.
Qed.

Lemma slot_nat (dws : list dir_watch) (p : Z) (n : dir_watch) :
  slot dws p = Some n -> 0 <= p /\ dws !! Z.to_nat p = Some n.
Proof.
  unfold slot. destruct (Z.ltb_spec p 0); [discriminate|]. auto.
Qed.

Lemma slot_of_nat (dws : list dir_watch) (i : nat) : slot dws (Z.of_nat i) = dws !! i.
Proof.
  unfold slot. destruct (Z.ltb_spec (Z.of_nat i) 0); [lia|]. rewrite Nat2Z.id. reflexivity.
Qed.

Lemma grows_slot (dws dws' : list dir_watch) (p : Z) (n : dir_watch) :
  grows dws dws' -> slot dws p = Some n -> 0 <= wd n -> slot dws' p = Some n.
Proof.
  intros [_ Hg] Hn Hlive. apply slot_nat in Hn as [Hp Hn].
  unfold slot. destruct (Z.ltb_spec p 0); [lia|]. exact (Hg _ _ Hn Hlive).
Qed.

Lemma grows_refl (dws : list dir_watch) : grows dws dws.
Proof. split; auto. Qed.

Lemma grows_trans (a b c : list dir_watch) : grows a b -> grows b c -> grows a c.
Proof.
  intros [Hl1 H1] [Hl2 H2]. split; [lia|]. intros i n Hn Hlive.
  apply H2; [|exact Hlive]. apply H1; assumption.
Qed.

Lemma live_chain_grows (dws dws' : list dir_watch) (p : Z) :
  grows dws dws' -> live_chain dws p -> live_chain dws' p.
Proof.
  intros Hg. induction 1 as [|p n Hn Hlive _ IH]; [constructor|].
  exact (live_chain_node dws' p n (grows_slot _ _ _ _ Hg Hn Hlive) Hlive IH).
Qed.


Lemma parent_stack_grows (dws dws' : list dir_watch) (fuel : nat) :
  grows dws dws' ->
  forall p, live_chain dws p -> parent_stack fuel dws' p = parent_stack fuel dws p.
Proof.
  intros Hg. induction fuel as [|f IH]; intros p Hp; [reflexivity|].
  cbn [parent_stack]. destruct (p =? -1) eqn:E; [reflexivity|].
  inversion Hp as [Hroot|p' n Hn Hlive Hup]; subst; [discriminate|].
  rewrite Hn, (grows_slot _ _ _ _ Hg Hn Hlive), (IH _ Hup). reflexivity.
Qed.

(** The nodes of a walk that ends are pairwise distinct slots in use. *)
Lemma live_chain_nodes (dws : list dir_watch) (fuel : nat) :
  forall p k,
    live_chain dws p ->
    parent_stack fuel dws p = Some k ->
    exists l : list nat,
      length l = k /\ NoDup l /\
      forall x, x ∈ l ->
        (exists n, dws !! x = Some n /\ 0 <= wd n) /\
        (exists d, parent_stack fuel dws (Z.of_nat x) = Some d /\ (0 < d <= k)%nat).
Proof.
  induction fuel as [|f IH]; intros p k Hp Hk; cbn [parent_stack] in Hk.
  - destruct (p =? -1); [|discriminate]. injection Hk as <-.
    exists []. split; [reflexivity|]. split; [constructor|].
    intros x Hx. apply elem_of_nil in Hx. contradiction.
  - destruct (p =? -1) eqn:E.
    + injection Hk as <-. exists []. split; [reflexivity|]. split; [constructor|].
      intros x Hx. apply elem_of_nil in Hx. contradiction.
    + inversion Hp as [Hroot|p' n Hn Hlive Hup]; subst; [discriminate|].
      rewrite Hn in Hk.
      destruct (parent_stack f dws (parent n)) as [k'|] eqn:Hk'; [|discriminate].
      injection Hk as <-.
      destruct (IH _ _ Hup Hk') as (l & Hlen & Hnd & Hl).
      pose proof (slot_nat _ _ _ Hn) as [Hp0 Hnat].
      assert (Hself : parent_stack (S f) dws (Z.of_nat (Z.to_nat p)) = Some (S k')).
      { rewrite Z2Nat.id by exact Hp0. cbn [parent_stack]. rewrite E, Hn, Hk'. reflexivity. }
      exists (Z.to_nat p :: l). split; [simpl; lia|]. split.
      * apply NoDup_cons. split; [|exact Hnd].
        intros Hin. destruct (Hl _ Hin) as (_ & d & Hd & Hrange).
        apply parent_stack_mono in Hd. rewrite Hself in Hd. injection Hd as <-. lia.
      * intros x Hx. apply elem_of_cons in Hx as [->|Hx].
        -- split; [exists n; auto|]. exists (S k'). split; [exact Hself|lia].
        -- destruct (Hl _ Hx) as (Hlv & d & Hd & Hrange). split; [exact Hlv|].
           exists d. split; [apply parent_stack_mono; exact Hd|lia].
Qed.

(** With an unused slot in the table, a walk that ends is shorter than the
    table. *)
Lemma live_chain_short (dws : list dir_watch) (fuel : nat) (p : Z) (k u : nat) (m : dir_watch) :
  live_chain dws p ->
  parent_stack fuel dws p = Some k ->
  dws !! u = Some m -> wd m < 0 ->
  (S k <= length dws)%nat.
Proof.
  intros Hp Hk Hu Hdead.
  destruct (live_chain_nodes dws fuel p k Hp Hk) as (l & Hlen & Hnd & Hl).
  assert (Hnd' : NoDup (u :: l)).
  { apply NoDup_cons. split; [|exact Hnd].
    intros Hin. destruct (Hl _ Hin) as ((n & Hn & Hlive) & _).
    rewrite Hu in Hn. injection Hn as <-. lia. }
  assert (Hsub : u :: l ⊆+ seq 0 (length dws)).
  { apply NoDup_submseteq; [exact Hnd'|].
    intros x Hx. apply elem_of_seq. split; [lia|]. simpl.
    apply elem_of_cons in Hx as [->|Hx].
    - exact (lookup_lt_Some _ _ _ Hu).
    - destruct (Hl _ Hx) as ((n & Hn & _) & _). exact (lookup_lt_Some _ _ _ Hn). }
  apply submseteq_length in Hsub. rewrite length_seq in Hsub. simpl in Hsub. lia.
Qed.




Lemma add_dirwatch_unfold (cfg : config) (env : environment) (f : nat)
    (dname : string) (destn : option string) (recursive : bool) (par : Z) (s : state) :
  add_dirwatch cfg env (S f) dname destn recursive par s =
    let s1 := with_trace s [log_add_dirwatch] in
    match buildpath_buf (dir_watches s) (S PATH_MAX) par (Some dname) None with
    | BpUndef => Undef
    | BpAssert => Aborted s1
    | BpRet false _ => Ret false (with_trace s1 [Printlogf LOG_ERROR "path too long"])
    | BpRet true pathname =>
        if excluded cfg dname then Ret true s1
        else
          match add_watch env (pb_text pathname) dname destn par s1 with
          | Ret dw s2 =>
              if dw =? -1 then Ret false s2
              else if (S PATH_MAX <? String.length (pb_text pathname) + String.length dname + 2)%nat
              then Ret false (with_trace s2 [Printlogf LOG_ERROR "pathname too long %s//%s"])
              else
                match opendir env (clock s2) (pb_text pathname) with
                | None => Ret false (with_trace (ticked s2)
                                       [Printlogf LOG_ERROR "cannot open dir %s."])
                | Some entries =>
                    match readdir_loop env entries (install_body cfg env f dw) (ticked s2) with
                    | Ret _ s3 => Ret true s3
                    | Exit c s3 => Exit c s3
                    | Aborted s3 => Aborted s3
                    | Undef => Undef
                    end
                end
          | Exit c s2 => Exit c s2
          | Aborted s2 => Aborted s2
          | Undef => Undef
          end
    end.
Proof.
  cbn [add_dirwatch]. unfold bind at 1, printlogf at 1, emit at 1.
  unfold bind at 1. rewrite buildpath_run. cbn zeta. cbn [dir_watches].
  fold log_add_dirwatch.
  change (mk_state (dir_watches s) (dir_watch_size s) (clock s) (trace s ++ [log_add_dirwatch]))
    with (with_trace s [log_add_dirwatch]).
  destruct (buildpath_buf (dir_watches s) (S PATH_MAX) par (Some dname) None)
    as [| |[|] pathname]; try reflexivity.
  cbn [negb]. destruct (excluded cfg dname); [reflexivity|].
  unfold bind at 1.
  destruct (add_watch env (pb_text pathname) dname destn par (with_trace s [log_add_dirwatch]))
    as [dw s2| | |]; try reflexivity.
  destruct (dw =? -1); [reflexivity|].
  destruct (S PATH_MAX <? String.length (pb_text pathname) + String.length dname + 2)%nat;
    [reflexivity|].
  unfold bind at 1, ask at 1.
  destruct (opendir env (clock s2) (pb_text pathname)) as [entries|]; [|reflexivity].
  unfold bind at 1. fold (install_body cfg env f dw). reflexivity.
Qed.




Lemma buildpath_buf_walk_ok (dws : list dir_watch) (pathsize : nat) (watch : Z) (buf : pathbuf) :
  buildpath_buf dws pathsize watch None None = BpRet true buf <->
  walk_up (length dws) dws pathsize false watch pb_empty = BpRet true buf.
Proof.
  rewrite buildpath_buf_walk.
  destruct (walk_up (length dws) dws pathsize false watch pb_empty) as [| |[|] b];
    split; intros H; try discriminate; exact H.
Qed.


Section Install.
Variables (cfg : config) (env : environment) (fs : string -> option (list dirent)).
Hypothesis opendir_fs : forall t p, opendir env t p = fs p.
Hypothesis keeps_going : forall t, keep_going_at env t = true.
Hypothesis kernel_adds : forall t p, 0 <= inotify_add_watch env t p.

End Install.

Section InstallSubtree.
Variables (cfg : config) (env : environment) (fs : string -> option (list dirent)).
Hypothesis opendir_fs : forall t p, opendir env t p = fs p.
Hypothesis keeps_going : forall t, keep_going_at env t = true.
Hypothesis kernel_adds : forall t p, 0 <= inotify_add_watch env t p.


End InstallSubtree.



(** ** What the functions keep *)

Lemma final_state_bind {A B : Type} (m : M A) (k : A -> M B) (s s' : state) :
  final_state (bind m k s) = Some s' ->
  (exists a s1, m s = Ret a s1 /\ final_state (k a s1) = Some s') \/
  (returned (m s) = None /\ final_state (m s) = Some s').
Proof.
  unfold bind. destruct (m s) as [a s1|c s1|s1|]; intros H.
  - left. eauto.
  - right. auto.
  - right. auto.
  - discriminate.
Qed.

Lemma same_table_refl (s : state) : same_table s s.
Proof. split; reflexivity. Qed.

Lemma same_table_trans (a b c : state) : same_table a b -> same_table b c -> same_table a c.
Proof. intros [H1 H2] [H3 H4]. split; congruence. Qed.

Lemma same_table_with_trace (s : state) (tr : list call) : same_table s (with_trace s tr).
Proof. split; reflexivity. Qed.

Lemma same_table_ticked (s : state) : same_table s (ticked s).
Proof. split; reflexivity. Qed.

Section Relates.
Variable R : state -> state -> Prop.
Hypothesis R_frame : forall s s', same_table s s' -> R s s'.
Hypothesis R_trans : forall a b c, R a b -> R b c -> R a c.

Lemma relates_ret {A : Type} (a : A) : relates R (ret a).
Proof. intros s s' [= <-]. apply R_frame, same_table_refl. Qed.

Lemma relates_bind {A B : Type} (m : M A) (k : A -> M B) :
  relates R m -> (forall a, relates R (k a)) -> relates R (bind m k).
Proof.
  intros Hm Hk s s' H. apply final_state_bind in H as [(a & s1 & E & H)|[_ H]].
  - apply (R_trans s s1 s'); [apply Hm; rewrite E; reflexivity|exact (Hk a s1 s' H)].
  - exact (Hm s s' H).
Qed.

Lemma relates_emit (c : call) : relates R (emit c).
Proof. intros s s' [= <-]. apply R_frame. split; reflexivity. Qed.

Lemma relates_printlogf (level : Z) (fmt : string) : relates R (printlogf level fmt).
Proof. apply relates_emit. Qed.

Lemma relates_ask {A : Type} (q : nat -> A) : relates R (ask q).
Proof. intros s s' [= <-]. apply R_frame. split; reflexivity. Qed.

Lemma relates_get_watches : relates R get_watches.
Proof. intros s s' [= <-]. apply R_frame, same_table_refl. Qed.

Lemma relates_undefined {A : Type} : relates R (@undefined A).
Proof. intros s s' H. discriminate. Qed.

Lemma relates_exit {A : Type} (code : Z) : relates R (@exit A code).
Proof. intros s s' [= <-]. apply R_frame, same_table_refl. Qed.

Lemma relates_for_each {A : Type} (l : list A) (body : A -> M unit) :
  (forall x, relates R (body x)) -> relates R (for_each l body).
Proof.
  intros Hb. induction l as [|x l IH]; cbn [for_each]; [apply relates_ret|].
  apply relates_bind; [apply Hb|intros _; exact IH].
Qed.

Lemma relates_buildpath (pathsize : nat) (watch : Z) (dname prefix : option string) :
  relates R (buildpath pathsize watch dname prefix).
Proof.
  unfold buildpath. apply relates_bind; [apply relates_get_watches|]. intros dws.
  destruct (buildpath_buf dws pathsize watch dname prefix) as [| |[|] buf].
  - apply relates_undefined.
  - intros s s' [= <-]. apply R_frame, same_table_refl.
  - apply relates_ret.
  - apply relates_bind; [apply relates_printlogf|intros _; apply relates_ret].
Qed.

Lemma relates_rsync (cfg : config) (env : environment) (src dest : string) (recursive : bool) :
  relates R (rsync cfg env src dest recursive).
Proof.
  intros s s' H.
  destruct (rsync_effect cfg env src dest recursive s) as (s1 & [[b E]|E] & Hd & Hs & _);
    rewrite E in H; injection H as <-; apply R_frame; split; assumption.
Qed.

Lemma relates_handle_event_sync (cfg : config) (env : environment)
    (event : inotify_event) (i : Z) : relates R (handle_event_sync cfg env event i).
Proof.
  unfold handle_event_sync.
  apply relates_bind; [apply relates_buildpath|]. intros [ok pathname].
  destruct (negb ok); [apply relates_ret|].
  apply relates_bind; [apply relates_buildpath|]. intros [ok' destname].
  destruct (negb ok'); [apply relates_ret|].
  destruct (has_bits sync_mask (ev_mask event)); [|apply relates_ret].
  apply relates_bind; [apply relates_printlogf|]. intros _.
  apply relates_bind; [apply relates_rsync|]. intros synced.
  destruct synced; [apply relates_ret|].
  apply relates_bind; [apply relates_get_watches|]. intros dws.
  destruct (slot dws i) as [n|]; [|apply relates_undefined].
  destruct (parent n =? -1); [apply relates_ret|].
  apply relates_bind; [apply relates_buildpath|]. intros [ok1 ppath].
  apply relates_bind; [apply relates_buildpath|]. intros [ok2 pdest].
  apply relates_bind; [apply relates_printlogf|]. intros _.
  apply relates_bind; [apply relates_rsync|]. intros synced.
  destruct synced; [apply relates_ret|].
  apply relates_bind; [apply relates_printlogf|intros _; apply relates_exit].
Qed.

End Relates.

(** *** Where a computation can stop *)

Section Stops.
Variable E : Z -> Prop.
Variable Q : Prop.

Lemma stops_ret {A : Type} (a : A) : stops E Q (ret a).
Proof. intros s. exact I. Qed.

Lemma stops_bind {A B : Type} (m : M A) (k : A -> M B) :
  stops E Q m -> (forall a, stops E Q (k a)) -> stops E Q (bind m k).
Proof.
  intros Hm Hk s. unfold bind. specialize (Hm s).
  destruct (m s) as [a s1|c s1|s1|]; try exact Hm. apply Hk.
Qed.

Lemma stops_emit (c : call) : stops E Q (emit c).
Proof. intros s. exact I. Qed.

Lemma stops_printlogf (level : Z) (fmt : string) : stops E Q (printlogf level fmt).
Proof. intros s. exact I. Qed.

Lemma stops_ask {A : Type} (q : nat -> A) : stops E Q (ask q).
Proof. intros s. exact I. Qed.

Lemma stops_get_watches : stops E Q get_watches.
Proof. intros s. exact I. Qed.

Lemma stops_undefined {A : Type} : stops E Q (@undefined A).
Proof. intros s. exact I. Qed.

Lemma stops_for_each {A : Type} (l : list A) (body : A -> M unit) :
  (forall x, stops E Q (body x)) -> stops E Q (for_each l body).
Proof.
  intros Hb. induction l as [|x l IH]; cbn [for_each]; [apply stops_ret|].
  apply stops_bind; [apply Hb|intros _; exact IH].
Qed.


Lemma stops_add_watch (env : environment) (pathname dname : string) (destn : option string)
    (par : Z) : stops E Q (add_watch env pathname dname destn par).
Proof.
  unfold add_watch. apply stops_bind; [apply stops_ask|]. intros w.
  apply stops_bind; [apply stops_emit|]. intros _.
  destruct (w =? -1).
  - apply stops_bind; [apply stops_printlogf|intros _; apply stops_ret].
  - intros s. destruct (find_unused (dir_watches s) =? length (dir_watches s))%nat; exact I.
Qed.

Lemma stops_release (dw : Z) : stops E Q (release dw).
Proof.
  unfold release. apply stops_bind; [apply stops_get_watches|]. intros dws.
  destruct (slot dws dw) as [n|]; [|apply stops_undefined].
  apply stops_bind; [apply stops_emit|]. intros _.
  apply stops_bind; [destruct (dirname n); [apply stops_emit|apply stops_ret]|]. intros _.
  apply stops_bind; [destruct (destname n); [apply stops_emit|apply stops_ret]|]. intros _.
  intros s. exact I.
Qed.

Lemma stops_remove_dirwatch (fuel : nat) :
  forall name par, stops E Q (remove_dirwatch fuel name par).
Proof.
  induction fuel as [|f IH]; intros name par; cbn [remove_dirwatch];
    [apply stops_undefined|].
  apply stops_bind; [apply stops_get_watches|]. intros dws0.
  destruct (match name with
            | Some nm => Z.of_nat <$> find_child dws0 nm par
            | None => Some par
            end) as [dw|].
  - apply stops_bind.
    + apply stops_for_each. intros i.
      apply stops_bind; [apply stops_get_watches|]. intros dws.
      destruct (dws !! i) as [n|]; [|apply stops_ret].
      destruct (is_child_of dw n); [|apply stops_ret].
      apply stops_bind; [apply IH|intros _; apply stops_ret].
    + intros _. apply stops_bind; [apply stops_release|intros _; apply stops_ret].
  - destruct (slot dws0 par); [|apply stops_undefined].
    apply stops_bind; [apply stops_printlogf|intros _; apply stops_ret].
Qed.

End Stops.

(** A computation that neither exits nor fails an [assert] ends, if it
    ends, by returning. *)
Lemma stops_nowhere_returns {A : Type} (m : M A) (s s' : state) :
  stops (fun _ => False) False m ->
  final_state (m s) = Some s' -> exists a, m s = Ret a s'.
Proof.
  intros Hm H. specialize (Hm s). destruct (m s) as [a s1|c s1|s1|]; try contradiction.
  - injection H as <-. eauto.
  - discriminate.
Qed.

(** *** Removal, whatever the table *)

(** Membership in lists put together from pieces. *)
Ltac elems :=
  repeat (rewrite ?elem_of_app, ?list_elem_of_singleton, ?elem_of_cons in * );
  try (intros; exfalso; eapply not_elem_of_nil; eassumption);
  intuition (subst; eauto).

Lemma tombstone_idemp (n : dir_watch) : tombstone (tombstone n) = tombstone n.
Proof. reflexivity. Qed.

Lemma kill_kill (a b : list nat) (dws : list dir_watch) : kill b (kill a dws) = kill (a ++ b) dws.
Proof.
  apply list_eq. intros i. rewrite !kill_lookup.
  destruct (dws !! i) as [n|]; [|reflexivity]. simpl. f_equal.
  repeat case_bool_decide; try reflexivity; exfalso; elems.
Qed.

(** A child in a table that gave up slots was a child before, and a child
    whose slot was not given up still is one. *)
Lemma is_child_at_kill (K : list nat) (dws : list dir_watch) (p i : nat) :
  is_child_at (kill K dws) p i = true <-> is_child_at dws p i = true /\ i ∉ K.
Proof.
  unfold is_child_at. rewrite kill_lookup.
  destruct (dws !! i) as [n|]; simpl; [|intuition discriminate].
  destruct (decide (i ∈ K)) as [Hi|Hi].
  - rewrite bool_decide_eq_true_2 by exact Hi. rewrite is_child_of_tombstone.
    intuition discriminate.
  - rewrite bool_decide_eq_false_2 by exact Hi. intuition.
Qed.

Lemma in_subtree_kill (K : list nat) (dws : list dir_watch) (dw i : nat) :
  in_subtree (kill K dws) dw i -> in_subtree dws dw i.
Proof.
  induction 1 as [|p i _ IH Hc]; [constructor|].
  apply is_child_at_kill in Hc as [Hc _]. exact (in_subtree_child dws dw p i IH Hc).
Qed.

Lemma in_subtree_below (dws : list dir_watch) (dw c i : nat) :
  is_child_at dws dw c = true -> in_subtree dws c i -> in_subtree dws dw i.
Proof.
  intros Hc. induction 1 as [|p i _ IH Hi].
  - exact (in_subtree_child dws dw dw c (in_subtree_root dws dw) Hc).
  - exact (in_subtree_child dws dw p i IH Hi).
Qed.

Section RemoveAny.
Variable f : nat.
Variable dws0 : list dir_watch.
Variable d : nat.
Hypothesis IH :
  forall (c : nat) (s s' : state) (b : bool),
    remove_dirwatch f None (Z.of_nat c) s = Ret b s' ->
    exists K,
      dir_watches s' = kill K (dir_watches s) /\
      dir_watch_size s' = dir_watch_size s /\
      c ∈ K /\
      (forall x, x ∈ K -> in_subtree (dir_watches s) c x) /\
      closed_under_children (dir_watches s) K.

Lemma remove_children_any (l : list nat) :
  forall (D : list nat) (s s1 : state),
    dir_watches s = kill D dws0 ->
    for_each l (remove_children_body f (Z.of_nat d)) s = Ret tt s1 ->
    exists N,
      dir_watches s1 = kill (D ++ N) dws0 /\
      dir_watch_size s1 = dir_watch_size s /\
      (forall x, x ∈ N -> in_subtree dws0 d x) /\
      (forall c, c ∈ l -> is_child_at dws0 d c = true -> c ∈ D ++ N) /\
      (forall p i, p ∈ N -> is_child_at dws0 p i = true -> i ∈ D ++ N).
Proof.
  induction l as [|c l IHl]; intros D s s1 Hs H.
  - injection H as <-. exists []. rewrite app_nil_r.
    repeat split; [exact Hs|elems..].
  - cbn [for_each] in H. unfold bind in H.
    destruct (remove_children_body f (Z.of_nat d) c s) as [[] s2| | |] eqn:Eb; try discriminate.
    assert (exists N2, dir_watches s2 = kill (D ++ N2) dws0 /\
                       dir_watch_size s2 = dir_watch_size s /\
                       (forall x, x ∈ N2 -> in_subtree dws0 d x) /\
                       (is_child_at dws0 d c = true -> c ∈ D ++ N2) /\
                       (forall p i, p ∈ N2 -> is_child_at dws0 p i = true -> i ∈ D ++ N2))
      as (N2 & Hs2 & Hz2 & Hsub2 & Hc2 & Hcl2).
    { unfold remove_children_body, bind, get_watches in Eb.
      pose proof (is_child_at_kill D dws0 d c) as Hk.
      unfold is_child_at in Hk at 1. rewrite <- Hs in Hk.
      destruct (dir_watches s !! c) as [n|] eqn:En.
      - destruct (is_child_of (Z.of_nat d) n) eqn:Ec.
        + destruct (remove_dirwatch f None (Z.of_nat c) s) as [b s3| | |] eqn:Er;
            try discriminate.
          injection Eb as <-.
          destruct (IH c s s3 b Er) as (K & HK & HKz & HcK & HKsub & HKcl).
          exists K. rewrite HK, Hs, kill_kill.
          apply proj1 in Hk. destruct (Hk eq_refl) as [Hdc HcD].
          repeat split; [exact HKz| | |].
          * intros x Hx. apply (in_subtree_below dws0 d c x Hdc).
            apply (in_subtree_kill D). rewrite <- Hs. exact (HKsub x Hx).
          * intros _. apply elem_of_app. right. exact HcK.
          * intros p i Hp Hi. destruct (decide (i ∈ D)) as [HiD|HiD]; [elems|].
            apply elem_of_app. right. apply (HKcl p i Hp).
            rewrite Hs. apply is_child_at_kill. split; assumption.
        + injection Eb as <-. exists []. rewrite app_nil_r.
          repeat split; [exact Hs|elems| |elems].
          intros Hdc. destruct (decide (c ∈ D)) as [HcD|HcD]; [exact HcD|].
          apply proj2 in Hk. specialize (Hk (conj Hdc HcD)). discriminate.
      - injection Eb as <-. exists []. rewrite app_nil_r.
        repeat split; [exact Hs|elems| |elems].
        intros Hdc. destruct (decide (c ∈ D)) as [HcD|HcD]; [exact HcD|].
        apply proj2 in Hk. specialize (Hk (conj Hdc HcD)). discriminate. }
    destruct (IHl (D ++ N2) s2 s1 Hs2 H) as (N & Hs1 & Hz1 & Hsub & Hc & Hcl).
    exists (N2 ++ N). rewrite app_assoc. repeat split.
    + exact Hs1.
    + congruence.
    + intros x Hx. apply elem_of_app in Hx as [Hx|Hx]; auto.
    + intros c' Hc' Hdc. apply elem_of_cons in Hc' as [->|Hc'].
      * apply elem_of_app. left. auto.
      * auto.
    + intros p i Hp Hi. apply elem_of_app in Hp as [Hp|Hp].
      * apply elem_of_app. left. eauto.
      * eauto.
Qed.

End RemoveAny.

Lemma remove_dirwatch_any (fuel : nat) :
  forall (dw : nat) (s s' : state) (b : bool),
    remove_dirwatch fuel None (Z.of_nat dw) s = Ret b s' ->
    exists K,
      dir_watches s' = kill K (dir_watches s) /\
      dir_watch_size s' = dir_watch_size s /\
      dw ∈ K /\
      (forall x, x ∈ K -> in_subtree (dir_watches s) dw x) /\
      closed_under_children (dir_watches s) K.
Proof.
  induction fuel as [|f IH]; intros dw s s' b H; [discriminate|].
  rewrite remove_dirwatch_unfold in H.
  destruct (for_each _ _ s) as [[] s1| | |] eqn:El; try discriminate.
  destruct (remove_children_any f (dir_watches s) dw IH _ [] s s1
              (eq_sym (kill_nil _)) El) as (N & Hs1 & Hz1 & Hsub & Hc & Hcl).
  cbn [app] in *.
  destruct (dir_watches s1 !! dw) as [n|] eqn:En.
  - rewrite (release_run dw n s1 En) in H. injection H as <- <-.
    exists (N ++ [dw]). cbn [dir_watches dir_watch_size].
    rewrite Hs1 in En. rewrite Hs1, (kill_snoc _ _ _ _ En).
    repeat split.
    + exact Hz1.
    + elems.
    + intros x Hx. apply elem_of_app in Hx as [Hx|Hx]; [auto|].
      apply list_elem_of_singleton in Hx as ->. constructor.
    + intros p i Hp Hi. apply elem_of_app. left.
      apply elem_of_app in Hp as [Hp|Hp]; [eauto|].
      apply list_elem_of_singleton in Hp as ->.
      apply Hc; [|exact Hi]. apply elem_of_seq. apply is_child_at_lt in Hi. lia.
  - unfold release, bind, get_watches in H. rewrite slot_of_nat, En in H. discriminate.
Qed.

(** *** Insertion, whatever the kernel answers *)

Lemma add_watch_refused (env : environment) (pathname dname : string)
    (destn : option string) (par : Z) (s : state) :
  inotify_add_watch env (clock s) pathname = -1 ->
  add_watch env pathname dname destn par s =
    Ret (-1) (with_trace (ticked s)
                [InotifyAddWatch pathname;
                 Printlogf LOG_ERROR "Cannot add watch %s (%d:%s)"]).
Proof.
  intros Hw. unfold add_watch, bind, ask, emit, printlogf, emit, ret, with_trace, ticked.
  simpl. rewrite Hw. simpl. rewrite <- app_assoc. reflexivity.
Qed.

Lemma add_watch_any (env : environment) (pathname dname : string) (destn : option string)
    (par : Z) (s : state) :
  let w := inotify_add_watch env (clock s) pathname in
  let newdw := find_unused (dir_watches s) in
  w <> -1 ->
  exists dws' size',
    add_watch env pathname dname destn par s =
      Ret (Z.of_nat newdw)
          (mk_state dws' size' (S (clock s)) (trace s ++ [InotifyAddWatch pathname])) /\
    grows (dir_watches s) dws' /\
    dws' !! newdw = Some (mk_dir_watch w (Some dname) destn par) /\
    (forall i, i <> newdw -> dws' !! i = dir_watches s !! i) /\
    ((newdw = length (dir_watches s) /\
      length dws' = S (length (dir_watches s)) /\
      size' = if dir_watch_size s <=? Z.of_nat (length (dir_watches s)) + 1
              then dir_watch_size s * 2 else dir_watch_size s) \/
     (length dws' = length (dir_watches s) /\
      size' = dir_watch_size s /\
      exists m, dir_watches s !! newdw = Some m /\ wd m < 0)).
Proof.
  intros w newdw Hw. unfold add_watch, bind, ask, emit. simpl. fold w.
  assert (Hne : (w =? -1) = false) by (apply Z.eqb_neq; exact Hw).
  rewrite Hne. simpl. fold newdw.
  pose proof (find_unused_le (dir_watches s)) as Hle. fold newdw in Hle.
  destruct (Nat.eqb_spec newdw (length (dir_watches s))) as [Heq|Hneq].
  - eexists _, _. split; [reflexivity|]. split; [|split; [|split]].
    + split; [rewrite length_app; simpl; lia|].
      intros i n Hn _. apply lookup_app_l_Some. exact Hn.
    + rewrite Heq, lookup_app_r by lia. rewrite Nat.sub_diag. reflexivity.
    + intros i Hi. destruct (Nat.lt_ge_cases i (length (dir_watches s))) as [Hlt|Hge].
      * apply lookup_app_l. exact Hlt.
      * rewrite lookup_ge_None_2 by (rewrite length_app; simpl; lia).
        symmetry. apply lookup_ge_None_2. lia.
    + left. rewrite length_app. simpl. repeat split; [exact Heq|lia].
  - destruct (lookup_lt_is_Some_2 (dir_watches s) newdw) as [m Hm]; [lia|].
    pose proof (find_unused_found _ _ Hm) as Hdead.
    eexists _, _. split; [reflexivity|]. split; [|split; [|split]].
    + split; [rewrite length_insert; lia|].
      intros i n Hn Hlive. rewrite list_lookup_insert_ne; [exact Hn|].
      intros <-. rewrite Hm in Hn. injection Hn as <-. lia.
    + apply list_lookup_insert_eq. lia.
    + intros i Hi. apply list_lookup_insert_ne. congruence.
    + right. rewrite length_insert. repeat split. exists m. auto.
Qed.

Lemma final_state_forward {A B : Type} (o : outcome A) (b : B) :
  final_state match o with
              | Ret _ s => Ret b s
              | Exit c s => Exit c s
              | Aborted s => Aborted s
              | Undef => Undef
              end = final_state o.
Proof. destruct o; reflexivity. Qed.

(** A relation between the table before and the table after that every
    insertion keeps is kept by the installation of a whole subtree.  What
    an insertion needs of the parent it is given, [pre], holds of every
    slot that an insertion has filled. *)
Section AddDirwatchRelates.
Variables (cfg : config) (env : environment).
Variable R : state -> state -> Prop.
Variable pre : state -> Z -> Prop.
Hypothesis R_frame : forall s s', same_table s s' -> R s s'.
Hypothesis R_trans : forall a b c, R a b -> R b c -> R a c.
Hypothesis pre_frame : forall s s' p, same_table s s' -> pre s p -> pre s' p.
Hypothesis pre_R : forall s s' p, R s s' -> pre s p -> pre s' p.
Hypothesis R_add_watch :
  forall pathname dname destn par s dw s',
    pre s par -> excluded cfg dname = false ->
    add_watch env pathname dname destn par s = Ret dw s' -> dw <> -1 ->
    R s s' /\ pre s' dw.

Lemma install_loop_relates (f : nat) (dw : Z) :
  (forall dname destn recursive par s s',
     pre s par ->
     final_state (add_dirwatch cfg env f dname destn recursive par s) = Some s' -> R s s') ->
  forall entries s s',
    pre s dw ->
    final_state (readdir_loop env entries (install_body cfg env f dw) s) = Some s' ->
    R s s'.
Proof.
  intros IH. induction entries as [|de entries IHe]; intros s s' Hpre H;
    cbn [readdir_loop] in H; unfold bind at 1, ask in H;
    destruct (negb (keep_going_at env (clock s)));
    try (injection H as <-; apply R_frame; split; reflexivity).
  apply final_state_bind in H as [(a & s1 & E & H)|[Hr H]].
  - assert (R (ticked s) s1) as HR.
    { unfold install_body in E.
      destruct (d_is_dir de && _ && _).
      - unfold bind in E.
        destruct (add_dirwatch cfg env f (d_name de) None true dw _) as [b s2| | |] eqn:Ea;
          try discriminate.
        injection E as _ <-. apply (IH (d_name de) None true dw).
        + apply (pre_frame s); [apply same_table_ticked|exact Hpre].
        + unfold ticked. rewrite Ea. reflexivity.
      - injection E as _ <-. apply R_frame, same_table_refl. }
    apply (R_trans s (ticked s) s'); [apply R_frame, same_table_ticked|].
    apply (R_trans _ s1 _ HR). apply IHe; [|exact H].
    apply (pre_R (ticked s)); [exact HR|].
    apply (pre_frame s); [apply same_table_ticked|exact Hpre].
  - apply (R_trans s (ticked s) s'); [apply R_frame, same_table_ticked|].
    unfold install_body in Hr, H.
    destruct (d_is_dir de && _ && _); [|discriminate].
    unfold bind in Hr, H.
    destruct (add_dirwatch cfg env f (d_name de) None true dw _) as [b s2| | |] eqn:Ea;
      try discriminate.
    + apply (IH (d_name de) None true dw).
      * apply (pre_frame s); [apply same_table_ticked|exact Hpre].
      * unfold ticked. rewrite Ea. exact H.
    + apply (IH (d_name de) None true dw).
      * apply (pre_frame s); [apply same_table_ticked|exact Hpre].
      * unfold ticked. rewrite Ea. exact H.
Qed.

Lemma add_dirwatch_relates (fuel : nat) :
  forall dname destn recursive par s s',
    pre s par ->
    final_state (add_dirwatch cfg env fuel dname destn recursive par s) = Some s' -> R s s'.
Proof.
  induction fuel as [|f IH]; intros dname destn recursive par s s' Hpre H; [discriminate|].
  rewrite add_dirwatch_unfold in H. cbv zeta in H.
  assert (Hlog : same_table s (with_trace s [log_add_dirwatch])) by apply same_table_with_trace.
  destruct (buildpath_buf _ _ _ _ _) as [| |[|] pathname]; try discriminate.
  - injection H as <-. apply R_frame, Hlog.
  - destruct (excluded cfg dname) eqn:Hex; [injection H as <-; apply R_frame, Hlog|].
    destruct (add_watch env (pb_text pathname) dname destn par _) as [dw s2| | |] eqn:Ea;
      try discriminate; cycle 1.
    { pose proof (stops_add_watch (fun _ => False) False env (pb_text pathname) dname destn par
                    (with_trace s [log_add_dirwatch])) as Hs.
      rewrite Ea in Hs. contradiction. }
    { pose proof (stops_add_watch (fun _ => False) False env (pb_text pathname) dname destn par
                    (with_trace s [log_add_dirwatch])) as Hs.
      rewrite Ea in Hs. contradiction. }
    destruct (Z.eqb_spec dw (-1)) as [->|Hdw].
    + injection H as <-.
      destruct (Z.eq_dec (inotify_add_watch env (clock (with_trace s [log_add_dirwatch]))
                            (pb_text pathname)) (-1)) as [Hw|Hw].
      * rewrite (add_watch_refused _ _ _ _ _ _ Hw) in Ea. injection Ea as <-.
        apply R_frame. split; reflexivity.
      * destruct (add_watch_any env (pb_text pathname) dname destn par _ Hw)
          as (dws' & size' & Ea' & _).
        rewrite Ea' in Ea. injection Ea as Ei _. lia.
    + destruct (R_add_watch _ _ _ _ _ _ _ (pre_frame _ _ _ Hlog Hpre) Hex Ea Hdw)
        as [HR Hpre2].
      assert (HR2 : R s s2) by (apply (R_trans _ _ _ (R_frame _ _ Hlog) HR)).
      destruct (S PATH_MAX <? _)%nat.
      { injection H as <-. apply (R_trans _ _ _ HR2). apply R_frame, same_table_with_trace. }
      destruct (opendir env (clock s2) (pb_text pathname)) as [entries|].
      * rewrite final_state_forward in H.
        apply (R_trans _ _ _ HR2). apply (R_trans _ (ticked s2)); [apply R_frame, same_table_ticked|].
        apply (install_loop_relates f dw IH entries); [|exact H].
        apply (pre_frame s2); [apply same_table_ticked|exact Hpre2].
      * injection H as <-. apply (R_trans _ _ _ HR2). apply R_frame. split; reflexivity.
  - injection H as <-. apply R_frame. split; reflexivity.
Qed.

End AddDirwatchRelates.

(** *** From one event to the whole run *)

Lemma bind_printlogf {A : Type} (level : Z) (fmt : string) (k : unit -> M A) (s : state) :
  bind (printlogf level fmt) k s = k tt (with_trace s [Printlogf level fmt]).
Proof. reflexivity. Qed.

Lemma bind_get_watches {A : Type} (k : list dir_watch -> M A) (s : state) :
  bind get_watches k s = k (dir_watches s) s.
Proof. reflexivity. Qed.

Lemma bind_ask {A B : Type} (q : nat -> A) (k : A -> M B) (s : state) :
  bind (ask q) k s = k (q (clock s)) (ticked s).
Proof. reflexivity. Qed.

Lemma final_state_then_ret {A B : Type} (m : M A) (b : B) (s : state) :
  final_state (bind m (fun _ => ret b) s) = final_state (m s).
Proof. unfold bind. destruct (m s); reflexivity. Qed.

Lemma then_ret_returned {A B : Type} (m : M A) (b b' : B) (s s' : state) :
  bind m (fun _ => ret b) s = Ret b' s' -> exists a, m s = Ret a s'.
Proof.
  unfold bind. destruct (m s) as [a s1| | |]; try discriminate.
  intros [= _ <-]. eauto.
Qed.

Lemma first_with_wd_lookup (dws : list dir_watch) (w : Z) (i : nat) :
  first_with_wd dws w = Some i ->
  (exists n, dws !! i = Some n /\ wd n = w) /\
  forall j m, (j < i)%nat -> dws !! j = Some m -> wd m <> w.
Proof.
  revert i. induction dws as [|n r IH]; intros i H; cbn [first_with_wd] in H; [discriminate|].
  destruct (Z.eqb_spec (wd n) w) as [Hw|Hw].
  - injection H as <-. split; [exists n; auto|]. intros j m Hj. lia.
  - destruct (first_with_wd r w) as [i'|]; [|discriminate]. injection H as <-.
    destruct (IH i' eq_refl) as [Hi Hlow]. split; [exact Hi|].
    intros [|j] m Hj Hm.
    + injection Hm as <-. exact Hw.
    + apply (Hlow j m); [lia|exact Hm].
Qed.

Lemma first_with_wd_none (dws : list dir_watch) (w : Z) :
  first_with_wd dws w = None <-> forall j m, dws !! j = Some m -> wd m <> w.
Proof.
  induction dws as [|n r IH]; cbn [first_with_wd].
  - split; [intros _ j m H; discriminate|reflexivity].
  - destruct (Z.eqb_spec (wd n) w) as [Hw|Hw].
    + split; [discriminate|]. intros H. exfalso. exact (H O n eq_refl Hw).
    + destruct (first_with_wd r w) as [i|]; simpl.
      * split; [discriminate|]. intros H. apply proj2 in IH.
        discriminate IH. intros j m Hm. exact (H (S j) m Hm).
      * split; [|reflexivity]. intros _ [|j] m Hm.
        -- injection Hm as <-. exact Hw.
        -- apply proj1 in IH. exact (IH eq_refl j m Hm).
Qed.

Lemma get_dirwatch_offset_slot (dws : list dir_watch) (w : Z) :
  get_dirwatch_offset dws w <> -1 ->
  exists n, slot dws (get_dirwatch_offset dws w) = Some n /\ wd n = w.
Proof.
  unfold get_dirwatch_offset. destruct (first_with_wd dws w) as [i|] eqn:E; [|congruence].
  intros _. destruct (first_with_wd_lookup dws w i E) as [(n & Hn & Hw) _].
  exists n. rewrite slot_of_nat. auto.
Qed.

(** [handle_event] up to the update of the table: the text of the mask
    always fits, so the first thing done is the debug line. *)
Lemma handle_event_run (cfg : config) (env : environment) (fuel : nat)
    (event : inotify_event) (s : state) :
  handle_event cfg env fuel event s =
    let s0 := with_trace s [log_event] in
    let i := get_dirwatch_offset (dir_watches s) (ev_wd event) in
    if has_bits IN_IGNORED (ev_mask event) then Ret true s0
    else if excluded cfg (ev_name event) then Ret true s0
    else if i =? -1 then Ret false (with_trace s [log_event; log_unknown_descriptor])
    else bind (handle_event_dirs cfg env fuel event i)
              (fun _ => handle_event_sync cfg env event i) s0.
Proof.
  unfold handle_event.
  destruct (build_masktext_total (ev_mask event)) as [t ->].
  rewrite bind_printlogf. cbv zeta.
  destruct (has_bits IN_IGNORED (ev_mask event)); [reflexivity|].
  destruct (excluded cfg (ev_name event)); [reflexivity|].
  rewrite bind_get_watches.
  change (dir_watches (with_trace s [Printlogf LOG_DEBUG "inotfy event: %s:%s"]))
    with (dir_watches s).
  destruct (_ =? -1); [|reflexivity].
  rewrite bind_printlogf. unfold ret, with_trace. simpl. rewrite <- app_assoc. reflexivity.
Qed.

(** What every insertion of a subtree and every removal keep, and the log
    and the syncs leave alone, holds after every event, every turn of the
    master loop and the whole run. *)
Section Keeps.
Variables (cfg : config) (env : environment).
Variable Inv : state -> Prop.
Variable par_ok : state -> Z -> Prop.
Variable ev_ok : inotify_event -> Prop.
Hypothesis Inv_frame : forall s s', same_table s s' -> Inv s -> Inv s'.
Hypothesis par_ok_frame : forall s s' p, same_table s s' -> par_ok s p -> par_ok s' p.
Hypothesis par_ok_event :
  forall s event,
    ev_ok event -> Inv s ->
    get_dirwatch_offset (dir_watches s) (ev_wd event) <> -1 ->
    par_ok s (get_dirwatch_offset (dir_watches s) (ev_wd event)).
Hypothesis Inv_add :
  forall fuel dname destn recursive par s s',
    Inv s -> par_ok s par ->
    final_state (add_dirwatch cfg env fuel dname destn recursive par s) = Some s' -> Inv s'.
Hypothesis Inv_remove :
  forall fuel name par s s',
    Inv s -> final_state (remove_dirwatch fuel name par s) = Some s' -> Inv s'.

Lemma keeps_frame (s s' : state) : same_table s s' -> (Inv s -> Inv s').
Proof. apply Inv_frame. Qed.

Lemma keeps_trans (a b c : state) : (Inv a -> Inv b) -> (Inv b -> Inv c) -> Inv a -> Inv c.
Proof. auto. Qed.

Lemma handle_event_dirs_keeps (fuel : nat) (event : inotify_event) (i : Z) (s s' : state) :
  Inv s -> par_ok s i ->
  final_state (handle_event_dirs cfg env fuel event i s) = Some s' -> Inv s'.
Proof.
  intros HI Hi H. unfold handle_event_dirs in H.
  apply final_state_bind in H as [([] & s1 & E & H)|[Hr H]].
  - assert (Inv s1) as HI1.
    { destruct (_ && _) in E.
      - apply then_ret_returned in E as [b E].
        apply (Inv_add fuel (ev_name event) None false i s s1 HI Hi). rewrite E. reflexivity.
      - injection E as <-. exact HI. }
    destruct (_ && _) in H.
    + rewrite final_state_then_ret in H. exact (Inv_remove _ _ _ _ _ HI1 H).
    + injection H as <-. exact HI1.
  - destruct (_ && _) in H, Hr; [|discriminate].
    rewrite final_state_then_ret in H. exact (Inv_add _ _ _ _ _ _ _ HI Hi H).
Qed.

Lemma handle_event_keeps (fuel : nat) (event : inotify_event) (s s' : state) :
  ev_ok event -> Inv s ->
  final_state (handle_event cfg env fuel event s) = Some s' -> Inv s'.
Proof.
  intros Hev HI H. rewrite handle_event_run in H. cbv zeta in H.
  destruct (has_bits IN_IGNORED (ev_mask event));
    [injection H as <-; exact (Inv_frame _ _ (same_table_with_trace _ _) HI)|].
  destruct (excluded cfg (ev_name event));
    [injection H as <-; exact (Inv_frame _ _ (same_table_with_trace _ _) HI)|].
  destruct (Z.eqb_spec (get_dirwatch_offset (dir_watches s) (ev_wd event)) (-1)) as [Hi|Hi].
  - injection H as <-. exact (Inv_frame _ _ (same_table_with_trace _ _) HI).
  - pose proof (par_ok_event s event Hev HI Hi) as Hpar.
    set (s0 := with_trace s [log_event]) in *.
    assert (HI0 : Inv s0) by exact (Inv_frame _ _ (same_table_with_trace _ _) HI).
    assert (Hpar0 : par_ok s0 (get_dirwatch_offset (dir_watches s) (ev_wd event)))
      by exact (par_ok_frame _ _ _ (same_table_with_trace _ _) Hpar).
    apply final_state_bind in H as [([] & s1 & E & H)|[_ H]].
    + assert (Inv s1) as HI1.
      { apply (handle_event_dirs_keeps fuel event _ s0 s1 HI0 Hpar0). rewrite E. reflexivity. }
      exact (relates_handle_event_sync (fun a b => Inv a -> Inv b) keeps_frame keeps_trans
               cfg env event _ s1 s' H HI1).
    + exact (handle_event_dirs_keeps fuel event _ s0 s' HI0 Hpar0 H).
Qed.

Lemma for_each_keeps {A : Type} (P : A -> Prop) (body : A -> M unit) (l : list A) :
  (forall x s s', P x -> Inv s -> final_state (body x s) = Some s' -> Inv s') ->
  Forall P l ->
  forall s s', Inv s -> final_state (for_each l body s) = Some s' -> Inv s'.
Proof.
  intros Hbody. induction 1 as [|x l Hx _ IH]; intros s s' HI H; cbn [for_each] in H.
  - injection H as <-. exact HI.
  - apply final_state_bind in H as [([] & s1 & E & H)|[_ H]].
    + apply (IH s1 s'); [|exact H]. apply (Hbody x s s1 Hx HI). rewrite E. reflexivity.
    + exact (Hbody x s s' Hx HI H).
Qed.

Lemma handle_events_keep (depth : nat) (events : list inotify_event) :
  Forall ev_ok events ->
  forall s s',
    Inv s ->
    final_state (for_each events (fun event => handle_event cfg env depth event ;;; ret tt) s)
      = Some s' ->
    Inv s'.
Proof.
  apply (for_each_keeps ev_ok). intros event s s' Hev HI H.
  rewrite final_state_then_ret in H. exact (handle_event_keeps depth event s s' Hev HI H).
Qed.

Hypothesis events_ok : forall t, Forall ev_ok (rd_events (read_inotf env t)).

Lemma master_loop_keeps (depth fuel : nat) :
  forall s s',
    Inv s -> final_state (master_loop cfg env depth fuel s) = Some s' -> Inv s'.
Proof.
  induction fuel as [|f IH]; intros s s' HI H; [discriminate|].
  cbn [master_loop] in H. rewrite bind_ask in H.
  assert (HI1 : Inv (ticked s)) by exact (Inv_frame _ _ (same_table_ticked s) HI).
  destruct (negb (keep_going_at env (clock s))); [injection H as <-; exact HI1|].
  rewrite bind_ask in H.
  assert (HI2 : Inv (ticked (ticked s))) by exact (Inv_frame _ _ (same_table_ticked _) HI1).
  destruct (rd_len _ <? 0).
  { rewrite bind_printlogf in H. injection H as <-.
    exact (Inv_frame _ _ (same_table_with_trace _ _) HI2). }
  destruct (rd_len _ =? 0).
  { rewrite bind_printlogf in H. injection H as <-.
    exact (Inv_frame _ _ (same_table_with_trace _ _) HI2). }
  apply final_state_bind in H as [([] & s1 & E & H)|[_ H]].
  - apply (IH s1 s'); [|exact H].
    apply (handle_events_keep depth _ (events_ok (clock (ticked s))) _ s1 HI2).
    rewrite E. reflexivity.
  - exact (handle_events_keep depth _ (events_ok (clock (ticked s))) _ s' HI2 H).
Qed.

Lemma lsyncd_run_keeps (option_source : string) (depth fuel : nat) (s s' : state) :
  Inv s -> par_ok s (-1) ->
  final_state (lsyncd_run cfg env option_source depth fuel s) = Some s' -> Inv s'.
Proof.
  intros HI Hroot H. unfold lsyncd_run in H.
  apply final_state_bind in H as [(b & s1 & E & H)|[_ H]];
    [|exact (Inv_add _ _ _ _ _ _ _ HI Hroot H)].
  assert (HI1 : Inv s1).
  { apply (Inv_add depth option_source (Some "") true (-1) s s1 HI Hroot).
    rewrite E. reflexivity. }
  apply final_state_bind in H as [(synced & s2 & E2 & H)|[_ H]];
    [|exact (relates_rsync (fun a b => Inv a -> Inv b) keeps_frame _ _ _ _ _ _ _ H HI1)].
  assert (HI2 : Inv s2).
  { apply (relates_rsync (fun a b => Inv a -> Inv b) keeps_frame cfg env option_source
             (option_target cfg) true s1 s2); [rewrite E2; reflexivity|exact HI1]. }
  destruct (negb synced).
  - rewrite bind_printlogf in H. injection H as <-.
    exact (Inv_frame _ _ (same_table_with_trace _ _) HI2).
  - rewrite bind_printlogf in H. rewrite final_state_then_ret in H.
    refine (master_loop_keeps depth fuel _ s' _ H).
    exact (Inv_frame _ _ (same_table_with_trace _ _) HI2).
Qed.

End Keeps.

(** *** Removal, by name or by slot *)

Lemma remove_dirwatch_negative (fuel : nat) (par : Z) (s s' : state) (b : bool) :
  par < 0 -> remove_dirwatch fuel None par s <> Ret b s'.
Proof.
  intros Hpar H. destruct fuel as [|f]; [discriminate|].
  rewrite remove_dirwatch_unfold in H.
  destruct (for_each _ _ s) as [[] s1| | |]; try discriminate.
  unfold release, bind, get_watches, slot in H.
  destruct (Z.ltb_spec par 0); [discriminate|lia].
Qed.

Lemma closed_under_children_nil (dws : list dir_watch) : closed_under_children dws [].
Proof. intros p i Hp. exfalso. exact (not_elem_of_nil _ Hp). Qed.

(** However a removal ends, it has given up the slots of a set that holds
    the children in use of each of its members, and nothing else. *)
Lemma remove_dirwatch_kills (fuel : nat) (name : option string) (par : Z) (s s' : state) :
  final_state (remove_dirwatch fuel name par s) = Some s' ->
  exists K,
    dir_watches s' = kill K (dir_watches s) /\
    dir_watch_size s' = dir_watch_size s /\
    closed_under_children (dir_watches s) K.
Proof.
  intros H.
  destruct (stops_nowhere_returns _ s s' (stops_remove_dirwatch _ _ fuel name par) H) as [b Hr].
  clear H.
  assert (forall dw, remove_dirwatch fuel None dw s = Ret b s' ->
                     exists K, dir_watches s' = kill K (dir_watches s) /\
                               dir_watch_size s' = dir_watch_size s /\
                               closed_under_children (dir_watches s) K) as Hnone.
  { intros dw Hdw. destruct (Z.ltb_spec dw 0) as [Hneg|Hpos].
    - exfalso. exact (remove_dirwatch_negative fuel dw s s' b Hneg Hdw).
    - rewrite <- (Z2Nat.id dw Hpos) in Hdw.
      destruct (remove_dirwatch_any fuel _ s s' b Hdw) as (K & HK & Hz & _ & _ & Hcl).
      exists K. auto. }
  destruct name as [nm|]; [|exact (Hnone par Hr)].
  destruct (find_child (dir_watches s) nm par) as [dw|] eqn:Ef.
  - rewrite (remove_dirwatch_by_name fuel nm par dw s Ef) in Hr. exact (Hnone _ Hr).
  - destruct fuel as [|f]; [discriminate|].
    cbn [remove_dirwatch] in Hr. rewrite bind_get_watches, Ef in Hr. simpl in Hr.
    destruct (slot (dir_watches s) par); [|discriminate].
    rewrite bind_printlogf in Hr. injection Hr as _ <-.
    exists []. rewrite kill_nil. repeat split. apply closed_under_children_nil.
Qed.

Lemma live_slot_kill (K : list nat) (dws : list dir_watch) (i : nat) (n : dir_watch) :
  kill K dws !! i = Some n -> 0 <= wd n -> dws !! i = Some n /\ i ∉ K.
Proof.
  rewrite kill_lookup. destruct (dws !! i) as [m|]; [|discriminate]. simpl.
  case_bool_decide; intros [= <-] Hlive; [simpl in Hlive; lia|]. auto.
Qed.

Lemma live_chain_kill (K : list nat) (dws : list dir_watch) :
  closed_under_children dws K ->
  forall p, live_chain dws p -> (p = -1 \/ Z.to_nat p ∉ K) -> live_chain (kill K dws) p.
Proof.
  intros Hcl. induction 1 as [|p n Hn Hlive Hup IH]; intros Hp; [constructor|].
  destruct Hp as [->|Hp]; [constructor|].
  apply slot_nat in Hn as [Hp0 Hn].
  apply (live_chain_node _ p n).
  - unfold slot. destruct (Z.ltb_spec p 0); [lia|].
    rewrite kill_lookup_out by exact Hp. exact Hn.
  - exact Hlive.
  - apply IH. destruct (Z.eq_dec (parent n) (-1)) as [Hroot|Hroot]; [left; exact Hroot|].
    right. intros HK. apply Hp. apply (Hcl _ _ HK).
    unfold is_child_at, is_child_of. rewrite Hn.
    inversion Hup as [Hr|q m Hq _ _ Hqe]; [congruence|]. subst q.
    apply slot_nat in Hq as [Hq0 _].
    apply andb_true_intro. split; [apply Z.leb_le; exact Hlive|].
    apply Z.eqb_eq. rewrite Z2Nat.id by exact Hq0. reflexivity.
Qed.

Lemma sound_table_kill (K : list nat) (dws : list dir_watch) :
  closed_under_children dws K -> sound_table dws -> sound_table (kill K dws).
Proof.
  intros Hcl Hs i n Hn Hlive.
  destruct (live_slot_kill K dws i n Hn Hlive) as [Hn0 HiK].
  destruct (Hs i n Hn0 Hlive) as [Hname Hup]. split; [exact Hname|].
  apply (live_chain_kill K dws Hcl _ Hup).
  destruct (Z.eq_dec (parent n) (-1)) as [Hroot|Hroot]; [left; exact Hroot|].
  right. intros HK. apply HiK. apply (Hcl _ _ HK).
  unfold is_child_at, is_child_of. rewrite Hn0.
  inversion Hup as [Hr|q m Hq _ _ Hqe]; [congruence|]. subst q.
  apply slot_nat in Hq as [Hq0 _].
  apply andb_true_intro. split; [apply Z.leb_le; exact Hlive|].
  apply Z.eqb_eq. rewrite Z2Nat.id by exact Hq0. reflexivity.
Qed.

(** *** The allocation *)

Lemma allocated_frame (s s' : state) : same_table s s' -> allocated s -> allocated s'.
Proof.
  intros [Hd Hz] [H0 H1]. unfold allocated, dir_watch_num in *. rewrite Hd, Hz. auto.
Qed.

Lemma add_watch_allocated (env : environment) (pathname dname : string)
    (destn : option string) (par : Z) (s : state) (dw : Z) (s' : state) :
  allocated s ->
  add_watch env pathname dname destn par s = Ret dw s' ->
  -1 <= dw < dir_watch_size s /\ dir_watch_size s <= dir_watch_size s' /\ allocated s'.
Proof.
  intros [H0 H1] H. unfold dir_watch_num in H1.
  destruct (Z.eq_dec (inotify_add_watch env (clock s) pathname) (-1)) as [Hw|Hw].
  - rewrite (add_watch_refused _ _ _ _ _ _ Hw) in H. injection H as <- <-.
    repeat split; simpl; try lia. exact H1.
  - destruct (add_watch_any env pathname dname destn par s Hw)
      as (dws' & size' & Ea & _ & _ & _ & Hcase).
    rewrite Ea in H. injection H as <- <-.
    pose proof (find_unused_le (dir_watches s)) as Hle.
    unfold allocated, dir_watch_num. cbn [dir_watches dir_watch_size].
    destruct Hcase as [(Hnew & Hlen & Hsize)|(Hlen & Hsize & _)]; rewrite Hlen, Hsize.
    + destruct (Z.leb_spec (dir_watch_size s) (Z.of_nat (length (dir_watches s)) + 1)); lia.
    + lia.
Qed.

Lemma add_dirwatch_allocated (cfg : config) (env : environment) (fuel : nat)
    (dname : string) (destn : option string) (recursive : bool) (par : Z) (s s' : state) :
  allocated s ->
  final_state (add_dirwatch cfg env fuel dname destn recursive par s) = Some s' ->
  allocated s'.
Proof.
  intros HI H.
  refine (add_dirwatch_relates cfg env (fun a b => allocated a -> allocated b)
            (fun _ _ => True) allocated_frame _ _ _ _ fuel dname destn recursive par s s' I H HI);
    try tauto.
  intros pathname dn de p a dw b _ _ Ea _. split; [|exact I].
  intros Ha. exact (proj2 (proj2 (add_watch_allocated _ _ _ _ _ _ _ _ Ha Ea))).
Qed.

Lemma remove_dirwatch_allocated (fuel : nat) (name : option string) (par : Z) (s s' : state) :
  allocated s ->
  final_state (remove_dirwatch fuel name par s) = Some s' -> allocated s'.
Proof.
  intros [H0 H1] H. destruct (remove_dirwatch_kills fuel name par s s' H) as (K & HK & Hz & _).
  unfold allocated, dir_watch_num in *. rewrite HK, Hz, length_kill. auto.
Qed.

(** *** The exclude table *)

Lemma add_watch_honours_excludes (cfg : config) (env : environment) (pathname dname : string)
    (destn : option string) (par : Z) (s : state) (dw : Z) (s' : state) :
  excluded cfg dname = false ->
  add_watch env pathname dname destn par s = Ret dw s' ->
  honours_excludes cfg (dir_watches s) -> honours_excludes cfg (dir_watches s').
Proof.
  intros Hex H Hh.
  destruct (Z.eq_dec (inotify_add_watch env (clock s) pathname) (-1)) as [Hw|Hw].
  - rewrite (add_watch_refused _ _ _ _ _ _ Hw) in H. injection H as _ <-. exact Hh.
  - destruct (add_watch_any env pathname dname destn par s Hw)
      as (dws' & size' & Ea & _ & Hnew & Hold & _).
    rewrite Ea in H. injection H as _ <-. cbn [dir_watches].
    intros i n nm Hn Hlive Hnm.
    destruct (decide (i = find_unused (dir_watches s))) as [->|Hi].
    + rewrite Hnew in Hn. injection Hn as <-. simpl in Hnm. injection Hnm as <-. exact Hex.
    + rewrite (Hold i Hi) in Hn. exact (Hh i n nm Hn Hlive Hnm).
Qed.

Lemma add_dirwatch_honours_excludes (cfg : config) (env : environment) (fuel : nat)
    (dname : string) (destn : option string) (recursive : bool) (par : Z) (s s' : state) :
  honours_excludes cfg (dir_watches s) ->
  final_state (add_dirwatch cfg env fuel dname destn recursive par s) = Some s' ->
  honours_excludes cfg (dir_watches s').
Proof.
  intros HI H.
  refine (add_dirwatch_relates cfg env
            (fun a b => honours_excludes cfg (dir_watches a) ->
                        honours_excludes cfg (dir_watches b))
            (fun _ _ => True) _ _ _ _ _ fuel dname destn recursive par s s' I H HI);
    try tauto.
  - intros a b [Hd _]. rewrite Hd. tauto.
  - intros pathname dn de p a dw b _ Hex Ea _. split; [|exact I].
    exact (add_watch_honours_excludes cfg env _ _ _ _ _ _ _ Hex Ea).
Qed.

Lemma remove_dirwatch_honours_excludes (cfg : config) (fuel : nat) (name : option string)
    (par : Z) (s s' : state) :
  honours_excludes cfg (dir_watches s) ->
  final_state (remove_dirwatch fuel name par s) = Some s' ->
  honours_excludes cfg (dir_watches s').
Proof.
  intros Hh H. destruct (remove_dirwatch_kills fuel name par s s' H) as (K & HK & _).
  rewrite HK. intros i n nm Hn Hlive Hnm.
  destruct (live_slot_kill K _ i n Hn Hlive) as [Hn0 _]. exact (Hh i n nm Hn0 Hlive Hnm).
Qed.

(** *** The shape of the table *)

Lemma add_watch_sound (env : environment) (pathname dname : string)
    (destn : option string) (par : Z) (s : state) (dw : Z) (s' : state) :
  kernel_sane env ->
  live_chain (dir_watches s) par ->
  add_watch env pathname dname destn par s = Ret dw s' -> dw <> -1 ->
  grows (dir_watches s) (dir_watches s') /\
  (sound_table (dir_watches s) -> sound_table (dir_watches s')) /\
  live_chain (dir_watches s') dw.
Proof.
  intros Hk Hpar H Hdw.
  destruct (Z.eq_dec (inotify_add_watch env (clock s) pathname) (-1)) as [Hw|Hw].
  - rewrite (add_watch_refused _ _ _ _ _ _ Hw) in H. injection H as <- _. congruence.
  - destruct (add_watch_any env pathname dname destn par s Hw)
      as (dws' & size' & Ea & Hg & Hnew & Hold & _).
    rewrite Ea in H. injection H as <- <-. cbn [dir_watches].
    pose proof (Hk (clock s) pathname) as Hw1.
    pose proof (live_chain_grows _ _ _ Hg Hpar) as Hpar'.
    split; [exact Hg|]. split.
    + intros Hs i n Hn Hlive.
      destruct (decide (i = find_unused (dir_watches s))) as [->|Hi].
      * rewrite Hnew in Hn. injection Hn as <-. simpl. split; [eauto|exact Hpar'].
      * rewrite (Hold i Hi) in Hn. destruct (Hs i n Hn Hlive) as [Hname Hup].
        split; [exact Hname|exact (live_chain_grows _ _ _ Hg Hup)].
    + apply (live_chain_node _ _ (mk_dir_watch (inotify_add_watch env (clock s) pathname)
                                     (Some dname) destn par)).
      * rewrite slot_of_nat. exact Hnew.
      * simpl. lia.
      * exact Hpar'.
Qed.

Lemma add_dirwatch_grows_sound (cfg : config) (env : environment) (fuel : nat)
    (dname : string) (destn : option string) (recursive : bool) (par : Z) (s s' : state) :
  kernel_sane env ->
  live_chain (dir_watches s) par ->
  final_state (add_dirwatch cfg env fuel dname destn recursive par s) = Some s' ->
  grows (dir_watches s) (dir_watches s') /\
  (sound_table (dir_watches s) -> sound_table (dir_watches s')).
Proof.
  intros Hk Hpar H.
  refine (add_dirwatch_relates cfg env
            (fun a b => grows (dir_watches a) (dir_watches b) /\
                        (sound_table (dir_watches a) -> sound_table (dir_watches b)))
            (fun a p => live_chain (dir_watches a) p)
            _ _ _ _ _ fuel dname destn recursive par s s' Hpar H).
  - intros a b [Hd _]. rewrite Hd. split; [apply grows_refl|tauto].
  - intros a b c [Hg1 Hs1] [Hg2 Hs2]. split; [exact (grows_trans _ _ _ Hg1 Hg2)|tauto].
  - intros a b p [Hd _]. rewrite Hd. tauto.
  - intros a b p [Hg _]. exact (live_chain_grows _ _ _ Hg).
  - intros pathname dn de p a dw b Hp _ Ea Hdw.
    destruct (add_watch_sound env _ _ _ _ _ _ _ Hk Hp Ea Hdw) as (Hg & Hs & Hc). auto.
Qed.

Lemma sound_table_live_chain (dws : list dir_watch) (p : Z) (n : dir_watch) :
  sound_table dws -> slot dws p = Some n -> 0 <= wd n -> live_chain dws p.
Proof.
  intros Hs Hn Hlive. pose proof (slot_nat _ _ _ Hn) as [_ Hn'].
  exact (live_chain_node dws p n Hn Hlive (proj2 (Hs _ _ Hn' Hlive))).
Qed.

(** ** Invariants of the watch table *)

(** X1 (add_watch, lines 446-494): when the slots in use are fewer than
    the allocated ones, [add_watch] returns -1 or an index below
    [dir_watch_size] as it is at the write of lines 476-491, never shrinks
    the allocation, and leaves the slots in use fewer than the allocated
    ones. *)
Theorem add_watch_within_allocation (env : environment) (pathname dname : string)
    (destn : option string) (par : Z) (s : state) (dw : Z) (s' : state) :
  allocated s ->
  add_watch env pathname dname destn par s = Ret dw s' ->
  -1 <= dw < dir_watch_size s' /\
  dir_watch_size s <= dir_watch_size s' /\
  allocated s'.
Proof.
  intros Ha H. destruct (add_watch_allocated env pathname dname destn par s dw s' Ha H)
    as (Hdw & Hsize & Ha').
  repeat split; try lia; apply Ha'.
Qed.

Lemma add_watch_within_allocation_witness :
  exists s',
    add_watch env_session "/tmp/src//b" "b" None 0 (mk_state two_watches 3 0 []) = Ret 2 s' /\
    (-1 <= 2 < dir_watch_size s' /\
     dir_watch_size (mk_state two_watches 3 0 []) <= dir_watch_size s' /\
     allocated s').
Proof.
  eexists. split; [vm_compute; reflexivity|].
  apply (add_watch_within_allocation env_session "/tmp/src//b" "b" None 0
           (mk_state two_watches 3 0 [])).
  - split; reflexivity.
  - vm_compute. reflexivity.
Defined.

(** X2 (main, master_loop, handle_event, add_dirwatch, remove_dirwatch,
    add_watch): in whatever world the daemon runs and however its run
    ends, the slots in use are fewer than the allocated ones, the
    allocation having started with the two slots of line 1086. *)
Theorem lsyncd_run_allocated (cfg : config) (env : environment) (option_source : string)
    (depth fuel : nat) (s' : state) :
  final_state (lsyncd_run cfg env option_source depth fuel initial_state) = Some s' ->
  allocated s'.
Proof.
  intros H.
  refine (lsyncd_run_keeps cfg env allocated (fun _ _ => True) (fun _ => True)
            allocated_frame _ _ _ _ _ option_source depth fuel initial_state s' _ I H).
  - tauto.
  - tauto.
  - intros f dname destn recursive par a b Ha _. exact (add_dirwatch_allocated _ _ _ _ _ _ _ _ _ Ha).
  - intros f name par a b. apply remove_dirwatch_allocated.
  - intros t. apply Forall_forall. tauto.
  - split; reflexivity.
Qed.

Lemma lsyncd_run_allocated_witness :
  exists s',
    final_state (lsyncd_run cfg_plain env_session "/tmp/src/" 5 5 initial_state) = Some s' /\
    length (dir_watches s') = 4%nat /\ dir_watch_size s' = 8 /\ allocated s'.
Proof.
  eexists. split; [vm_compute; reflexivity|]. split; [reflexivity|]. split; [reflexivity|].
  apply (lsyncd_run_allocated cfg_plain env_session "/tmp/src/" 5 5). vm_compute. reflexivity.
Defined.

(** X3 (main, master_loop, handle_event, add_dirwatch, lines 581-585):
    in whatever world the daemon runs and however its run ends, no slot in
    use carries a name of the exclude table. *)
Theorem lsyncd_run_honours_excludes (cfg : config) (env : environment)
    (option_source : string) (depth fuel : nat) (s' : state) :
  final_state (lsyncd_run cfg env option_source depth fuel initial_state) = Some s' ->
  honours_excludes cfg (dir_watches s').
Proof.
  intros H.
  refine (lsyncd_run_keeps cfg env (fun a => honours_excludes cfg (dir_watches a))
            (fun _ _ => True) (fun _ => True)
            _ _ _ _ _ _ option_source depth fuel initial_state s' _ I H).
  - intros a b [Hd _]. rewrite Hd. tauto.
  - tauto.
  - tauto.
  - intros f dname destn recursive par a b Ha _.
    exact (add_dirwatch_honours_excludes _ _ _ _ _ _ _ _ _ Ha).
  - intros f name par a b. apply remove_dirwatch_honours_excludes.
  - intros t. apply Forall_forall. tauto.
  - intros i n nm Hn. discriminate.
Qed.

Lemma lsyncd_run_honours_excludes_witness :
  exists s',
    final_state
      (lsyncd_run (mk_config false true "host::module/" "/usr/bin/rsync" None ["e"])
         env_session "/tmp/src/" 5 5 initial_state) = Some s' /\
    dirname <$> dir_watches s' = [Some "/tmp/src/"; Some "d"] /\
    honours_excludes (mk_config false true "host::module/" "/usr/bin/rsync" None ["e"])
      (dir_watches s').
Proof.
  eexists. split; [vm_compute; reflexivity|]. split; [reflexivity|].
  apply (lsyncd_run_honours_excludes
           (mk_config false true "host::module/" "/usr/bin/rsync" None ["e"])
           env_session "/tmp/src/" 5 5).
  vm_compute. reflexivity.
Defined.

(** X4 (remove_dirwatch, lines 630-672): in a table where every slot in
    use has a name and only slots in use above it, a removal, by name or
    by slot and however deep it goes, leaves such a table: no slot in use
    is left below a slot that was given up.  It changes neither the number
    of slots nor the allocation, and every slot in use after it is a slot
    that was in use before, unchanged. *)
Theorem remove_dirwatch_sound (fuel : nat) (name : option string) (par : Z) (s s' : state) :
  sound_table (dir_watches s) ->
  final_state (remove_dirwatch fuel name par s) = Some s' ->
  sound_table (dir_watches s') /\
  length (dir_watches s') = length (dir_watches s) /\
  dir_watch_size s' = dir_watch_size s /\
  forall i n, dir_watches s' !! i = Some n -> 0 <= wd n -> dir_watches s !! i = Some n.
Proof.
  intros Hs H. destruct (remove_dirwatch_kills fuel name par s s' H) as (K & HK & Hz & Hcl).
  rewrite HK. split; [|split; [|split]].
  - exact (sound_table_kill K _ Hcl Hs).
  - apply length_kill.
  - exact Hz.
  - intros i n Hn Hlive. exact (proj1 (live_slot_kill K _ i n Hn Hlive)).
Qed.

Lemma sound_table_four_watches : sound_table four_watches.
Proof.
  assert (H0 : live_chain four_watches 0).
  { apply (live_chain_node _ 0 (mk_dir_watch 1 (Some "/tmp/src/") (Some "") (-1)));
      [reflexivity|simpl; lia|constructor]. }
  assert (H2 : live_chain four_watches 2).
  { apply (live_chain_node _ 2 (mk_dir_watch 2 (Some "a") None 0));
      [reflexivity|simpl; lia|exact H0]. }
  intros [|[|[|[|i]]]] n Hn Hlive; try discriminate; injection Hn as <-; simpl;
    (split; [eauto|]); try exact H0; try exact H2. constructor.
Qed.

Lemma remove_dirwatch_sound_witness :
  exists s',
    final_state (remove_dirwatch 6 (Some "a") 0 state_four_watches) = Some s' /\
    wd <$> dir_watches s' = [1; -1; -1; 4] /\
    sound_table (dir_watches s').
Proof.
  eexists. split; [vm_compute; reflexivity|]. split; [reflexivity|].
  apply (remove_dirwatch_sound 6 (Some "a") 0 state_four_watches).
  - exact sound_table_four_watches.
  - vm_compute. reflexivity.
Defined.

(** X5 (add_dirwatch, lines 567-621; add_watch, lines 462-491): with a
    kernel that answers with a descriptor or -1 and a parent that is the
    root or a slot in use with only slots in use above it, [add_dirwatch],
    however it ends and whatever the file system holds, overwrites no slot
    in use and does not shrink the table; and if every slot in use had a
    name and only slots in use above it, that is so afterwards. *)
Theorem add_dirwatch_sound (cfg : config) (env : environment) (fuel : nat)
    (dname : string) (destn : option string) (recursive : bool) (par : Z) (s s' : state) :
  kernel_sane env ->
  live_chain (dir_watches s) par ->
  final_state (add_dirwatch cfg env fuel dname destn recursive par s) = Some s' ->
  grows (dir_watches s) (dir_watches s') /\
  (sound_table (dir_watches s) -> sound_table (dir_watches s')).
Proof. apply add_dirwatch_grows_sound. Qed.

Lemma kernel_sane_env_session : kernel_sane env_session.
Proof. intros t p. simpl. lia. Qed.

Lemma add_dirwatch_sound_witness :
  exists s',
    final_state (add_dirwatch cfg_plain env_session 5 "d" None false 0 state_four_watches)
      = Some s' /\
    dirname <$> dir_watches s' =
      [Some "/tmp/src/"; Some "b"; Some "a"; Some "c"; Some "d"; Some "e"; Some "f"] /\
    sound_table (dir_watches s').
Proof.
  eexists. split; [vm_compute; reflexivity|]. split; [reflexivity|].
  apply (add_dirwatch_sound cfg_plain env_session 5 "d" None false 0 state_four_watches).
  - exact kernel_sane_env_session.
  - apply (sound_table_live_chain four_watches 0 (mk_dir_watch 1 (Some "/tmp/src/") (Some "") (-1)));
      [exact sound_table_four_watches|reflexivity|simpl; lia].
  - vm_compute. reflexivity.
  - exact sound_table_four_watches.
Defined.

Lemma sound_table_nil : sound_table [].
Proof. intros i n Hn. discriminate. Qed.

(** X6 (main, master_loop, handle_event, add_dirwatch, remove_dirwatch):
    with a kernel that answers [inotify_add_watch] with a descriptor or -1
    and whose events carry the descriptor of a watch, however the run of
    the daemon ends, every slot in use has a name and only slots in use
    above it, up to a root. *)
Theorem lsyncd_run_sound (cfg : config) (env : environment) (option_source : string)
    (depth fuel : nat) (s' : state) :
  kernel_sane env ->
  (forall t, Forall from_a_watch (rd_events (read_inotf env t))) ->
  final_state (lsyncd_run cfg env option_source depth fuel initial_state) = Some s' ->
  sound_table (dir_watches s').
Proof.
  intros Hk Hev H.
  refine (lsyncd_run_keeps cfg env (fun a => sound_table (dir_watches a))
            (fun a p => live_chain (dir_watches a) p) from_a_watch
            _ _ _ _ _ Hev option_source depth fuel initial_state s' sound_table_nil _ H).
  - intros a b [Hd _]. rewrite Hd. tauto.
  - intros a b p [Hd _]. rewrite Hd. tauto.
  - intros a event Hw Hs Hi.
    destruct (get_dirwatch_offset_slot _ _ Hi) as (n & Hn & Hwd).
    apply (sound_table_live_chain _ _ n Hs Hn). unfold from_a_watch in Hw. lia.
  - intros f dname destn recursive par a b Ha Hpar Hf.
    exact (proj2 (add_dirwatch_grows_sound _ _ _ _ _ _ _ _ _ Hk Hpar Hf) Ha).
  - intros f name par a b Ha Hf.
    destruct (remove_dirwatch_kills f name par a b Hf) as (K & HK & _ & Hcl).
    rewrite HK. exact (sound_table_kill K _ Hcl Ha).
  - constructor.
Qed.

Lemma lsyncd_run_sound_witness :
  exists s',
    final_state (lsyncd_run cfg_plain env_session "/tmp/src/" 5 5 initial_state) = Some s' /\
    parent <$> dir_watches s' = [-1; 0; 1; 2] /\
    sound_table (dir_watches s').
Proof.
  eexists. split; [vm_compute; reflexivity|]. split; [reflexivity|].
  apply (lsyncd_run_sound cfg_plain env_session "/tmp/src/" 5 5).
  - exact kernel_sane_env_session.
  - intros t. simpl. destruct (t <=? 6)%nat; repeat constructor.
    unfold from_a_watch. simpl. lia.
  - vm_compute. reflexivity.
Defined.

(** ** Paths in a sound table *)

Lemma live_chain_stack (dws : list dir_watch) (p : Z) :
  live_chain dws p -> exists k, parent_stack k dws p = Some k.
Proof.
  induction 1 as [|p n Hn Hlive _ [k IH]]; [exists O; reflexivity|].
  exists (S k). cbn [parent_stack]. apply slot_nat in Hn as Hp. destruct Hp as [Hp _].
  destruct (Z.eqb_spec p (-1)); [lia|]. rewrite Hn, IH. reflexivity.
Qed.

(** The walk of line 523 from a slot with only slots in use above it ends
    within as many steps as the table has slots. *)
Lemma live_chain_rooted (dws : list dir_watch) (p : Z) :
  live_chain dws p -> is_Some (parent_stack (length dws) dws p).
Proof.
  intros Hp. destruct (live_chain_stack dws p Hp) as [k Hk].
  destruct (live_chain_nodes dws k p k Hp Hk) as (l & Hlen & Hnd & Hl).
  assert (Hsub : l ⊆+ seq 0 (length dws)).
  { apply NoDup_submseteq; [exact Hnd|].
    intros x Hx. apply elem_of_seq. split; [lia|]. simpl.
    destruct (Hl _ Hx) as ((n & Hn & _) & _). exact (lookup_lt_Some _ _ _ Hn). }
  apply submseteq_length in Hsub. rewrite length_seq in Hsub.
  exists k. apply (parent_stack_mono_le dws k); [lia|exact Hk].
Qed.




(** ** Looking a descriptor up *)

(** X8 (get_dirwatch_offset, lines 681-694): the result is -1 exactly
    when no slot of the table carries the descriptor, in use or not, and
    otherwise the lowest index of a slot that carries it. *)
Theorem get_dirwatch_offset_lowest (dws : list dir_watch) (w : Z) :
  (get_dirwatch_offset dws w = -1 <-> forall j m, dws !! j = Some m -> wd m <> w) /\
  (forall i : nat,
     get_dirwatch_offset dws w = Z.of_nat i <->
     (exists n, dws !! i = Some n /\ wd n = w) /\
     (forall j m, (j < i)%nat -> dws !! j = Some m -> wd m <> w)).
Proof.
  unfold get_dirwatch_offset. split.
  - rewrite <- first_with_wd_none. destruct (first_with_wd dws w); split; try discriminate; auto.
    lia.
  - intros i. destruct (first_with_wd dws w) as [i'|] eqn:E.
    + destruct (first_with_wd_lookup dws w i' E) as [(n' & Hn' & Hw') Hlow']. split.
      * intros Hi. apply Nat2Z.inj in Hi. subst i'. split; [eauto|exact Hlow'].
      * intros [(n & Hn & Hw) Hlow]. f_equal.
        destruct (Nat.lt_trichotomy i i') as [Hlt|[Heq|Hgt]]; [|auto|].
        -- exfalso. exact (Hlow' i n Hlt Hn Hw).
        -- exfalso. exact (Hlow i' n' Hgt Hn' Hw').
    + split; [lia|]. intros [(n & Hn & Hw) _]. exfalso.
      exact (proj1 (first_with_wd_none dws w) E i n Hn Hw).
Qed.

(** X9 (add_watch, lines 446-494; get_dirwatch_offset, lines 681-694):
    when the kernel hands out a descriptor that no slot in use carries,
    the index that [add_watch] returns is the one that
    [get_dirwatch_offset] finds for that descriptor afterwards, and the
    slot there holds the descriptor, the name, the destination name and
    the parent that were given. *)
Theorem add_watch_then_get_dirwatch_offset (env : environment) (pathname dname : string)
    (destn : option string) (par : Z) (s : state) (dw : Z) (s' : state) :
  let w := inotify_add_watch env (clock s) pathname in
  w <> -1 ->
  (forall j m, dir_watches s !! j = Some m -> 0 <= wd m -> wd m <> w) ->
  add_watch env pathname dname destn par s = Ret dw s' ->
  get_dirwatch_offset (dir_watches s') w = dw /\
  slot (dir_watches s') dw = Some (mk_dir_watch w (Some dname) destn par).
Proof.
  intros w Hw Hfresh H.
  destruct (add_watch_any env pathname dname destn par s Hw)
    as (dws' & size' & Ea & _ & Hnew & Hold & _).
  fold w in Hnew. rewrite Ea in H. injection H as <- <-. cbn [dir_watches].
  split; [|rewrite slot_of_nat; exact Hnew].
  unfold get_dirwatch_offset.
  destruct (first_with_wd dws' w) as [i|] eqn:E.
  - destruct (first_with_wd_lookup dws' w i E) as [(n & Hn & Hwn) Hlow]. f_equal.
    destruct (Nat.lt_trichotomy i (find_unused (dir_watches s))) as [Hlt|[Heq|Hgt]]; [|auto|].
    + exfalso. rewrite Hold in Hn by lia.
      pose proof (find_unused_below _ _ _ Hn Hlt) as Hlive.
      exact (Hfresh i n Hn Hlive Hwn).
    + exfalso. exact (Hlow _ _ Hgt Hnew eq_refl).
  - exfalso. exact (proj1 (first_with_wd_none dws' w) E _ _ Hnew eq_refl).
Qed.

Lemma add_watch_then_get_dirwatch_offset_witness :
  exists s',
    add_watch env_session "/tmp/src//b" "b" None 0 state_c_removed = Ret 3 s' /\
    (get_dirwatch_offset (dir_watches s') 10 = 3 /\
     slot (dir_watches s') 3 = Some (mk_dir_watch 10 (Some "b") None 0)).
Proof.
  eexists. split; [vm_compute; reflexivity|].
  apply (add_watch_then_get_dirwatch_offset env_session "/tmp/src//b" "b" None 0 state_c_removed).
  - discriminate.
  - intros [|[|[|[|j]]]] m Hm Hlive; try discriminate; injection Hm as <-; simpl; lia.
  - vm_compute. reflexivity.
Defined.

(** ** Events that the dispatcher drops, and one it should *)

(** X10 (handle_event, lines 727-742): an event with the bit [IN_IGNORED],
    or about a name of the exclude table, is answered with [true] after the
    debug line, and an event whose descriptor no slot carries with [false]
    after the error line; in both cases the table is left as it is and
    nothing is asked of the outside world. *)
Theorem handle_event_dropped (cfg : config) (env : environment) (fuel : nat)
    (event : inotify_event) (s : state) :
  (has_bits IN_IGNORED (ev_mask event) || excluded cfg (ev_name event) = true ->
   handle_event cfg env fuel event s = Ret true (with_trace s [log_event])) /\
  (has_bits IN_IGNORED (ev_mask event) || excluded cfg (ev_name event) = false ->
   (forall j m, dir_watches s !! j = Some m -> wd m <> ev_wd event) ->
   handle_event cfg env fuel event s =
     Ret false (with_trace s [log_event; log_unknown_descriptor])).
Proof.
  unfold handle_event.
  destruct (build_masktext_total (ev_mask event)) as [t ->].
  rewrite bind_printlogf. split.
  - intros H. destruct (has_bits IN_IGNORED (ev_mask event)); [reflexivity|].
    simpl in H. rewrite H. reflexivity.
  - intros H Hnone. apply orb_false_elim in H as [-> ->].
    rewrite bind_get_watches. cbv zeta.
    change (dir_watches (with_trace s [Printlogf LOG_DEBUG "inotfy event: %s:%s"]))
      with (dir_watches s).
    unfold get_dirwatch_offset.
    rewrite (proj2 (first_with_wd_none (dir_watches s) (ev_wd event)) Hnone).
    simpl. rewrite bind_printlogf. unfold ret, with_trace. simpl.
    rewrite <- app_assoc. reflexivity.
Qed.

Lemma handle_event_dropped_witness :
  handle_event cfg_plain env_session 5 (mk_event 9 IN_CLOSE_WRITE "hello") state_four_watches
  = Ret false (with_trace state_four_watches [log_event; log_unknown_descriptor]).
Proof.
  apply (proj2 (handle_event_dropped cfg_plain env_session 5
                  (mk_event 9 IN_CLOSE_WRITE "hello") state_four_watches)).
  - reflexivity.
  - intros [|[|[|[|j]]]] m Hm; try discriminate; injection Hm as <-; simpl; lia.
Defined.

Lemma first_with_wd_lowest (dws : list dir_watch) (w : Z) (i : nat) (n : dir_watch) :
  dws !! i = Some n -> wd n = w ->
  (forall j m, (j < i)%nat -> dws !! j = Some m -> wd m <> w) ->
  first_with_wd dws w = Some i.
Proof.
  intros Hn Hw Hlow. destruct (first_with_wd dws w) as [i'|] eqn:E.
  - destruct (first_with_wd_lookup dws w i' E) as [(n' & Hn' & Hw') Hlow']. f_equal.
    destruct (Nat.lt_trichotomy i i') as [Hlt|[Heq|Hgt]]; [|auto|].
    + exfalso. exact (Hlow' i n Hlt Hn Hw).
    + exfalso. exact (Hlow i' n' Hgt Hn' Hw').
  - exfalso. exact (proj1 (first_with_wd_none dws w) E i n Hn Hw).
Qed.

Lemma handle_event_dirs_no_dir (cfg : config) (env : environment) (fuel : nat)
    (event : inotify_event) (i : Z) (s : state) :
  has_bits (Z.lor IN_CREATE IN_MOVED_TO) (ev_mask event) && has_bits IN_ISDIR (ev_mask event)
    = false ->
  has_bits (Z.lor IN_DELETE IN_MOVED_FROM) (ev_mask event) && has_bits IN_ISDIR (ev_mask event)
    = false ->
  handle_event_dirs cfg env fuel event i s = Ret tt s.
Proof. intros H1 H2. unfold handle_event_dirs. rewrite H1, H2. reflexivity. Qed.

(** X11 (handle_event, lines 701-782; get_dirwatch_offset, lines 681-694;
    remove_dirwatch, line 661): a slot that was given up carries the
    descriptor -1, which is also the descriptor of the event by which the
    kernel reports an overflow of its queue.  An event with the descriptor
    -1 that is not about a directory is therefore not dropped as unknown:
    [get_dirwatch_offset] answers with the first slot given up, and
    [buildpath] reads the name of that slot, which is [NULL]. *)
Theorem handle_event_descriptor_of_released_slot (cfg : config) (env : environment)
    (fuel : nat) (event : inotify_event) (s : state) (i : nat) (n : dir_watch)
    (up : pathbuf) :
  ev_wd event = -1 ->
  has_bits IN_IGNORED (ev_mask event) = false ->
  excluded cfg (ev_name event) = false ->
  has_bits IN_ISDIR (ev_mask event) = false ->
  dir_watches s !! i = Some n ->
  wd n = -1 ->
  dirname n = None ->
  (forall j m, (j < i)%nat -> dir_watches s !! j = Some m -> wd m <> -1) ->
  live_chain (dir_watches s) (parent n) ->
  buildpath_buf (dir_watches s) (S PATH_MAX) (parent n) None None = BpRet true up ->
  get_dirwatch_offset (dir_watches s) (ev_wd event) = Z.of_nat i /\
  buildpath_buf (dir_watches s) (S PATH_MAX) (Z.of_nat i) None None = BpUndef /\
  handle_event cfg env fuel event s = Undef.
Proof.
  intros Hwd Hign Hex Hdir Hn Hdead Hname Hfirst Hup Hpath.
  assert (Hoff : get_dirwatch_offset (dir_watches s) (ev_wd event) = Z.of_nat i).
  { unfold get_dirwatch_offset. rewrite Hwd.
    rewrite (first_with_wd_lowest _ _ i n Hn Hdead Hfirst). reflexivity. }
  assert (Hbuf : buildpath_buf (dir_watches s) (S PATH_MAX) (Z.of_nat i) None None = BpUndef).
  { rewrite buildpath_buf_walk.
    destruct (live_chain_rooted _ _ Hup) as [k Hk].
    assert (Hshort : (S k <= length (dir_watches s))%nat)
      by (apply (live_chain_short _ _ _ k i n Hup Hk Hn); lia).
    destruct (length (dir_watches s)) as [|f] eqn:Hlen; [lia|].
    cbn [walk_up]. destruct (Z.eqb_spec (Z.of_nat i) (-1)); [lia|].
    rewrite slot_of_nat, Hn.
    rewrite (walk_up_fuel _ _ _ (S f) f _ k _ Hk) by lia.
    rewrite <- Hlen.
    rewrite (proj1 (buildpath_buf_walk_ok _ _ _ _) Hpath).
    unfold append_segment, segment. rewrite Hname. reflexivity. }
  split; [exact Hoff|]. split; [exact Hbuf|].
  unfold handle_event.
  destruct (build_masktext_total (ev_mask event)) as [t ->].
  rewrite bind_printlogf, Hign, Hex, bind_get_watches. cbv zeta.
  change (dir_watches (with_trace s [Printlogf LOG_DEBUG "inotfy event: %s:%s"]))
    with (dir_watches s).
  rewrite Hoff. destruct (Z.eqb_spec (Z.of_nat i) (-1)); [lia|].
  unfold bind at 1.
  rewrite handle_event_dirs_no_dir by (rewrite Hdir; apply andb_false_r).
  unfold handle_event_sync, bind at 1. rewrite buildpath_run.
  change (dir_watches (with_trace s [Printlogf LOG_DEBUG "inotfy event: %s:%s"]))
    with (dir_watches s).
  rewrite Hbuf. reflexivity.
Qed.

Lemma handle_event_descriptor_of_released_slot_witness :
  get_dirwatch_offset (dir_watches state_c_removed) (ev_wd event_overflow) = Z.of_nat 3 /\
  buildpath_buf (dir_watches state_c_removed) (S PATH_MAX) (Z.of_nat 3) None None = BpUndef /\
  handle_event cfg_plain env_session 5 event_overflow state_c_removed = Undef.
Proof.
  apply (handle_event_descriptor_of_released_slot cfg_plain env_session 5 event_overflow
           state_c_removed 3 (mk_dir_watch (-1) None None 0) (mk_pathbuf "/tmp/src//" 11)).
  - reflexivity.
  - reflexivity.
  - reflexivity.
  - reflexivity.
  - reflexivity.
  - reflexivity.
  - reflexivity.
  - intros [|[|[|j]]] m Hj Hm; try lia; injection Hm as <-; simpl; lia.
  - apply (live_chain_node _ 0 (mk_dir_watch 1 (Some "/tmp/src/") (Some "") (-1)));
      [reflexivity|simpl; lia|constructor].
  - vm_compute. reflexivity.
Defined.

Lemma has_bits_lor (a b m : Z) :
  has_bits (Z.lor a b) m = has_bits a m || has_bits b m.
Proof.
  unfold has_bits. rewrite Z.land_lor_distr_l.
  destruct (Z.eqb_spec (Z.lor (Z.land a m) (Z.land b m)) 0) as [H|H].
  - apply Z.lor_eq_0_iff in H as [-> ->]. reflexivity.
  - destruct (Z.eqb_spec (Z.land a m) 0) as [Ha|Ha]; [|reflexivity].
    destruct (Z.eqb_spec (Z.land b m) 0) as [Hb|Hb]; [|reflexivity].
    exfalso. apply H. rewrite Ha, Hb. reflexivity.
Qed.

Lemma sync_mask_bits (m : Z) :
  has_bits sync_mask m = false ->
  has_bits (Z.lor IN_CREATE IN_MOVED_TO) m = false /\
  has_bits (Z.lor IN_DELETE IN_MOVED_FROM) m = false.
Proof.
  unfold sync_mask. rewrite !has_bits_lor. intros H.
  repeat (apply orb_false_elim in H as [H ?]).
  split; apply orb_false_intro; assumption.
Qed.

(** X12 (handle_event, lines 744-762): an event that has none of the bits
    [IN_CREATE], [IN_CLOSE_WRITE], [IN_DELETE], [IN_MOVED_TO] and
    [IN_MOVED_FROM], such as a change of attributes or the removal of the
    watched directory itself, only writes lines to the log: however
    [handle_event] ends, the table, the allocation and the clock are as
    before, and no sync, no [execv] and no call to the kernel was made. *)
Theorem handle_event_without_sync_bits (cfg : config) (env : environment) (fuel : nat)
    (event : inotify_event) (s s' : state) :
  has_bits sync_mask (ev_mask event) = false ->
  final_state (handle_event cfg env fuel event s) = Some s' ->
  exists tr, s' = with_trace s tr /\ Forall log_line tr.
Proof.
  intros Hbits H. destruct (sync_mask_bits _ Hbits) as [Hadd Hrem].
  assert (Hw2 : forall a b, with_trace (with_trace s a) b = with_trace s (a ++ b)).
  { intros a b. unfold with_trace. simpl. rewrite <- app_assoc. reflexivity. }
  rewrite handle_event_run in H. cbv zeta in H.
  destruct (has_bits IN_IGNORED (ev_mask event));
    [injection H as <-; eexists; split; [reflexivity|repeat constructor]|].
  destruct (excluded cfg (ev_name event));
    [injection H as <-; eexists; split; [reflexivity|repeat constructor]|].
  destruct (_ =? -1);
    [injection H as <-; eexists; split; [reflexivity|repeat constructor]|].
  unfold bind at 1 in H.
  rewrite handle_event_dirs_no_dir in H by (rewrite ?Hadd, ?Hrem; reflexivity).
  unfold handle_event_sync in H. rewrite Hbits in H.
  unfold bind at 1 in H. rewrite buildpath_run in H.
  destruct (buildpath_buf _ _ _ None None) as [| |[|] b1]; try discriminate.
  - injection H as <-. eexists. split; [reflexivity|repeat constructor].
  - simpl in H. unfold bind at 1 in H. rewrite buildpath_run in H.
    destruct (buildpath_buf _ _ _ None (Some _)) as [| |[|] b2]; try discriminate.
    + injection H as <-. eexists. split; [reflexivity|repeat constructor].
    + injection H as <-. eexists. split; [reflexivity|repeat constructor].
    + injection H as <-. rewrite Hw2. eexists. split; [reflexivity|repeat constructor].
  - injection H as <-. rewrite Hw2. eexists. split; [reflexivity|repeat constructor].
Qed.

Lemma handle_event_without_sync_bits_witness :
  exists s',
    final_state (handle_event cfg_plain env_session 5 (mk_event 2 IN_ATTRIB "hello")
                   state_four_watches) = Some s' /\
    exists tr, s' = with_trace state_four_watches tr /\ Forall log_line tr.
Proof.
  eexists. split; [vm_compute; reflexivity|].
  apply (handle_event_without_sync_bits cfg_plain env_session 5 (mk_event 2 IN_ATTRIB "hello")).
  - reflexivity.
  - vm_compute. reflexivity.
Defined.

(** ** How the daemon ends *)



Section StopsRun.
Variables (cfg : config) (env : environment).
Variable E : Z -> Prop.
Variable Q : Prop.
Hypothesis Q_target : option_target cfg = "%wwwuser" -> Q.
Hypothesis Q_signal : forall t sig, waitpid env t = WSignaled sig -> Q.
Hypothesis E_rsync : E LSYNCD_EXECRSYNCFAIL.









End StopsRun.



(** X14 (master_loop, lines 787-815): [master_loop] returns [true] only
    when the last thing it did was to find [keep_going] cleared, and
    [false] only when the last thing it asked of the world was a [read]
    that returned nothing or failed. *)
Theorem master_loop_result (cfg : config) (env : environment) (depth fuel : nat)
    (s s' : state) (b : bool) :
  master_loop cfg env depth fuel s = Ret b s' ->
  exists t, clock s' = S t /\
    if b then keep_going_at env t = false
    else rd_len (read_inotf env t) <= 0.
Proof.
  revert s. induction fuel as [|f IH]; intros s H; [discriminate|].
  cbn [master_loop] in H. rewrite bind_ask in H.
  destruct (keep_going_at env (clock s)) eqn:Hkg; simpl in H.
  - rewrite bind_ask in H.
    destruct (Z.ltb_spec (rd_len (read_inotf env (clock (ticked s)))) 0) as [Hneg|Hpos].
    { rewrite bind_printlogf in H. injection H as <- <-.
      exists (clock (ticked s)). split; [reflexivity|lia]. }
    destruct (Z.eqb_spec (rd_len (read_inotf env (clock (ticked s)))) 0) as [Hz|Hnz].
    { rewrite bind_printlogf in H. injection H as <- <-.
      exists (clock (ticked s)). split; [reflexivity|lia]. }
    unfold bind at 1 in H.
    destruct (for_each _ _ _) as [[] s1| | |]; try discriminate.
    exact (IH s1 H).
  - injection H as <- <-. exists (clock s). split; [reflexivity|exact Hkg].
Qed.

Lemma master_loop_result_witness :
  exists s' t,
    master_loop cfg_plain env_session 5 5 initial_state = Ret false s' /\
    clock s' = S t /\ rd_len (read_inotf env_session t) <= 0.
Proof.
  destruct (master_loop cfg_plain env_session 5 5 initial_state) as [b s'| | |] eqn:Hr;
    try (vm_compute in Hr; discriminate).
  destruct (master_loop_result cfg_plain env_session 5 5 initial_state s' b Hr) as (t & Ht & Hb).
  assert (b = false) as -> by (vm_compute in Hr; congruence).
  exists s', t. auto.
Defined.

(** ** A path that is watched and not entered *)

(** X15 (add_dirwatch, lines 588-596): the test of line 593 adds the
    length of the name to the length of a path that already ends with it.
    When the path of a directory fits [buildpath] but the path and the name
    together have more than [PATH_MAX] - 1 bytes, the watch is put on the
    directory and its slot is filled, and then [add_dirwatch] logs an error
    and returns [false] without opening the directory: none of its
    subdirectories is looked at. *)
Theorem add_dirwatch_long_pathname (cfg : config) (env : environment) (fuel : nat)
    (dname : string) (destn : option string) (recursive : bool) (par : Z) (s : state)
    (pathname : pathbuf) :
  buildpath_buf (dir_watches s) (S PATH_MAX) par (Some dname) None = BpRet true pathname ->
  excluded cfg dname = false ->
  inotify_add_watch env (clock s) (pb_text pathname) <> -1 ->
  (S PATH_MAX < String.length (pb_text pathname) + String.length dname + 2)%nat ->
  exists dws' size',
    add_dirwatch cfg env (S fuel) dname destn recursive par s =
      Ret false
        (mk_state dws' size' (S (clock s))
           (trace s ++ [log_add_dirwatch; InotifyAddWatch (pb_text pathname);
                        Printlogf LOG_ERROR "pathname too long %s//%s"])) /\
    dws' !! find_unused (dir_watches s) =
      Some (mk_dir_watch (inotify_add_watch env (clock s) (pb_text pathname))
              (Some dname) destn par).
Proof.
  intros Hpath Hex Hw Hlong.
  rewrite add_dirwatch_unfold. cbv zeta. rewrite Hpath, Hex.
  destruct (add_watch_any env (pb_text pathname) dname destn par
              (with_trace s [log_add_dirwatch]) Hw)
    as (dws' & size' & Ea & _ & Hnew & _).
  rewrite Ea. cbn [dir_watches with_trace clock trace] in *.
  destruct (Z.eqb_spec (Z.of_nat (find_unused (dir_watches s))) (-1)); [lia|].
  apply Nat.ltb_lt in Hlong. rewrite Hlong.
  exists dws', size'. split; [|exact Hnew].
  unfold with_trace. cbn [dir_watches dir_watch_size clock trace].
  rewrite <- !app_assoc. reflexivity.
Qed.

Lemma add_dirwatch_long_pathname_witness :
  exists dws' size',
    add_dirwatch cfg_plain env_session 5 long_source (Some "") true (-1) initial_state =
      Ret false
        (mk_state dws' size' 1
           [log_add_dirwatch; InotifyAddWatch long_source;
            Printlogf LOG_ERROR "pathname too long %s//%s"]) /\
    dws' !! O = Some (mk_dir_watch 10 (Some long_source) (Some "") (-1)).
Proof.
  apply (add_dirwatch_long_pathname cfg_plain env_session 4 long_source (Some "") true (-1)
           initial_state (strcat pb_empty long_source)).
  - vm_compute. reflexivity.
  - reflexivity.
  - discriminate.
  - vm_compute. lia.
Defined.

(** ** Removing what was removed *)

Lemma find_child_lookup (dws : list dir_watch) (name : string) (par : Z) (i : nat) :
  find_child dws name par = Some i ->
  exists n, dws !! i = Some n /\ is_child_named name par n = true.
Proof.
  revert i. induction dws as [|m r IH]; intros i H; cbn [find_child] in H; [discriminate|].
  destruct (is_child_named name par m) eqn:Hm.
  - injection H as <-. exists m. auto.
  - destruct (find_child r name par) as [i'|]; [|discriminate]. injection H as <-.
    exact (IH i' eq_refl).
Qed.

(** X16 (remove_dirwatch, lines 630-672): when one slot in use at most is
    the child of [par] with the name [name], a removal by that name that
    succeeds leaves no such child: a second removal by the same name finds
    nothing, returns [false] and leaves the table as the first one left
    it. *)
Theorem remove_dirwatch_twice (fuel fuel' : nat) (name : string) (par : Z) (s s' : state) :
  (forall i j n m,
     dir_watches s !! i = Some n -> dir_watches s !! j = Some m ->
     is_child_named name par n = true -> is_child_named name par m = true -> i = j) ->
  is_Some (slot (dir_watches s) par) ->
  remove_dirwatch fuel (Some name) par s = Ret true s' ->
  find_child (dir_watches s') name par = None /\
  remove_dirwatch (S fuel') (Some name) par s' =
    Ret false (with_trace s' [Printlogf LOG_ERROR "Cannot find entry for %s:/:%s :-("]).
Proof.
  intros Huniq [p Hp] H.
  destruct (find_child (dir_watches s) name par) as [dw|] eqn:Ef.
  - rewrite (remove_dirwatch_by_name fuel name par dw s Ef) in H.
    destruct (remove_dirwatch_any fuel dw s s' true H) as (K & HK & _ & HdwK & _).
    destruct (find_child_lookup _ _ _ _ Ef) as (m & Hm & Hcm).
    assert (Hnone : find_child (dir_watches s') name par = None).
    { apply find_child_none. intros i n Hn Hlive Hpar Hname. rewrite HK in Hn.
      destruct (live_slot_kill K _ i n Hn Hlive) as [Hn0 HiK]. apply HiK.
      replace i with dw; [exact HdwK|].
      apply (Huniq dw i m n Hm Hn0 Hcm). unfold is_child_named.
      rewrite (proj2 (Z.leb_le 0 (wd n)) Hlive), (proj2 (Z.eqb_eq _ _) Hpar).
      rewrite bool_decide_eq_true_2 by exact Hname. reflexivity. }
    split; [exact Hnone|].
    cbn [remove_dirwatch]. rewrite bind_get_watches, Hnone. simpl.
    assert (is_Some (slot (dir_watches s') par)) as [q Hq].
    { rewrite HK. apply slot_nat in Hp as [Hp0 Hp]. unfold slot.
      destruct (Z.ltb_spec par 0); [lia|]. rewrite kill_lookup, Hp. simpl. eauto. }
    rewrite Hq. reflexivity.
  - exfalso. destruct fuel as [|f]; [discriminate|].
    cbn [remove_dirwatch] in H. rewrite bind_get_watches, Ef in H. simpl in H.
    rewrite Hp in H. discriminate.
Qed.

Lemma remove_dirwatch_twice_witness :
  exists s',
    remove_dirwatch 6 (Some "a") 0 state_four_watches = Ret true s' /\
    (find_child (dir_watches s') "a" 0 = None /\
     remove_dirwatch 6 (Some "a") 0 s' =
       Ret false (with_trace s' [Printlogf LOG_ERROR "Cannot find entry for %s:/:%s :-("])).
Proof.
  eexists. split; [vm_compute; reflexivity|].
  apply (remove_dirwatch_twice 6 5 "a" 0 state_four_watches).
  - intros [|[|[|[|i]]]] [|[|[|[|j]]]] n m Hn Hm Hcn Hcm; try discriminate; try reflexivity;
      injection Hn as <-; injection Hm as <-; discriminate.
  - eexists. reflexivity.
  - vm_compute. reflexivity.
Defined.

(** ** The lines of an exclude file *)

Lemma fgets_chars_newline (n : nat) (c rest : string) :
  has_char newline c = false ->
  (String.length c + 1 <= n)%nat ->
  fgets_chars n (c +:+ String newline rest) = (c +:+ String newline EmptyString, rest).
Proof.
  revert n. induction c as [|x c IH]; intros n Hnl Hlen; simpl in *.
  - destruct n as [|n]; [lia|]. reflexivity.
  - apply orb_false_elim in Hnl as [Hx Hc].
    destruct n as [|n]; [lia|]. simpl. rewrite Hx.
    rewrite IH by (assumption || lia). reflexivity.
Qed.

(** One turn of the loop of lines 996-1043 on a line that [fgets] takes
    whole. *)
Lemma parse_exclude_loop_step (f : nat) (c rest : string) (dirs : list string) :
  has_char newline c = false ->
  has_char nul c = false ->
  (String.length c + 1 <= PATH_MAX)%nat ->
  parse_exclude_loop (S f) (c +:+ String newline rest) dirs =
    if (String.length c =? 0)%nat then parse_exclude_loop f rest dirs
    else if bool_decide (last_char c = Some slash) then
      if (MAX_EXCLUDES <=? length dirs + 1)%nat
      then ParseExit LSYNCD_TOOMANYDIRECTORYEXCLUDES
      else if (String.length (drop_last c) =? 0)%nat then parse_exclude_loop f rest dirs
           else parse_exclude_loop f rest (dirs ++ [drop_last c])
    else parse_exclude_loop f rest dirs.
Proof.
  intros Hnl Hnul Hlen. cbn [parse_exclude_loop]. unfold fgets.
  destruct (c +:+ String newline rest) eqn:Hin; [destruct c; discriminate|].
  rewrite <- Hin. clear Hin.
  rewrite fgets_chars_newline by (assumption || (unfold PATH_MAX in *; simpl; lia)).
  rewrite c_string_plain by assumption. cbn [c_string Ascii.eqb].
  change (if Ascii.eqb newline nul then EmptyString else String newline EmptyString)
    with (String newline EmptyString).
  assert (Hlen1 : (String.length (c +:+ String newline EmptyString) =? 0)%nat = false).
  { apply Nat.eqb_neq. rewrite length_append. simpl. lia. }
  rewrite Hlen1, last_char_snoc, bool_decide_eq_true_2 by reflexivity.
  rewrite drop_last_snoc. reflexivity.
Qed.

Lemma has_char_append (x : ascii) (a b : string) :
  has_char x (a +:+ b) = has_char x a || has_char x b.
Proof.
  induction a as [|y a IH]; simpl; [reflexivity|]. rewrite IH. apply orb_assoc.
Qed.

Lemma exclude_text_length (lines : list exclude_line) :
  (length lines <= String.length (exclude_text lines))%nat.
Proof.
  induction lines as [|l r IH]; simpl; [lia|].
  rewrite length_append. simpl. lia.
Qed.

Lemma parse_exclude_loop_patterns (lines : list exclude_line) :
  forall (fuel : nat) (dirs : list string),
    Forall line_ok lines ->
    (length lines < fuel)%nat ->
    (length dirs + length (directories lines) < MAX_EXCLUDES - 1)%nat ->
    parse_exclude_loop fuel (exclude_text lines) dirs = Parsed (dirs ++ directories lines).
Proof.
  induction lines as [|l r IH]; intros fuel dirs Hok Hfuel Hroom.
  - destruct fuel; [simpl in Hfuel; lia|]. simpl. rewrite app_nil_r. reflexivity.
  - destruct fuel as [|fuel]; [simpl in Hfuel; lia|].
    apply Forall_cons in Hok as [(Hnl & Hnul & Hlen & Hkind) Hr].
    cbn [exclude_text]. rewrite (parse_exclude_loop_step _ _ _ _ Hnl Hnul Hlen).
    simpl in Hfuel. destruct l as [name|name|]; cbn [line_text directories] in *.
    + assert (Hne : (String.length (name +:+ "/") =? 0)%nat = false).
      { apply Nat.eqb_neq. rewrite length_append. simpl. lia. }
      rewrite Hne. change "/" with (String slash EmptyString).
      rewrite last_char_snoc, bool_decide_eq_true_2 by reflexivity.
      rewrite drop_last_snoc.
      assert (Hcap : (MAX_EXCLUDES <=? length dirs + 1)%nat = false).
      { apply Nat.leb_gt. unfold MAX_EXCLUDES in *. lia. }
      rewrite Hcap.
      destruct (String.eqb_spec name "") as [->|Hname].
      * simpl. apply IH; [exact Hr|lia|exact Hroom].
      * assert (Hn0 : (String.length name =? 0)%nat = false).
        { apply Nat.eqb_neq. destruct name; [congruence|simpl; lia]. }
        rewrite Hn0. rewrite IH; [rewrite <- app_assoc; reflexivity|exact Hr|lia|].
        rewrite length_app. simpl in *. lia.
    + destruct Hkind as [Hname Hlast].
      assert (Hn0 : (String.length name =? 0)%nat = false).
      { apply Nat.eqb_neq. destruct name; [congruence|simpl; lia]. }
      rewrite Hn0, bool_decide_eq_false_2 by exact Hlast.
      apply IH; [exact Hr|lia|exact Hroom].
    + simpl. apply IH; [exact Hr|lia|exact Hroom].
Qed.

(** X17 (parse_exclude_file, lines 983-1046): of a file whose lines fit
    the buffer, [parse_exclude_file] keeps the directory patterns, without
    their closing slash and in the order of the file, and skips the
    patterns for files, the empty lines and the lines that hold only a
    slash, as long as the file names fewer than 255 directories. *)
Theorem parse_exclude_file_patterns (lines : list exclude_line) :
  Forall line_ok lines ->
  (length (directories lines) < 255)%nat ->
  parse_exclude_file (Some (exclude_text lines)) [] = Parsed (directories lines).
Proof.
  intros Hok Hroom. unfold parse_exclude_file.
  apply (parse_exclude_loop_patterns lines _ [] Hok).
  - pose proof (exclude_text_length lines). lia.
  - unfold MAX_EXCLUDES. simpl. lia.
Qed.

Lemma parse_exclude_file_patterns_witness :
  parse_exclude_file
    (Some (exclude_text [DirPattern "cache"; FilePattern "*.o"; EmptyLine;
                         DirPattern ""; DirPattern "tmp"])) []
  = Parsed ["cache"; "tmp"].
Proof.
  apply (parse_exclude_file_patterns
           [DirPattern "cache"; FilePattern "*.o"; EmptyLine; DirPattern ""; DirPattern "tmp"]).
  - repeat (apply Forall_cons; split); try apply Forall_nil;
      repeat split; try reflexivity; try discriminate; apply Nat.leb_le; reflexivity.
  - apply Nat.ltb_lt. reflexivity.
Defined.

(** ** The source directory *)

Lemma buildpath_buf_root (dws : list dir_watch) (pathsize : nat) (d : string) :
  buildpath_buf dws pathsize (-1) (Some d) None =
    if (pathsize <=? String.length d + 2)%nat
    then BpRet false pb_empty else BpRet true (strcat pb_empty d).
Proof.
  unfold buildpath_buf. rewrite bool_decide_eq_false_2 by discriminate.
  destruct (length dws); reflexivity.
Qed.

(** X18 (realdir, lines 331-354; buildpath, lines 546-552; add_dirwatch,
    line 578): the source that [realdir] hands to [main] ends in a slash and
    has at most [PATH_MAX] - 1 bytes; [buildpath] takes it as the path of
    a root when it has at most [PATH_MAX] - 2 bytes, and refuses the one
    of [PATH_MAX] - 1 bytes that [realdir] lets through. *)
Theorem realdir_source (realpath : string -> option string) (is_directory : string -> bool)
    (dir r : string) (dws : list dir_watch) :
  realdir realpath is_directory dir = Some r ->
  last_char r = Some slash /\
  (String.length r < PATH_MAX)%nat /\
  buildpath_buf dws (S PATH_MAX) (-1) (Some r) None =
    if (String.length r <? PATH_MAX - 1)%nat
    then BpRet true (strcat pb_empty r) else BpRet false pb_empty.
Proof.
  unfold realdir. destruct (realpath dir) as [cs|]; [|discriminate].
  destruct (Nat.leb_spec PATH_MAX (String.length cs + 1)) as [Hbig|Hfit]; [discriminate|].
  destruct (negb (is_directory cs)); [discriminate|]. intros [= <-].
  change "/" with (String slash EmptyString). rewrite last_char_snoc.
  split; [reflexivity|]. rewrite length_append. simpl String.length.
  split; [exact Hfit|].
  rewrite buildpath_buf_root, length_append. simpl String.length. unfold PATH_MAX in *.
  destruct (Nat.ltb_spec (String.length cs + 1) (4096 - 1)) as [Hlt|Hge].
  - rewrite (proj2 (Nat.leb_gt _ _)) by (simpl; lia). reflexivity.
  - rewrite (proj2 (Nat.leb_le _ _)) by (simpl; lia). reflexivity.
Qed.

Lemma realdir_source_witness :
  last_char "/tmp/src/" = Some slash /\
  (String.length "/tmp/src/" < PATH_MAX)%nat /\
  buildpath_buf [] (S PATH_MAX) (-1) (Some "/tmp/src/") None =
    if (String.length "/tmp/src/" <? PATH_MAX - 1)%nat
    then BpRet true (strcat pb_empty "/tmp/src/") else BpRet false pb_empty.
Proof.
  apply (realdir_source (fun _ => Some "/tmp/src") (fun _ => true) "/tmp/./src" "/tmp/src/" []).
  reflexivity.
Defined.

(** ** The path of a directory and the path of its parent *)

Lemma buildpath_buf_walk_prefix (dws : list dir_watch) (pathsize : nat) (watch : Z)
    (prefix : option string) :
  prefix <> Some "%wwwuser" ->
  buildpath_buf dws pathsize watch None prefix =
    walk_up (length dws) dws pathsize (bool_decide (prefix <> None)) watch
      match prefix with Some pre => strcat pb_empty pre | None => pb_empty end.
Proof.
  intros Hpre. unfold buildpath_buf. rewrite bool_decide_eq_false_2 by exact Hpre.
  destruct (parent_stack (length dws) dws watch) as [ps|] eqn:Hps.
  - rewrite (walk_up_loop _ _ _ _ _ _ _ Hps).
    destruct (walk_up _ _ _ _ _ _) as [| |[|] b]; reflexivity.
  - rewrite (walk_up_undef _ _ _ _ _ _ Hps). reflexivity.
Qed.

(** X19 (buildpath, lines 527-544): the path that [buildpath] gives for a
    slot is the path it gives for the parent of the slot, followed by the
    name of the slot and a slash; with a prefix, the name is the
    destination name of the slot when it has one.  So whenever the path of
    a directory can be built, so can the path of its parent, which is what
    [handle_event] relies on when it retries a sync one level up. *)
Theorem buildpath_of_child (dws : list dir_watch) (pathsize : nat) (i : Z) (n : dir_watch)
    (prefix : option string) (buf : pathbuf) :
  slot dws i = Some n ->
  buildpath_buf dws pathsize i None prefix = BpRet true buf ->
  exists up name,
    buildpath_buf dws pathsize (parent n) None prefix = BpRet true up /\
    segment (bool_decide (prefix <> None)) n = Some name /\
    pb_text buf = pb_text up +:+ name +:+ "/".
Proof.
  intros Hn H.
  assert (Hpre : prefix <> Some "%wwwuser").
  { intros ->. unfold buildpath_buf in H.
    rewrite bool_decide_eq_true_2 in H by reflexivity. discriminate. }
  rewrite buildpath_buf_walk_prefix in * by exact Hpre.
  pose proof (slot_nat _ _ _ Hn) as [Hi Hlook].
  pose proof (lookup_lt_Some _ _ _ Hlook) as Hlt.
  destruct (length dws) as [|f] eqn:Hlen; [lia|].
  cbn [walk_up] in H. destruct (Z.eqb_spec i (-1)); [lia|]. rewrite Hn in H.
  destruct (walk_up f dws pathsize _ (parent n) _) as [| |[|] b] eqn:Hup; try discriminate.
  destruct (append_segment_ok _ _ _ _ _ H) as (name & Hseg & Htext & _).
  exists b, name. split; [|split; assumption].
  destruct (parent_stack f dws (parent n)) as [k|] eqn:Hk.
  - rewrite (walk_up_fuel _ _ _ f (S f) _ k _ Hk); [exact Hup|].
    pose proof (parent_stack_le _ _ _ _ Hk). lia.
  - rewrite (walk_up_undef _ _ _ _ _ _ Hk) in Hup. discriminate.
Qed.

Lemma buildpath_of_child_witness :
  exists up name,
    buildpath_buf four_watches (S PATH_MAX) 2 None (Some "host::module/") = BpRet true up /\
    segment (bool_decide (Some "host::module/" <> None)) (mk_dir_watch 3 (Some "b") None 2)
      = Some name /\
    "host::module//a/b/" = pb_text up +:+ name +:+ "/".
Proof.
  exact (buildpath_of_child four_watches (S PATH_MAX) 1 (mk_dir_watch 3 (Some "b") None 2)
           (Some "host::module/") (mk_pathbuf "host::module//a/b/" 19) eq_refl eq_refl).
Defined.

(** ** Events in a sound table *)

Section DefinedAt.
Variable dws : list dir_watch.







Hypothesis sound : sound_table dws.



End DefinedAt.



(** ** The text of a mask *)

Lemma build_masktext_length (tbl : list (Z * string)) (mask : Z) :
  forall masktext t,
    build_masktext tbl mask masktext = Some t ->
    (String.length t <= String.length masktext + texts_length tbl)%nat.
Proof.
  induction tbl as [|[m text] r IH]; intros masktext t H;
    cbn [build_masktext texts_length] in *.
  - injection H as <-. lia.
  - destruct (has_bits mask m); [|apply IH in H; lia].
    destruct (255 <=? _)%nat; [discriminate|].
    apply IH in H. destruct (String.eqb masktext ""); rewrite !length_append in H;
      simpl in H; lia.
Qed.

(** X21 (handle_event, lines 712-725): whatever the mask of an event is,
    the loop that spells it out never takes the return of line 716: the
    names of all the bits, with their separators, come to 129 bytes, so the
    text always fits the 255 bytes of [masktext] and the error
    [bufferoverflow in handle_event] is never logged. *)
Theorem build_masktext_never_overflows (mask : Z) :
  exists t,
    build_masktext mask_texts mask "" = Some t /\ (String.length t <= 129)%nat.
Proof.
  destruct (build_masktext_total mask) as [t Ht]. exists t. split; [exact Ht|].
  apply build_masktext_length in Ht. vm_compute in Ht. exact Ht.
Qed.

(** ** The arguments of a sync *)

Lemma frees_map_printlogf {A : Type} (level : Z) (fmt : string) (l : list A) :
  frees (map (fun _ => Printlogf level fmt) l) = [].
Proof. induction l as [|x l IH]; simpl; [reflexivity|exact IH]. Qed.

Lemma frees_map_Free (l : list string) : frees (map Free l) = l.
Proof. induction l as [|x l IH]; simpl; [reflexivity|rewrite IH; reflexivity]. Qed.

Lemma frees_rsync_prologue (cfg : config) (src dest : string) (recursive : bool) :
  frees (rsync_prologue cfg src dest recursive) = [].
Proof. unfold rsync_prologue. simpl. apply frees_map_printlogf. Qed.

Lemma frees_rsync_spawn (cfg : config) (src dest : string) (recursive : bool) :
  frees (rsync_spawn cfg src dest recursive) = rsync_args cfg src dest recursive.
Proof.
  unfold rsync_spawn. rewrite !frees_app, frees_rsync_prologue, frees_map_Free. reflexivity.
Qed.

Lemma frees_rsync_epilogue (code : Z) : frees [snd (rsync_epilogue code)] = [].
Proof.
  unfold rsync_epilogue. destruct (code =? LSYNCD_INTERNALFAIL); [reflexivity|].
  destruct (negb (code =? 0)); reflexivity.
Qed.

(** X22 (rsync, lines 365-432): the strings that [rsync] duplicates for
    the argument vector are given to [free] once each, in the order of the
    vector, by a run that forks, whatever becomes of the child; a dry run
    returns at line 397 and frees none of them. *)
Theorem rsync_frees_arguments (cfg : config) (env : environment) (src dest : string)
    (recursive : bool) (s : state) :
  exists s',
    final_state (rsync cfg env src dest recursive s) = Some s' /\
    frees (trace s') =
      frees (trace s) ++
      (if flag_dryrun cfg then [] else rsync_args cfg src dest recursive).
Proof.
  destruct (flag_dryrun cfg) eqn:Hd.
  - rewrite (rsync_dryrun _ _ _ _ _ _ Hd). eexists. split; [reflexivity|].
    cbn [trace with_trace]. rewrite frees_app, frees_rsync_prologue. reflexivity.
  - rewrite (rsync_spawned _ _ _ _ _ _ Hd).
    destruct (waitpid env (clock s)) as [code|sig]; eexists; (split; [reflexivity|]);
      cbn [trace with_trace ticked]; rewrite !frees_app, frees_rsync_spawn.
    + rewrite frees_rsync_epilogue, app_nil_r. reflexivity.
    + reflexivity.
Qed.

(** ** A subtree that is moved in and left unwatched *)

(** C9, where the code fails it.  A directory of 255 bytes is moved into
    a directory that lies 14 levels of 255 bytes below the source: its path
    has 3849 bytes and fits the buffer of [PATH_MAX] + 1 bytes, and it holds
    a directory [e] that is not excluded and whose path fits as well.  The
    world holds still, [keep_going] stays set and the kernel grants every
    watch.  Whatever [recursive] is and whatever fuel there is,
    [add_dirwatch] puts the watch on the directory that was moved in and
    fills its slot, and then the test of line 593, which adds the length of
    the name to the length of a path that already ends with that name
    (3849 + 255 + 2 > 4097), makes it log an error and return [false]
    before [opendir]: the directory [e] of the subtree that was moved in
    gets no watch and no slot.  So it is when [handle_event] makes the call
    for the event [IN_MOVED_TO | IN_ISDIR] of that directory. *)
Theorem add_dirwatch_leaves_subtree_unwatched :
  live_chain deep_watches 14 /\
  (exists up, buildpath_buf deep_watches (S PATH_MAX) 14 None None = BpRet true up) /\
  String.length deep_path = 3849%nat /\
  fs_deep deep_path = Some [mk_dirent "." true; mk_dirent ".." true; mk_dirent "e" true] /\
  is_subdir (mk_dirent "e" true) = true /\
  watchable cfg_plain deep_path moved_in_name /\
  watchable cfg_plain (deep_path +:+ "/e") "e" /\
  forall (fuel : nat) (recursive : bool),
    add_dirwatch cfg_plain env_deep (S fuel) moved_in_name None recursive 14 state_deep =
      Ret false
        (mk_state (deep_watches ++ [mk_dir_watch 100 (Some moved_in_name) None 14]) 32 1
           [log_add_dirwatch; InotifyAddWatch deep_path;
            Printlogf LOG_ERROR "pathname too long %s//%s"]) /\
    ~ watched_in (deep_watches ++ [mk_dir_watch 100 (Some moved_in_name) None 14])
        [log_add_dirwatch; InotifyAddWatch deep_path;
         Printlogf LOG_ERROR "pathname too long %s//%s"]
        (deep_path +:+ "/e") "e" /\
    exists s',
      handle_event cfg_plain env_deep (S fuel)
        (mk_event 15 (Z.lor IN_MOVED_TO IN_ISDIR) moved_in_name) state_deep = Ret false s' /\
      InotifyAddWatch deep_path ∈ trace s' /\
      ~ InotifyAddWatch (deep_path +:+ "/e") ∈ trace s'.
Proof.
  split.
  { repeat (eapply live_chain_node; [vm_compute; reflexivity|vm_compute; discriminate|cbn [parent]]).
    constructor. }
  split; [eexists; vm_compute; reflexivity|].
  split; [vm_compute; reflexivity|].
  split; [vm_compute; reflexivity|].
  split; [reflexivity|].
  split; [split; [apply Nat.ltb_lt; vm_compute; reflexivity|reflexivity]|].
  split; [split; [apply Nat.ltb_lt; vm_compute; reflexivity|reflexivity]|].
  intros fuel recursive. split; [|split].
  - rewrite add_dirwatch_unfold. vm_compute. reflexivity.
  - intros [Hin _].
    apply elem_of_cons in Hin as [Hin|Hin]; [discriminate|].
    apply elem_of_cons in Hin as [Hin|Hin].
    + injection Hin as Hin. apply (f_equal String.length) in Hin.
      vm_compute in Hin. discriminate.
    + apply elem_of_cons in Hin as [Hin|Hin]; [discriminate|].
      exact (not_elem_of_nil _ Hin).
  - eexists. split; [vm_compute; reflexivity|]. split.
    + do 2 (apply elem_of_cons; right). apply elem_of_cons. left. reflexivity.
    + intros Hin.
      repeat (apply elem_of_cons in Hin as [Hin|Hin];
              [first [discriminate Hin
                     |injection Hin as Hin; apply (f_equal String.length) in Hin;
                      vm_compute in Hin; discriminate Hin]|]).
      exact (not_elem_of_nil _ Hin).
Qed.
